(** * dreadcabinet: date-path codec, date-range filter, structured walker
      and output constructor

    A shallow embedding of [src/input/structured.ts], [src/output.ts],
    [src/validate.ts], [src/util/dates.ts] and [src/util/storage.ts], with
    the properties the specification states about them.

    Conventions.
    - A JavaScript string is a Rocq [string]; its characters stand for the
      code units U+0000..U+00FF.
    - A JavaScript number that the code obtains from [parseInt] is an
      [option Z]: [None] is NaN.  Integers below 2^53 are exact in a double,
      and a larger digit string is far outside every range the code tests,
      so [Z] decides every comparison the way the double does.
    - A [Date] is its time value: [Some t] with [t] milliseconds since the
      epoch, or [None] for an Invalid Date.
    - A function that can throw returns a [Result]; [null] and [undefined]
      are [None] of an [option].
    - Logger calls have no effect on any returned value and are left out;
      the places where the source logs are named in comments. *)

From Stdlib Require Import ZArith Lia List Bool Ascii String PeanoNat.
Import ListNotations.

Local Open Scope string_scope.
Local Open Scope Z_scope.

(* ================================================================== *)
(** * Part I: definitions *)
(* ================================================================== *)

(** ** JavaScript values used by the code *)

Module JS.

Inductive Error : Type :=
| GenericError (message : string)            (* new Error(message) *)
| TypeError (message : string)               (* property access on undefined *)
| ArgumentError (argument message : string). (* src/error/ArgumentError *)

Inductive Result (A : Type) : Type :=
| Return (a : A)
| Throw (e : Error).
Arguments Return {A} a.
Arguments Throw {A} e.

Definition bind {A B} (r : Result A) (k : A -> Result B) : Result B :=
  match r with
  | Return a => k a
  | Throw e => Throw e
  end.

(** [try { body } catch (e) { return handler }] *)
Definition try_catch {A} (body : Result A) (handler : A) : A :=
  match body with
  | Return a => a
  | Throw _ => handler
  end.

(** *** Characters *)

Definition code (c : ascii) : N := N_of_ascii c.

Definition between (lo hi : N) (c : ascii) : bool :=
  ((lo <=? code c) && (code c <=? hi))%N.

Definition is_digit (c : ascii) : bool := between 48 57 c.
Definition is_upper (c : ascii) : bool := between 65 90 c.
Definition is_lower (c : ascii) : bool := between 97 122 c.

(** [\p{L}] on U+0000..U+00FF: the ASCII letters, U+00AA, U+00B5, U+00BA
    and U+00C0..U+00FF without the two operators U+00D7 and U+00F7. *)
Definition is_unicode_letter (c : ascii) : bool :=
  is_upper c || is_lower c
  || (code c =? 170)%N || (code c =? 181)%N || (code c =? 186)%N
  || between 192 214 c || between 216 246 c || between 248 255 c.

(** [\p{N}] on U+0000..U+00FF: the digits, the superscripts U+00B2, U+00B3,
    U+00B9 and the fractions U+00BC..U+00BE. *)
Definition is_unicode_number (c : ascii) : bool :=
  is_digit c
  || (code c =? 178)%N || (code c =? 179)%N || (code c =? 185)%N
  || between 188 190 c.

(** [StrWhiteSpaceChar] on U+0000..U+00FF: TAB, LF, VT, FF, CR, SP, NBSP. *)
Definition is_white_space (c : ascii) : bool :=
  between 9 13 c || (code c =? 32)%N || (code c =? 160)%N.

(** *** Strings *)

(** Truthiness of a string: every string but the empty one. *)
Definition truthy (s : string) : bool :=
  match s with
  | EmptyString => false
  | String _ _ => true
  end.

Fixpoint forall_chars (p : ascii -> bool) (s : string) : bool :=
  match s with
  | EmptyString => true
  | String c r => p c && forall_chars p r
  end.

Fixpoint exists_char (p : ascii -> bool) (s : string) : bool :=
  match s with
  | EmptyString => false
  | String c r => p c || exists_char p r
  end.

(** [s.startsWith(p)] *)
Definition startsWith (s p : string) : bool := String.prefix p s.

(** [s.endsWith(p)] *)
Fixpoint endsWith (s p : string) : bool :=
  String.eqb s p
  || match s with
     | EmptyString => false
     | String _ r => endsWith r p
     end.

(** [s.includes(c)] for a one-character needle. *)
Definition includes_char (s : string) (c : ascii) : bool :=
  exists_char (Ascii.eqb c) s.

(** [xs.includes(x)] on an array of strings. *)
Definition includes (xs : list string) (x : string) : bool :=
  existsb (String.eqb x) xs.

(** [s.split(sep)] where [sep] matches exactly the one-character strings
    whose character satisfies [p] (a one-character string, or a regular
    expression that is a single character class).  The result is never
    empty: the empty string splits into [[""]]. *)
Fixpoint split (p : ascii -> bool) (s : string) : list string :=
  match s with
  | EmptyString => [EmptyString]
  | String c r =>
      if p c then EmptyString :: split p r
      else match split p r with
           | [] => [String c EmptyString]
           | t :: ts => String c t :: ts
           end
  end.

(** [xs.join(sep)] *)
Definition join (sep : string) (xs : list string) : string :=
  String.concat sep xs.

(** [s.substring(a, b)] for [a <= b]. *)
Definition substring (a b : nat) (s : string) : string :=
  String.substring a (b - a) s.

Fixpoint drop_while (p : ascii -> bool) (s : string) : string :=
  match s with
  | EmptyString => EmptyString
  | String c r => if p c then drop_while p r else s
  end.

(** Removes the longest suffix whose characters all satisfy [p]. *)
Fixpoint drop_while_end (p : ascii -> bool) (s : string) : string :=
  match s with
  | EmptyString => EmptyString
  | String c r =>
      match drop_while_end p r with
      | EmptyString => if p c then EmptyString else String c EmptyString
      | r' => String c r'
      end
  end.

(** *** Numbers *)

Definition digit_value (c : ascii) : Z := Z.of_N (code c) - 48.

Definition digit_char (d : Z) : ascii := ascii_of_N (Z.to_N (d + 48)).

Fixpoint digits_value (acc : Z) (s : string) : Z :=
  match s with
  | EmptyString => acc
  | String c r =>
      if is_digit c then digits_value (10 * acc + digit_value c) r else acc
  end.

(** [parseInt(s, 10)]: leading white space is skipped, one sign is read,
    then the longest run of decimal digits; NaN when that run is empty.
    Whatever follows the digits is ignored. *)
Definition parseInt (s : string) : option Z :=
  let s1 := drop_while is_white_space s in
  let '(negative, s2) :=
    match s1 with
    | String "-"%char r => (true, r)
    | String "+"%char r => (false, r)
    | _ => (false, s1)
    end in
  match s2 with
  | String c _ =>
      if is_digit c
      then Some (if negative : bool then - digits_value 0 s2 else digits_value 0 s2)
      else None
  | EmptyString => None
  end.

(** [parseInt(x, 10)] where [x] may be [undefined]: the argument is first
    converted to the string ["undefined"], which has no digits. *)
Definition parseInt_opt (x : option string) : option Z :=
  match x with
  | Some s => parseInt s
  | None => None
  end.

(** [x.length] where [x] may be [undefined]. *)
Definition length_opt (x : option string) : Result nat :=
  match x with
  | Some s => Return (String.length s)
  | None => Throw (TypeError "Cannot read properties of undefined (reading 'length')")
  end.

Definition isNaN (x : option Z) : bool :=
  match x with
  | Some _ => false
  | None => true
  end.

Fixpoint decimal (fuel : nat) (n : Z) (acc : string) : string :=
  let acc' := String (digit_char (n mod 10)) acc in
  match fuel with
  | O => acc'
  | S f => if n <? 10 then acc' else decimal f (n / 10) acc'
  end.

(** [String(n)] for an integer [n] (below 10^21 in absolute value, where
    JavaScript still prints every digit). *)
Definition String_of_number (n : Z) : string :=
  if n <? 0 then String "-"%char (decimal (Z.to_nat (- n)) (- n) "")
  else decimal (Z.to_nat n) n "".

Fixpoint repeat_char (c : ascii) (n : nat) : string :=
  match n with
  | O => EmptyString
  | S k => String c (repeat_char c k)
  end.

(** [s.padStart(width, "0")] *)
Definition padStart (width : nat) (s : string) : string :=
  repeat_char "0"%char (width - String.length s) ++ s.

End JS.

(** ** The ECMAScript [Date] object (ECMA-262, Date Objects), UTC part *)

Module JSDate.

(** A [Date]: [Some t] holds the time value [t]; [None] is Invalid Date. *)
Definition Date : Type := option Z.

Definition msPerMinute : Z := 60000.
Definition msPerHour : Z := 3600000.
Definition msPerDay : Z := 86400000.
Definition maxTime : Z := 8640000000000000.

(** [MakeDay(year, month, date)] with a 0-based [month] that may lie
    outside 0..11 and a [date] that may lie outside the month: the day
    number of the first of the month in the proleptic Gregorian calendar,
    plus [date - 1].  Years are counted from 1 March, in eras of 400. *)
Definition MakeDay (year month date : Z) : Z :=
  let ym := year + month / 12 in
  let mn := month mod 12 in
  let y := if mn <? 2 then ym - 1 else ym in
  let era := y / 400 in
  let yoe := y - era * 400 in
  let mp := if mn <? 2 then mn + 10 else mn - 2 in
  let doy := (153 * mp + 2) / 5 in
  let doe := yoe * 365 + yoe / 4 - yoe / 100 + doy in
  era * 146097 + doe - 719468 + (date - 1).

Definition MakeTime (hour min sec ms : Z) : Z :=
  hour * msPerHour + min * msPerMinute + sec * 1000 + ms.

Definition MakeDate (day time : Z) : Z := day * msPerDay + time.

Definition TimeClip (t : Z) : Date :=
  if Z.abs t >? maxTime then None else Some t.

(** [Date.UTC(y, mo, d, h, mi)] on finite integers.  A year from 0 to 99
    means 1900 + year. *)
Definition UTC (y mo d h mi : Z) : Date :=
  let yr := if (0 <=? y) && (y <=? 99) then 1900 + y else y in
  TimeClip (MakeDate (MakeDay yr mo d) (MakeTime h mi 0 0)).

Definition Day (t : Z) : Z := t / msPerDay.
Definition TimeWithinDay (t : Z) : Z := t mod msPerDay.

(** Year, 0-based month and day of the month of a day number. *)
Definition civil (day : Z) : Z * Z * Z :=
  let z := day + 719468 in
  let era := z / 146097 in
  let doe := z - era * 146097 in
  let yoe := (doe - doe / 1460 + doe / 36524 - doe / 146096) / 365 in
  let doy := doe - (365 * yoe + yoe / 4 - yoe / 100) in
  let mp := (5 * doy + 2) / 153 in
  let d := doy - (153 * mp + 2) / 5 + 1 in
  let m := if mp <? 10 then mp + 2 else mp - 10 in
  let y := yoe + era * 400 in
  (if m <? 2 then y + 1 else y, m, d).

Definition YearFromTime (t : Z) : Z := fst (fst (civil (Day t))).
Definition MonthFromTime (t : Z) : Z := snd (fst (civil (Day t))).
Definition DateFromTime (t : Z) : Z := snd (civil (Day t)).
Definition HourFromTime (t : Z) : Z := (t / msPerHour) mod 24.
Definition MinFromTime (t : Z) : Z := (t / msPerMinute) mod 60.
Definition SecFromTime (t : Z) : Z := (t / 1000) mod 60.
Definition WeekDay (t : Z) : Z := (Day t + 4) mod 7.

(** The getters return NaN on an Invalid Date. *)
Definition getUTCFullYear (d : Date) : option Z := option_map YearFromTime d.
Definition getUTCMonth (d : Date) : option Z := option_map MonthFromTime d.
Definition getUTCDate (d : Date) : option Z := option_map DateFromTime d.
Definition getUTCHours (d : Date) : option Z := option_map HourFromTime d.
Definition getUTCMinutes (d : Date) : option Z := option_map MinFromTime d.

(** [date.setUTCDate(n)] *)
Definition setUTCDate (d : Date) (n : Z) : Date :=
  match d with
  | Some t =>
      TimeClip (MakeDate (MakeDay (YearFromTime t) (MonthFromTime t) n)
                         (TimeWithinDay t))
  | None => None
  end.

(** [x !== n] for a getter result [x] and a number [n]: NaN differs from
    every number. *)
Definition strict_neq (x : option Z) (n : Z) : bool :=
  match x with
  | Some v => negb (v =? n)
  | None => true
  end.

(** [a < b] and [a >= b] on two dates: both are false when either time
    value is NaN. *)
Definition lt (a b : Date) : bool :=
  match a, b with
  | Some x, Some y => x <? y
  | _, _ => false
  end.

Definition ge (a b : Date) : bool :=
  match a, b with
  | Some x, Some y => y <=? x
  | _, _ => false
  end.

(** [isNaN(d.getTime())] *)
Definition isInvalid (d : Date) : bool :=
  match d with
  | Some _ => false
  | None => true
  end.

(** The Gregorian calendar, for stating what a valid date is. *)
Definition isLeapYear (y : Z) : bool :=
  ((y mod 4 =? 0) && negb (y mod 100 =? 0)) || (y mod 400 =? 0).

(** Days of the 0-based month [m] of year [y]. *)
Definition daysInMonth (y m : Z) : Z :=
  if m =? 1 then (if isLeapYear y then 29 else 28)
  else if (m =? 3) || (m =? 5) || (m =? 8) || (m =? 10) then 30
  else 31.

(** [DayFromYear(y)] as ECMA-262 writes it. *)
Definition DayFromYear (y : Z) : Z :=
  365 * (y - 1970) + (y - 1969) / 4 - (y - 1901) / 100 + (y - 1601) / 400.

End JSDate.

(** ** [node:path], POSIX flavour *)

Module Path.

Definition sep : ascii := "/"%char.
Definition is_sep (c : ascii) : bool := Ascii.eqb c sep.
Definition is_dot (c : ascii) : bool := Ascii.eqb c "."%char.

Fixpoint last_truthy (xs : list string) : string :=
  match xs with
  | [] => EmptyString
  | x :: r =>
      match last_truthy r with
      | EmptyString => x
      | y => y
      end
  end.

(** The last path segment, trailing separators ignored; empty when the
    path holds separators only. *)
Definition last_segment (p : string) : string :=
  last_truthy (JS.split is_sep p).

(** Splits at the last dot: [Some (a, e)] with [s = a ++ e], [e] starting
    with the last dot of [s]. *)
Fixpoint split_last_dot (s : string) : option (string * string) :=
  match s with
  | EmptyString => None
  | String c r =>
      match split_last_dot r with
      | Some (a, e) => Some (String c a, e)
      | None => if is_dot c then Some (EmptyString, s) else None
      end
  end.

(** [path.extname(p)]: from the last dot of the last segment to its end;
    empty when there is no dot, when the only dot is the first character
    of the segment, or when the segment is [".."]. *)
Definition extname (p : string) : string :=
  let seg := last_segment p in
  match split_last_dot seg with
  | Some (a, e) =>
      if negb (JS.truthy a) || String.eqb seg ".." then EmptyString else e
  | None => EmptyString
  end.

Fixpoint strip_suffix (s suffix : string) : option string :=
  if String.eqb s suffix then Some EmptyString
  else match s with
       | EmptyString => None
       | String c r => option_map (String c) (strip_suffix r suffix)
       end.

(** [path.basename(p, suffix)]: the last segment, without [suffix] when
    the segment ends with it and is longer.  (When [suffix] is longer
    than the last segment and [p] ends with a separator, Node returns
    the segment with its separators; [extname p] is never such a
    suffix.) *)
Definition basename (p suffix : string) : string :=
  let seg := last_segment p in
  if negb (JS.truthy suffix) then seg
  else if String.eqb p suffix then EmptyString
  else match strip_suffix seg suffix with
       | Some EmptyString => seg
       | Some stem => stem
       | None => seg
       end.

End Path.

(** ** dayjs with its utc and timezone plugins, as [src/util/dates.ts]
       uses it *)

Module Dayjs.

(** The wall-clock reading of an instant in a time zone: the fields
    [$y], [$M] (0-based), [$D], [$H], [$m] of [dayjs.tz(date, timezone)]. *)
Record Fields : Type := mkFields {
  year : Z;
  month : Z;
  date : Z;
  hour : Z;
  minute : Z
}.

(** The format tokens the repository uses, and literal text. *)
Inductive Token : Type :=
| YYYY | M | D | HH | mm
| Lit (text : string).

Definition Format : Type := list Token.

Definition format_token (f : Fields) (t : Token) : string :=
  match t with
  | YYYY => JS.padStart 4 (JS.String_of_number (year f))
  | M => JS.String_of_number (month f + 1)
  | D => JS.String_of_number (date f)
  | HH => JS.padStart 2 (JS.String_of_number (hour f))
  | mm => JS.padStart 2 (JS.String_of_number (minute f))
  | Lit s => s
  end.

Definition format_fields (f : Fields) (fmt : Format) : string :=
  JS.join "" (map (format_token f) fmt).

(** The text of a format, as it is written in the source. *)
Definition token_text (t : Token) : string :=
  match t with
  | YYYY => "YYYY"
  | M => "M"
  | D => "D"
  | HH => "HH"
  | mm => "mm"
  | Lit s => s
  end.

Definition format_text (fmt : Format) : string :=
  JS.join EmptyString (map token_text fmt).

(** What dayjs with its utc and timezone plugins gives for one IANA
    zone.  dayjs is not part of the repository: what it returns for a
    [Date] of time value [t] enters here.
    - [to_date t]: the [Date] of [dayjs.tz(date, timezone).toDate()] and
      of [dayjs(date).tz(timezone).toDate()]; Invalid Date when the
      instance [isValid()] rejects;
    - [wall t]: the fields of [dayjs.tz(date, timezone)];
    - [is_before a b]: [dayjs.tz(a, timezone).isBefore(dayjs.tz(b,
      timezone))];
    - [date_text t]: the text of the date in a template string, which is
      [Date.prototype.toString()] of the host. *)
Record Timezone : Type := mkTimezone {
  to_date : Z -> JSDate.Date;
  wall : Z -> Fields;
  is_before : Z -> Z -> bool;
  date_text : Z -> string
}.

(** [dayjs.tz(date, timezone).subtract(n, 'day').toDate()].  [tz] gives
    the instance the offset from UTC it found for the date; [subtract]
    moves the day of the month of the date the instance holds, as
    [setUTCDate(getUTCDate() - n)] does, and keeps that offset: it does
    not look the zone up again.  So the instant moves by [n] days of 24
    hours in every zone. *)
Definition subtract_days (tz : Timezone) (t n : Z) : JSDate.Date :=
  match to_date tz t with
  | Some v => JSDate.setUTCDate (Some v) (JSDate.DateFromTime v - n)
  | None => None
  end.

Definition utc_wall (t : Z) : Fields :=
  {| year := JSDate.YearFromTime t;
     month := JSDate.MonthFromTime t;
     date := JSDate.DateFromTime t;
     hour := JSDate.HourFromTime t;
     minute := JSDate.MinFromTime t |}.

Definition day_name (n : Z) : string :=
  nth (Z.to_nat n) ["Sun"; "Mon"; "Tue"; "Wed"; "Thu"; "Fri"; "Sat"] EmptyString.

Definition month_name (n : Z) : string :=
  nth (Z.to_nat n)
      ["Jan"; "Feb"; "Mar"; "Apr"; "May"; "Jun";
       "Jul"; "Aug"; "Sep"; "Oct"; "Nov"; "Dec"] EmptyString.

(** [Date.prototype.toString()] on a host whose local time is UTC
    (ECMA-262, ToDateString), with the zone name Node prints. *)
Definition utc_date_text (t : Z) : string :=
  let y := JSDate.YearFromTime t in
  (day_name (JSDate.WeekDay t) ++ " " ++ month_name (JSDate.MonthFromTime t) ++ " "
   ++ JS.padStart 2 (JS.String_of_number (JSDate.DateFromTime t)) ++ " "
   ++ (if (y <? 0)%Z then "-" else EmptyString)
   ++ JS.padStart 4 (JS.String_of_number (Z.abs y)) ++ " "
   ++ JS.padStart 2 (JS.String_of_number (JSDate.HourFromTime t)) ++ ":"
   ++ JS.padStart 2 (JS.String_of_number (JSDate.MinFromTime t)) ++ ":"
   ++ JS.padStart 2 (JS.String_of_number (JSDate.SecFromTime t))
   ++ " GMT+0000 (Coordinated Universal Time)")%string.

(** The zone 'UTC' on a host in UTC, for dates of the years from 1970
    on: dayjs keeps the instant, reads it as its UTC fields and compares
    two dates by their instants.  For earlier dates the plugin's
    reading of the offset differs in places from this one. *)
Definition UTC : Timezone :=
  {| to_date := fun t => Some t;
     wall := utc_wall;
     is_before := Z.ltb;
     date_text := utc_date_text |}.

End Dayjs.

(** ** [src/constants.ts] *)

Module Constants.

(** Modelled from the spec: [src/constants.ts] is not among the source
    files.  The format strings are the ones the repository's tests of the
    output module name next to each constant ('YYYY', 'M', 'D',
    'YYYY-M-D', 'M-D'), and §4.1 gives the same fragments. *)
Definition DATE_FORMAT_YEAR : Dayjs.Format := [Dayjs.YYYY].
Definition DATE_FORMAT_MONTH : Dayjs.Format := [Dayjs.M].
Definition DATE_FORMAT_DAY : Dayjs.Format := [Dayjs.D].
Definition DATE_FORMAT_MONTH_DAY : Dayjs.Format :=
  [Dayjs.M; Dayjs.Lit "-"; Dayjs.D].
Definition DATE_FORMAT_YEAR_MONTH_DAY : Dayjs.Format :=
  [Dayjs.YYYY; Dayjs.Lit "-"; Dayjs.M; Dayjs.Lit "-"; Dayjs.D].

(** ['HHmm'], written inline in [constructFilename]. *)
Definition FORMAT_HHmm : Dayjs.Format := [Dayjs.HH; Dayjs.mm].

End Constants.

(** ** [src/util/dates.ts] *)

Module Dates.

Import JS.

Record Utility : Type := mkUtility {
  now : JSDate.Date;
  date : JSDate.Date -> Result JSDate.Date;
  parse : JSDate.Date -> Dayjs.Format -> Result JSDate.Date;
  format : JSDate.Date -> Dayjs.Format -> string;
  subDays : JSDate.Date -> Z -> JSDate.Date;
  isBefore : JSDate.Date -> JSDate.Date -> bool
}.

(** [dayjs.tz(date, timezone).toDate()] for a [Date]; an Invalid Date
    stays one. *)
Definition to_date (tz : Dayjs.Timezone) (d : JSDate.Date) : JSDate.Date :=
  match d with
  | Some t => Dayjs.to_date tz t
  | None => None
  end.

(** The text of a [Date] in a template string. *)
Definition text (tz : Dayjs.Timezone) (d : JSDate.Date) : string :=
  match d with
  | Some t => Dayjs.date_text tz t
  | None => "Invalid Date"
  end.

(** [create({ timezone })].  [clock] is the instant [dayjs()] reads from
    the system clock when [now] is called.  [date] and [parse] are given
    a [Date], as the callers in the repository do. *)
Definition create (tz : Dayjs.Timezone) (clock : Z) : Utility :=
  {| now := Dayjs.to_date tz clock;
     date := fun d =>
       match to_date tz d with
       | Some v => Return (Some v)
       | None => Throw (GenericError ("Invalid date: " ++ text tz d))
       end;
     parse := fun d fmt =>
       match to_date tz d with
       | Some v => Return (Some v)
       | None =>
           Throw (GenericError ("Invalid date: " ++ text tz d
                                ++ ", expected format: " ++ Dayjs.format_text fmt))
       end;
     format := fun d fmt =>
       match d with
       | Some t => Dayjs.format_fields (Dayjs.wall tz t) fmt
       | None => "Invalid Date"
       end;
     subDays := fun d n =>
       match d with
       | Some t => Dayjs.subtract_days tz t n
       | None => None
       end;
     isBefore := fun a b =>
       match a, b with
       | Some x, Some y => Dayjs.is_before tz x y
       | _, _ => false
       end
  |}.

End Dates.

(** ** [String.prototype.replace] with the regular expressions of the code *)

Module RegExp.

(** A regular expression, as the matcher at one position: given whether
    the position is the start of the input, and the input from there on,
    the length of the match that starts there, if any. *)
Definition Matcher : Type := bool -> string -> option nat.

Fixpoint run_length (p : ascii -> bool) (s : string) : nat :=
  match s with
  | EmptyString => O
  | String c r => if p c then S (run_length p r) else O
  end.

Fixpoint drop (n : nat) (s : string) : string :=
  match n, s with
  | S k, String _ r => drop k r
  | _, _ => s
  end.

(** [/[C]/]: one character of the class. *)
Definition one_of (p : ascii -> bool) : Matcher :=
  fun _ s =>
    match s with
    | String c _ => if p c then Some 1%nat else None
    | EmptyString => None
    end.

(** [/[C]+/]: a longest run of characters of the class. *)
Definition run_of (p : ascii -> bool) : Matcher :=
  fun _ s =>
    match run_length p s with
    | O => None
    | n => Some n
    end.

(** [/^[C]+|[C]+$/]: a run at the start of the input, or a run that ends
    the input. *)
Definition edge_run_of (p : ascii -> bool) : Matcher :=
  fun at_start s =>
    match run_length p s with
    | O => None
    | n =>
        if at_start then Some n
        else match drop n s with
             | EmptyString => Some n
             | String _ _ => None
             end
    end.

(** [/^$/]: the empty input. *)
Definition empty_input : Matcher :=
  fun at_start s =>
    match s with
    | EmptyString => if at_start then Some O else None
    | String _ _ => None
    end.

(** The scan of [replace]: [skip] characters of the last match are still
    to be passed over; after a match the scan goes on behind it when the
    expression is global, and copies the rest otherwise. *)
Fixpoint scan (m : Matcher) (global : bool) (by_ : string)
         (skip : nat) (at_start : bool) (s : string) : string :=
  match s with
  | EmptyString =>
      match skip, m at_start EmptyString with
      | O, Some _ => by_
      | _, _ => EmptyString
      end
  | String c r =>
      match skip with
      | S k => scan m global by_ k false r
      | O =>
          match m at_start s with
          | Some (S n) =>
              if global then by_ ++ scan m global by_ n false r
              else by_ ++ drop n r
          | Some O =>
              if global then by_ ++ String c (scan m global by_ O false r)
              else by_ ++ s
          | None => String c (scan m global by_ O false r)
          end
      end
  end.

(** [s.replace(re, by_)] *)
Definition replace (m : Matcher) (global : bool) (by_ : string) (s : string)
  : string :=
  scan m global by_ O true s.

End RegExp.

(** ** [src/util/storage.ts]: [forEachFileIn] *)

Module Storage.

Section ForEachFileIn.

(** [glob(pattern, { cwd, nodir: true })] and [path.join] are the
    platform's. *)
Variable glob : string -> string -> list string.
Variable path_join : string -> string -> string.

(** The callback works on a state of type [State].  [call] is the
    callback up to the point where it first waits, and leaves what it
    waits for in a [Pending]; [settle] is the rest of the callback. *)
Context {State Pending : Type}.
Variable call : string -> State -> State * Pending.
Variable settle : Pending -> State -> State.

Inductive Worker : Type :=
| AtLoop                    (* about to test the [while] condition *)
| Awaiting (p : Pending)    (* inside [await callback(...)] *)
| Finished.

(** [considered] is not in the code: it keeps, for the proofs, the
    files taken off the queue and handed to the callback. *)
Record Pool : Type := mkPool {
  fileQueue : list string;
  filesProcessed : nat;
  workers : list Worker;
  state : State;
  considered : list string
}.

Fixpoint set_worker (i : nat) (w : Worker) (ws : list Worker) : list Worker :=
  match ws, i with
  | [], _ => []
  | _ :: r, O => w :: r
  | x :: r, S k => x :: set_worker k w r
  end.

Record Options : Type := mkOptions {
  pattern : string;
  limit : option nat;
  concurrency : option nat
}.

(** [x || d] on an optional number: [undefined] and [0] are falsy. *)
Definition or_default (x : option nat) (d : nat) : nat :=
  match x with
  | Some (S n) => S n
  | _ => d
  end.

Definition files_of (directory : string) (options : Options) : list string :=
  glob (pattern options) directory.

Definition limit_of (directory : string) (options : Options) : nat :=
  or_default (limit options) (List.length (files_of directory options)).

(** The pool when [Array.from({ length: concurrency }, () => worker())]
    starts the workers. *)
Definition start (directory : string) (options : Options) (s : State) : Pool :=
  {| fileQueue := firstn (limit_of directory options) (files_of directory options);
     filesProcessed := O;
     workers := repeat AtLoop (or_default (concurrency options) 1);
     state := s;
     considered := [] |}.

(** One move of worker [i]: from the loop test to the next [await], or
    from the end of an [await] back to the loop test. *)
Definition step (directory : string) (lim : nat) (pool : Pool) (i : nat) : Pool :=
  match nth_error (workers pool) i with
  | Some AtLoop =>
      match fileQueue pool with
      | file :: rest =>
          if (filesProcessed pool <? lim)%nat then
            if JS.truthy file then
              let '(s, p) := call (path_join directory file) (state pool) in
              {| fileQueue := rest;
                 filesProcessed := filesProcessed pool;
                 workers := set_worker i (Awaiting p) (workers pool);
                 state := s;
                 considered := considered pool ++ [file] |}
            else
              (* if (!file) break; *)
              {| fileQueue := rest;
                 filesProcessed := filesProcessed pool;
                 workers := set_worker i Finished (workers pool);
                 state := state pool;
                 considered := considered pool |}
          else
            {| fileQueue := fileQueue pool;
               filesProcessed := filesProcessed pool;
               workers := set_worker i Finished (workers pool);
               state := state pool;
               considered := considered pool |}
      | [] =>
          {| fileQueue := [];
             filesProcessed := filesProcessed pool;
             workers := set_worker i Finished (workers pool);
             state := state pool;
             considered := considered pool |}
      end
  | Some (Awaiting p) =>
      let n := S (filesProcessed pool) in
      {| fileQueue := fileQueue pool;
         filesProcessed := n;
         workers := set_worker i (if (lim <=? n)%nat then Finished else AtLoop)
                               (workers pool);
         state := settle p (state pool);
         considered := considered pool |}
  | Some Finished => pool
  | None => pool
  end.

(** The pool after the workers moved in the order [schedule] gives.
    The order in which awaited promises settle is not fixed by the
    code, so every schedule is a possible run. *)
Definition run (directory : string) (lim : nat) (schedule : list nat) (pool : Pool)
  : Pool :=
  fold_left (step directory lim) schedule pool.

Definition is_finished (w : Worker) : bool :=
  match w with
  | Finished => true
  | _ => false
  end.

(** [await Promise.all(workers)] has returned. *)
Definition all_finished (pool : Pool) : bool :=
  forallb is_finished (workers pool).

(** [forEachFileIn(directory, callback, options)] under a schedule: the
    state when every worker has finished, [None] while one has not. *)
Definition forEachFileIn (directory : string) (options : Options)
           (schedule : list nat) (s : State) : option State :=
  let pool := run directory (limit_of directory options) schedule
                  (start directory options s) in
  if all_finished pool then Some (state pool) else None.

(** A schedule that lets worker 0 take every file, then lets the other
    workers see the empty queue. *)
Definition sequential_schedule (files : nat) (workers : nat) : list nat :=
  repeat O (2 * files + 1) ++ seq 1 (workers - 1).

End ForEachFileIn.

Arguments AtLoop {Pending}.
Arguments Finished {Pending}.

End Storage.

(** ** The [FilesystemStructure] type of [src/dreadcabinet.ts] *)

Inductive FilesystemStructure : Type :=
| StructureNone | StructureYear | StructureMonth | StructureDay.

(** The string a [FilesystemStructure] is at run time. *)
Definition structure_name (s : FilesystemStructure) : string :=
  match s with
  | StructureNone => "none"
  | StructureYear => "year"
  | StructureMonth => "month"
  | StructureDay => "day"
  end.

(** ** [src/input/structured.ts] *)

Module Structured.

Import JS.

Definition quote : string := String (ascii_of_nat 34) EmptyString.

Record DateRange : Type := mkDateRange {
  range_start : option JSDate.Date;   (* [None]: the field is not set *)
  range_end : option JSDate.Date
}.

(** [getFilePattern(features, extensions, logger)] *)
Definition getFilePattern (features : list string) (extensions : list string)
  : Result string :=
  match find (fun ext => startsWith ext ".") extensions with
  | Some ext =>
      Throw (GenericError
               ("Invalid extension format: " ++ quote ++ ext ++ quote
                ++ ". Extensions should not start with a dot ('.')."))
  | None =>
      if includes features "extensions" && (0 <? List.length extensions)%nat
      then
        match extensions with
        | [only] => Return ("**/*." ++ only)
        | _ => Return ("**/*.{" ++ join "," extensions ++ "}")
        end
      else Return "**/*.*"
  end.

(** The [format] argument of [parseDateFromString]. *)
Inductive DateFormat : Type :=
| YYYY_M_D_HHmm | M_D_HHmm | D_HHmm | HHmm.

(** [/[^\p{L}\p{N}]/u] *)
Definition not_letter_or_number (c : ascii) : bool :=
  negb (is_unicode_letter c || is_unicode_number c).

(** [/[-_]/] *)
Definition dash_or_underscore (c : ascii) : bool :=
  Ascii.eqb c "-"%char || Ascii.eqb c "_"%char.

(** [parts[i]] *)
Definition part (parts : list string) (i : nat) : option string :=
  nth_error parts i.

(** The numbers a [case] of the [switch] leaves in [y], [mo], [d], [h]
    and [mi]. *)
Record Numbers : Type := mkNumbers {
  n_y : option Z;
  n_mo : option Z;
  n_d : option Z;
  n_h : option Z;
  n_mi : option Z
}.

Definition minus_one (x : option Z) : option Z := option_map (fun v => v - 1) x.

(** The three statements that read [h] and [mi] from a time token;
    [Return None] is the [return null] of a wrong length.  [exactly] is
    true in the ['HHmm'] case, which tests [length !== 4] where the others
    test [length < 4]. *)
Definition read_time (exactly : bool) (token : option string)
  : Result (option (option Z * option Z)) :=
  match token with
  | None => bind (length_opt token) (fun _ => Return None)
  | Some t =>
      if (if exactly then negb (String.length t =? 4)%nat
          else (String.length t <? 4)%nat)
      then Return None
      else Return (Some (parseInt (substring 0 2 t), parseInt (substring 2 4 t)))
  end.

(** The [switch (format)]: [Return None] is a [return null] inside it. *)
Definition read_numbers (format : DateFormat) (shouldParseTime : bool)
           (year month day : option Z) (parts : list string)
  : Result (option Numbers) :=
  let y := Some (match year with Some v => v | None => 0 end) in
  let mo := Some (match month with Some v => v | None => 0 end) in
  let d := Some (match day with Some v => v | None => 1 end) in
  let h := Some 0 in
  let mi := Some 0 in
  let len := List.length parts in
  let with_time (exactly : bool) (y mo d : option Z) (token : option string) :=
    if shouldParseTime then
      bind (read_time exactly token) (fun hm =>
        match hm with
        | None => Return None
        | Some (h', mi') => Return (Some (mkNumbers y mo d h' mi'))
        end)
    else Return (Some (mkNumbers y mo d h mi)) in
  match format with
  | YYYY_M_D_HHmm =>
      if (len <? 4)%nat && shouldParseTime then Return None
      else if (len <? 3)%nat && negb shouldParseTime then Return None
      else with_time false
             (parseInt_opt (part parts 0))
             (minus_one (parseInt_opt (part parts 1)))
             (parseInt_opt (part parts 2))
             (part parts 3)
  | M_D_HHmm =>
      match year with
      | None => Return None
      | Some _ =>
          if (len <? 3)%nat && shouldParseTime then Return None
          else if (len <? 2)%nat && negb shouldParseTime then Return None
          else with_time false y
                 (minus_one (parseInt_opt (part parts 0)))
                 (parseInt_opt (part parts 1))
                 (part parts 2)
      end
  | D_HHmm =>
      match year, month with
      | Some _, Some _ =>
          if (len <? 2)%nat && shouldParseTime then Return None
          else if (len <? 1)%nat && negb shouldParseTime then Return None
          else with_time false y mo (parseInt_opt (part parts 0)) (part parts 1)
      | _, _ => Return None
      end
  | HHmm =>
      match year, month, day with
      | Some _, Some _, Some _ => with_time true y mo d (part parts 0)
      | _, _, _ => Return None
      end
  end.

(** What follows the [switch]: the NaN and range tests, which throw, and
    the construction of the date with its second look at the
    components. *)
Definition build_date (numbers : Numbers) : Result (option JSDate.Date) :=
  match n_y numbers, n_mo numbers, n_d numbers with
  | Some y, Some mo, Some d =>
      let h := match n_h numbers with Some v => v | None => 0 end in
      let mi := match n_mi numbers with Some v => v | None => 0 end in
      if (mo <? 0) || (mo >? 11) || (d <? 1) || (d >? 31)
         || (h <? 0) || (h >? 23) || (mi <? 0) || (mi >? 59)
      then Throw (GenericError "Invalid date components in date string")
      else
        let date := JSDate.UTC y mo d h mi in
        if JSDate.strict_neq (JSDate.getUTCFullYear date) y
           || JSDate.strict_neq (JSDate.getUTCMonth date) mo
           || JSDate.strict_neq (JSDate.getUTCDate date) d
           || JSDate.strict_neq (JSDate.getUTCHours date) h
           || JSDate.strict_neq (JSDate.getUTCMinutes date) mi
        then Return None
        else Return (Some date)
  | _, _, _ => Throw (GenericError "Invalid date components in date string")
  end.

(** [parseDateFromString(dateStr, format, shouldParseTime, year, month,
    day)].  The optional arguments are [None] when [undefined]; the
    callers pass no NaN. *)
Definition parseDateFromString (dateStr : string) (format : DateFormat)
           (shouldParseTime : bool) (year month day : option Z)
  : option JSDate.Date :=
  if negb (truthy dateStr) then None
  else
    try_catch
      (let cleanedDateStr :=
         RegExp.replace (RegExp.edge_run_of not_letter_or_number) true
                        EmptyString dateStr in
       let parts := split dash_or_underscore cleanedDateStr in
       bind (read_numbers format shouldParseTime year month day parts) (fun r =>
         match r with
         | None => Return None
         | Some numbers => build_date numbers
         end))
      None.

(** [isDateInRange(date, range)] *)
Definition isDateInRange (date : JSDate.Date) (range : option DateRange) : bool :=
  match range with
  | None => true
  | Some r =>
      match range_start r, range_end r with
      | None, None => true
      | startDate, endDate =>
          let isStartDateValid :=
            match startDate with
            | Some s => negb (JSDate.isInvalid s)
            | None => false
            end in
          let isEndDateValid :=
            match endDate with
            | Some e => negb (JSDate.isInvalid e)
            | None => false
            end in
          if isStartDateValid
             && match startDate with Some s => JSDate.lt date s | None => false end
          then false
          else if isEndDateValid
                  && match endDate with Some e => JSDate.ge date e | None => false end
          then false
          else true
      end
  end.

(** [calculateDateRange(timezone, startDate, endDate)]; [clock] is what
    the system clock shows when [dateUtil.now()] reads it.  A [Date]
    argument is truthy, an absent one is not. *)
Definition calculateDateRange (timezone : Dayjs.Timezone) (clock : Z)
           (startDate endDate : option JSDate.Date) : Result DateRange :=
  let dateUtil := Dates.create timezone clock in
  let now := Dates.now dateUtil in
  let start := Dates.subDays dateUtil now 31 in
  let end_ := now in
  match startDate, endDate with
  | None, None =>
      Return {| range_start := Some start; range_end := Some end_ |}
  | _, _ =>
      bind (match endDate with
            | Some e => Dates.parse dateUtil e Constants.DATE_FORMAT_YEAR_MONTH_DAY
            | None => Return end_
            end) (fun end_ =>
      bind (match startDate with
            | Some s => Dates.parse dateUtil s Constants.DATE_FORMAT_YEAR_MONTH_DAY
            | None => Return start
            end) (fun start =>
      if Dates.isBefore dateUtil end_ start
      then Throw (ArgumentError "--start"
             ("Start date ("
              ++ Dates.format dateUtil start Constants.DATE_FORMAT_YEAR_MONTH_DAY
              ++ ") cannot be after end date ("
              ++ Dates.format dateUtil end_ Constants.DATE_FORMAT_YEAR_MONTH_DAY
              ++ ")."))
      else Return {| range_start := Some start; range_end := Some end_ |}))
  end.

(** [parseDateFromFilePath(relativePath, filename, structure,
    shouldParseTime, logger)].  Every branch that returns without a date
    logs a warning first; the [default] branch logs an error and
    throws. *)
Definition parseDateFromFilePath (relativePath filename structure : string)
           (shouldParseTime : bool) : Result (option JSDate.Date) :=
  let pathParts := split Path.is_sep relativePath in
  let filenameWithoutExt := Path.basename filename (Path.extname filename) in
  if String.eqb structure "none" then
    Return (parseDateFromString filenameWithoutExt YYYY_M_D_HHmm shouldParseTime
                                None None None)
  else if String.eqb structure "year" then
    if (1 <=? List.length pathParts)%nat then
      match parseInt_opt (part pathParts 0) with
      | Some year =>
          Return (parseDateFromString filenameWithoutExt M_D_HHmm shouldParseTime
                                      (Some year) None None)
      | None => Return None
      end
    else Return None
  else if String.eqb structure "month" then
    if (2 <=? List.length pathParts)%nat then
      match parseInt_opt (part pathParts 0), parseInt_opt (part pathParts 1) with
      | Some year, Some monthDir =>
          if (1 <=? monthDir) && (monthDir <=? 12) then
            Return (parseDateFromString filenameWithoutExt D_HHmm shouldParseTime
                                        (Some year) (Some (monthDir - 1)) None)
          else Return None
      | _, _ => Return None
      end
    else Return None
  else if String.eqb structure "day" then
    if (3 <=? List.length pathParts)%nat then
      match parseInt_opt (part pathParts 0), parseInt_opt (part pathParts 1),
            parseInt_opt (part pathParts 2) with
      | Some year, Some monthDir, Some day =>
          if (1 <=? monthDir) && (monthDir <=? 12) && (1 <=? day) && (day <=? 31) then
            Return (parseDateFromString filenameWithoutExt HHmm shouldParseTime
                                        (Some year) (Some (monthDir - 1)) (Some day))
          else Return None
      | _, _, _ => Return None
      end
    else Return None
  else
    Throw (GenericError
             ("Unknown input structure " ++ quote ++ structure ++ quote
              ++ " specified.")).

Section Process.

(** [glob], [path.join] and [path.relative] are the platform's. *)
Variable glob : string -> string -> list string.
Variable path_join : string -> string -> string.
Variable path_relative : string -> string -> string.

(** The caller's [callback(file, date)]: it returns, or it throws (its
    promise is rejected). *)
Definition Callback : Type := string -> JSDate.Date -> Result unit.

(** How far [processStructuredFile] got when it first waits or
    returns: it returned [false] without calling the callback, or it
    called the callback and waits for its outcome. *)
Inductive Started : Type :=
| Skipped
| Called (date : JSDate.Date) (outcome : Result unit).

(** [processStructuredFile(...)] up to [await callback(filePath,
    parsedDate)].  The [try] block turns whatever
    [parseDateFromFilePath] throws into a logged error and [false]. *)
Definition processStructuredFile_call (filePath inputDirectory structure : string)
           (shouldParseTime : bool) (callback : Callback) (pattern : string)
           (dateRange : DateRange) : Started :=
  if String.eqb filePath inputDirectory
     || (negb (truthy (Path.extname filePath)) && endsWith pattern "*.*")
  then Skipped
  else
    let relativePath := path_relative inputDirectory filePath in
    let pathParts := split Path.is_sep relativePath in
    let filename := List.last pathParts EmptyString in
    if negb (truthy filename) then Skipped
    else
      match parseDateFromFilePath relativePath filename structure shouldParseTime with
      | Return (Some parsedDate) =>
          if isDateInRange parsedDate (Some dateRange)
          then Called parsedDate (callback filePath parsedDate)
          else Skipped
      | Return None => Skipped
      | Throw _ => Skipped
      end.

(** The boolean [processStructuredFile] resolves to: [true] after the
    callback returned, [false] from the [catch] block when it threw. *)
Definition processStructuredFile_result (s : Started) : bool :=
  match s with
  | Called _ (Return _) => true
  | Called _ (Throw _) => false
  | Skipped => false
  end.

(** What a walk changes: the counter of [process], and (kept for the
    proofs) the calls of the callback in the order they were made. *)
Record Walk : Type := mkWalk {
  fileCount : nat;
  callbackCalls : list (string * JSDate.Date)
}.

(** The function [process] hands to [forEachFileIn], in its two
    halves. *)
Definition per_file_call (inputDirectory structure : string)
           (shouldParseTime : bool) (callback : Callback) (pattern : string)
           (dateRange : DateRange) (filePath : string) (w : Walk)
  : Walk * Started :=
  let started := processStructuredFile_call filePath inputDirectory structure
                   shouldParseTime callback pattern dateRange in
  match started with
  | Called date _ =>
      ({| fileCount := fileCount w;
          callbackCalls := callbackCalls w ++ [(filePath, date)] |}, started)
  | Skipped => (w, started)
  end.

Definition per_file_settle (started : Started) (w : Walk) : Walk :=
  if processStructuredFile_result started
  then {| fileCount := S (fileCount w); callbackCalls := callbackCalls w |}
  else w.

(** [process(...)] under a schedule of the workers: the walk when
    [forEachFileIn] has returned, [None] while a worker is still
    running. *)
Definition process_walk (inputStructure : option FilesystemStructure)
           (inputFilenameOptions : option (list string))
           (extensions : option (list string))
           (timezone : Dayjs.Timezone) (clock : Z)
           (start end_ : option JSDate.Date) (limit : option nat)
           (features : list string) (inputDirectory : string)
           (callback : Callback) (concurrency : option nat)
           (schedule : list nat) : Result (option Walk) :=
  bind (calculateDateRange timezone clock start end_) (fun dateRange =>
    let structure :=
      match inputStructure with
      | Some s => structure_name s
      | None => "none"
      end in
    let shouldParseTime :=
      match inputFilenameOptions with
      | Some options => includes options "time"
      | None => false
      end in
    bind (getFilePattern features
            (match extensions with Some e => e | None => [] end))
         (fun filePattern =>
      Return
        (Storage.forEachFileIn glob path_join
           (per_file_call inputDirectory structure shouldParseTime callback
                          filePattern dateRange)
           per_file_settle
           inputDirectory
           (Storage.mkOptions filePattern limit concurrency)
           schedule
           {| fileCount := O; callbackCalls := [] |}))).

(** The number [process] returns. *)
Definition process (inputStructure : option FilesystemStructure)
           (inputFilenameOptions : option (list string))
           (extensions : option (list string))
           (timezone : Dayjs.Timezone) (clock : Z)
           (start end_ : option JSDate.Date) (limit : option nat)
           (features : list string) (inputDirectory : string)
           (callback : Callback) (concurrency : option nat)
           (schedule : list nat) : Result (option nat) :=
  bind (process_walk inputStructure inputFilenameOptions extensions timezone
          clock start end_ limit features inputDirectory callback concurrency
          schedule)
       (fun w => Return (option_map fileCount w)).

End Process.

End Structured.

(** ** [src/output.ts] *)

Module Output.

Import JS.

(** The fields of [Config] that [create] reads.  [timezone] is the zone
    [config.timezone || 'UTC'] names. *)
Record Config : Type := mkConfig {
  timezone : Dayjs.Timezone;
  outputDirectory : option string;
  outputStructure : option FilesystemStructure;
  outputFilenameOptions : option (list string)
}.

Section Create.

Variable config : Config.
(** What the system clock shows; only a [dates.date] without argument
    would read it. *)
Variable clock : Z.
Variable path_join : list string -> string.

Definition dates : Dates.Utility := Dates.create (timezone config) clock.

(** [formatDate(date, outputStructure)] *)
Definition formatDate (date : JSDate.Date) (outputStructure : option FilesystemStructure)
  : Result string :=
  match outputStructure with
  | None => Throw (GenericError "Unable to Create Output: Output structure is not set")
  | Some StructureNone =>
      Return (Dates.format dates date Constants.DATE_FORMAT_YEAR_MONTH_DAY)
  | Some StructureYear =>
      Return (Dates.format dates date Constants.DATE_FORMAT_MONTH_DAY)
  | Some StructureMonth =>
      Return (Dates.format dates date Constants.DATE_FORMAT_DAY)
  | Some StructureDay =>
      Throw (GenericError
               ("Cannot use date in filename when output structure is "
                ++ Structured.quote ++ "day" ++ Structured.quote))
  end.

(** [/[^a-zA-Z0-9\-_.]/] *)
Definition not_filename_char (c : ascii) : bool :=
  negb (is_lower c || is_upper c || is_digit c
        || Ascii.eqb c "-"%char || Ascii.eqb c "_"%char || Ascii.eqb c "."%char).

Definition is_underscore (c : ascii) : bool := Ascii.eqb c "_"%char.

(** [sanitizeFilenameString(str)]: the four [replace] calls. *)
Definition sanitizeFilenameString (str : string) : string :=
  RegExp.replace RegExp.empty_input false "untitled"
    (RegExp.replace (RegExp.edge_run_of is_underscore) true EmptyString
       (RegExp.replace (RegExp.run_of is_underscore) true "_"
          (RegExp.replace (RegExp.one_of not_filename_char) true "_" str))).

(** [outputFilenameOptions?.includes(option)] *)
Definition requested (option : string) : bool :=
  match outputFilenameOptions config with
  | Some options => includes options option
  | None => false
  end.

(** [constructFilename(date, type, hash, options)]; [subject] is
    [options.subject]. *)
Definition constructFilename (date : JSDate.Date) (type hash : string)
           (subject : option string) : Result string :=
  bind (if requested "date"
        then bind (formatDate date (outputStructure config))
                  (fun dateStr => Return [dateStr])
        else Return []) (fun parts_date =>
    let parts_time :=
      if requested "time"
      then [Dates.format (Dates.create (timezone config) clock) date
                         Constants.FORMAT_HHmm]
      else [] in
    let parts_subject :=
      if requested "subject"
      then [sanitizeFilenameString
              (match subject with
               | Some s => if truthy s then s else EmptyString
               | None => EmptyString
               end)]
      else [] in
    Return (join "-" (parts_date ++ parts_time ++ [hash; type] ++ parts_subject))).

(** The directories under the output directory that the [switch] of
    [constructOutputDirectory] passes to [path.join]. *)
Definition nested_directories (date : JSDate.Date) (s : FilesystemStructure)
  : list string :=
  let year_ := Dates.format dates date Constants.DATE_FORMAT_YEAR in
  let month_ := Dates.format dates date Constants.DATE_FORMAT_MONTH in
  let day_ := Dates.format dates date Constants.DATE_FORMAT_DAY in
  match s with
  | StructureYear => [year_]
  | StructureMonth => [year_; month_]
  | StructureDay => [year_; month_; day_]
  | StructureNone => []
  end.

(** [constructOutputDirectory(creationTime)]; the directory is created
    as a side effect ([storage.createDirectory(outputPath)], which is not
    awaited).  Without nesting the output directory is returned as it
    is, without [path.join]. *)
Definition constructOutputDirectory (creationTime : JSDate.Date) : Result string :=
  match outputDirectory config with
  | None => Throw (GenericError "Unable to Create Output: Output directory is not set")
  | Some dir =>
      if negb (truthy dir)
      then Throw (GenericError "Unable to Create Output: Output directory is not set")
      else
        match outputStructure config with
        | None => Throw (GenericError "Unable to Create Output: Output structure is not set")
        | Some s =>
            bind (Dates.date dates creationTime) (fun date =>
              Return (match s with
                      | StructureYear | StructureMonth | StructureDay =>
                          path_join (dir :: nested_directories date s)
                      | StructureNone => dir
                      end))
        end
  end.

End Create.

End Output.

(** ** [src/validate.ts] *)

Module Validate.

Import JS.

(** Modelled from the spec: [ALLOWED_OUTPUT_FILENAME_OPTIONS] of
    [src/constants.ts], which is not among the source files; §3 gives the
    filename options as date, time and subject. *)
Definition ALLOWED_OUTPUT_FILENAME_OPTIONS : list string :=
  ["date"; "time"; "subject"].

Definition is_space (c : ascii) : bool := Ascii.eqb c " "%char.

(** [validateOutputFilenameOptions(outputFilenameOptions,
    outputStructure)]; [allowed] is [options.allowed?.outputFilenameOptions]. *)
Definition validateOutputFilenameOptions (allowed : option (list string))
           (outputFilenameOptions : option (list string))
           (outputStructure : option FilesystemStructure) : Result unit :=
  match outputFilenameOptions with
  | Some (first :: rest) =>
      if includes_char first ","%char then
        Throw (ArgumentError "--output-filename-options"
                 "Filename options should be space-separated, not comma-separated. Example: --output-filename-options date time subject")
      else if (List.length (first :: rest) =? 1)%nat
              && (1 <? List.length (split is_space first))%nat then
        Throw (ArgumentError "--output-filename-options"
                 ("Filename options should not be quoted. Use: --output-filename-options date time subject instead of --output-filename-options "
                  ++ Structured.quote ++ "date time subject" ++ Structured.quote))
      else
        let validOptions :=
          match allowed with
          | Some a => a
          | None => ALLOWED_OUTPUT_FILENAME_OPTIONS
          end in
        let invalidOptions :=
          filter (fun opt => negb (includes validOptions opt)) (first :: rest) in
        if (0 <? List.length invalidOptions)%nat then
          Throw (ArgumentError "--output-filename-options"
                   ("Invalid filename options: " ++ join ", " invalidOptions
                    ++ ". Valid options are: " ++ join ", " validOptions))
        else if includes (first :: rest) "date" then
          match outputStructure with
          | Some StructureDay =>
              Throw (ArgumentError "--output-filename-options"
                       ("Cannot use date in filename when output structure is "
                        ++ Structured.quote ++ "day" ++ Structured.quote))
          | _ => Return tt
          end
        else Return tt
  | Some [] => Return tt
  | None => Return tt
  end.

End Validate.

(** ** [src/input/unstructured.ts] *)

Module Unstructured.

Import JS.

(** [/[^a-zA-Z0-9]/] *)
Definition not_alphanumeric (c : ascii) : bool :=
  negb (is_lower c || is_upper c || is_digit c).

(** [sanitizeExtension(ext)] *)
Definition sanitizeExtension (ext : string) : string :=
  RegExp.replace (RegExp.one_of not_alphanumeric) true EmptyString ext.

(** The [filePattern] that [process] computes before the walk;
    [extensions] is [None] when the argument is [undefined]. *)
Definition filePattern (recursive : bool) (extensions : option (list string))
  : Result string :=
  match extensions with
  | Some (first :: rest) =>
      let safeExtensions :=
        filter (fun ext => (0 <? String.length ext)%nat)
               (map sanitizeExtension (first :: rest)) in
      if (List.length safeExtensions =? 0)%nat
      then Throw (GenericError "No valid extensions provided after sanitization.")
      else if recursive
           then Return ("**/*.{" ++ join "," safeExtensions ++ "}")
           else Return ("*.{" ++ join "," safeExtensions ++ "}")
  | _ => if recursive then Return "**/*" else Return "*.*"
  end.

Section Process.

(** [glob] and [path.join] are the platform's. *)
Variable glob : string -> string -> list string.
Variable path_join : string -> string -> string.

(** The caller's [callback(file)]: it returns, or it throws. *)
Definition Callback : Type := string -> Result unit.

(** What a walk changes: the counter of [process], and (kept for the
    proofs) the files the callback was called with, in the order of the
    calls. *)
Record Walk : Type := mkWalk {
  fileCount : nat;
  callbackCalls : list string
}.

(** The function [process] hands to [forEachFileIn], up to
    [await callback(file)] ... *)
Definition per_file_call (callback : Callback) (file : string) (w : Walk)
  : Walk * Result unit :=
  ({| fileCount := fileCount w; callbackCalls := callbackCalls w ++ [file] |},
   callback file).

(** ... and from there on: [fileCount++] after the callback returned,
    the [catch] block, which only logs, when it threw. *)
Definition per_file_settle (outcome : Result unit) (w : Walk) : Walk :=
  match outcome with
  | Return _ => {| fileCount := S (fileCount w); callbackCalls := callbackCalls w |}
  | Throw _ => w
  end.

(** [process(...)] under a schedule of the workers: the walk when
    [forEachFileIn] has returned, [None] while a worker is still
    running. *)
Definition process_walk (inputDirectory : string) (recursive : bool)
           (extensions : option (list string)) (limit : option nat)
           (callback : Callback) (concurrency : option nat)
           (schedule : list nat) : Result (option Walk) :=
  bind (filePattern recursive extensions) (fun pattern =>
    Return
      (Storage.forEachFileIn glob path_join (per_file_call callback) per_file_settle
         inputDirectory (Storage.mkOptions pattern limit concurrency) schedule
         {| fileCount := O; callbackCalls := [] |})).

(** The number [process] returns. *)
Definition process (inputDirectory : string) (recursive : bool)
           (extensions : option (list string)) (limit : option nat)
           (callback : Callback) (concurrency : option nat)
           (schedule : list nat) : Result (option nat) :=
  bind (process_walk inputDirectory recursive extensions limit callback
          concurrency schedule)
       (fun w => Return (option_map fileCount w)).

End Process.

End Unstructured.

(** ** [src/validate.ts]: [validate] and its other checks *)

Module Validation.

Import JS.

(** A promise that the code holds without awaiting it: an object, so a
    truthy value whatever it resolves to. *)
Inductive Promise (A : Type) : Type :=
| resolves_to (a : A).

Arguments resolves_to {A} a.

Definition truthy_promise {A : Type} (p : Promise A) : bool := true.

(** [options.allowed] *)
Record Allowed : Type := mkAllowed {
  allowed_inputStructures : option (list string);
  allowed_outputStructures : option (list string);
  allowed_inputFilenameOptions : option (list string);
  allowed_outputFilenameOptions : option (list string);
  allowed_extensions : option (list string)
}.

(** The fields of [Options] that [validate] reads. *)
Record Options : Type := mkOptions {
  features : list string;
  allowed : option Allowed
}.

(** The fields of [Config] that [validate] reads; [None] is [undefined].
    A limit is an integer. *)
Record Config : Type := mkConfig {
  timezone : string;
  inputDirectory : option string;
  limit : option Z;
  outputDirectory : option string;
  outputStructure : option string;
  outputFilenameOptions : option (list string);
  extensions : option (list string);
  inputStructure : option string;
  inputFilenameOptions : option (list string)
}.

(** [options.allowed?.field || DEFAULT]: an array is truthy, also when it
    is empty. *)
Definition allowed_or (options : Options) (field : Allowed -> option (list string))
           (default : list string) : list string :=
  match allowed options with
  | Some a =>
      match field a with
      | Some l => l
      | None => default
      end
  | None => default
  end.

(** The [FilesystemStructure] a string is, for the cast
    [config.outputStructure as FilesystemStructure]. *)
Definition structure_of_name (name : string) : option FilesystemStructure :=
  if String.eqb name "none" then Some StructureNone
  else if String.eqb name "year" then Some StructureYear
  else if String.eqb name "month" then Some StructureMonth
  else if String.eqb name "day" then Some StructureDay
  else None.

Section Validate.

(** The constants of [src/constants.ts], which is not among the source
    files, and the list [Dates.validTimezones()] returns. *)
Variable ALLOWED_EXTENSIONS : list string.
Variable ALLOWED_INPUT_FILENAME_OPTIONS : list string.
Variable ALLOWED_INPUT_STRUCTURES : list string.
Variable ALLOWED_OUTPUT_STRUCTURES : list string.
Variable validTimezones : list string.

(** The file system: the promise [storage.isDirectoryReadable(path)]
    returns, and what [await storage.isDirectoryWritable(path)] gives. *)
Variable isDirectoryReadable : string -> Promise bool.
Variable isDirectoryWritable : string -> bool.

Variable options : Options.

(** [validateInputDirectory(inputDirectory)]: the promise is tested, not
    what it resolves to. *)
Definition validateInputDirectory (inputDirectory : string) : Result unit :=
  if negb (truthy_promise (isDirectoryReadable inputDirectory))
  then Throw (GenericError ("Input directory does not exist: " ++ inputDirectory))
  else Return tt.

(** [validateOutputDirectory(outputDirectory)] *)
Definition validateOutputDirectory (outputDirectory : string) : Result unit :=
  if negb (isDirectoryWritable outputDirectory)
  then Throw (GenericError ("Output directory does not exist: " ++ outputDirectory))
  else Return tt.

(** The test [structure && !validOptions.includes(structure)] of
    [validateOutputStructure] and [validateInputStructure]. *)
Definition structure_refused (validOptions : list string) (structure : option string)
  : bool :=
  match structure with
  | Some s => truthy s && negb (includes validOptions s)
  | None => false
  end.

(** [validateOutputStructure(outputStructure)] *)
Definition validateOutputStructure (outputStructure : option string) : Result unit :=
  let validOptions := allowed_or options allowed_outputStructures
                                 ALLOWED_OUTPUT_STRUCTURES in
  if structure_refused validOptions outputStructure
  then Throw (ArgumentError "--output-structure"
                ("Invalid output structure: "
                 ++ match outputStructure with Some s => s | None => EmptyString end
                 ++ ". Valid options are: " ++ join ", " validOptions))
  else Return tt.

(** [validateInputStructure(inputStructure)] *)
Definition validateInputStructure (inputStructure : option string) : Result unit :=
  let validOptions := allowed_or options allowed_inputStructures
                                 ALLOWED_INPUT_STRUCTURES in
  if structure_refused validOptions inputStructure
  then Throw (ArgumentError "--input-structure"
                ("Invalid input structure: "
                 ++ match inputStructure with Some s => s | None => EmptyString end
                 ++ ". Valid options are: " ++ join ", " validOptions))
  else Return tt.

(** [validateInputFilenameOptions(inputFilenameOptions, inputStructure)] *)
Definition validateInputFilenameOptions (inputFilenameOptions : option (list string))
           (inputStructure : option FilesystemStructure) : Result unit :=
  match inputFilenameOptions with
  | Some (first :: rest) =>
      if includes_char first ","%char then
        Throw (ArgumentError "--input-filename-options"
                 "Filename options should be space-separated, not comma-separated. Example: --input-filename-options date time subject")
      else if (List.length (first :: rest) =? 1)%nat
              && (1 <? List.length (split Validate.is_space first))%nat then
        Throw (ArgumentError "--input-filename-options"
                 ("Filename options should not be quoted. Use: --input-filename-options date time subject instead of --input-filename-options "
                  ++ Structured.quote ++ "date time subject" ++ Structured.quote))
      else
        let validOptions := allowed_or options allowed_inputFilenameOptions
                                       ALLOWED_INPUT_FILENAME_OPTIONS in
        let invalidOptions :=
          filter (fun opt => negb (includes validOptions opt)) (first :: rest) in
        if (0 <? List.length invalidOptions)%nat then
          Throw (ArgumentError "--input-filename-options"
                   ("Invalid filename options: " ++ join ", " invalidOptions
                    ++ ". Valid options are: " ++ join ", " validOptions))
        else if includes (first :: rest) "date" then
          match inputStructure with
          | Some StructureDay =>
              Throw (ArgumentError "--input-filename-options"
                       ("Cannot use date in filename when input structure is "
                        ++ Structured.quote ++ "day" ++ Structured.quote))
          | _ => Return tt
          end
        else Return tt
  | Some [] => Return tt
  | None => Return tt
  end.

(** [validateTimezone(timezone)] *)
Definition validateTimezone (timezone : string) : Result unit :=
  if includes validTimezones timezone then Return tt
  else Throw (ArgumentError "--timezone"
                ("Invalid timezone: " ++ timezone ++ ". Valid options are: "
                 ++ join ", " validTimezones)).

(** [validateExtensions(extensions)] *)
Definition validateExtensions (extensions : option (list string)) : Result unit :=
  let validOptions := allowed_or options allowed_extensions ALLOWED_EXTENSIONS in
  match extensions with
  | Some exts =>
      let invalidOptions := filter (fun ext => negb (includes validOptions ext)) exts in
      if (0 <? List.length invalidOptions)%nat then
        Throw (ArgumentError "--extensions"
                 ("Invalid extensions: " ++ join ", " invalidOptions
                  ++ ". Valid options are: " ++ join ", " validOptions))
      else Return tt
  | None => Return tt
  end.

(** [if (cond) { check }] *)
Definition when (cond : bool) (check : Result unit) : Result unit :=
  if cond then check else Return tt.

(** A string that is set and not empty. *)
Definition given (x : option string) : bool :=
  match x with
  | Some s => truthy s
  | None => false
  end.

(** [validate(config, options)] *)
Definition validate (config : Config) : Result unit :=
  bind (validateTimezone (timezone config)) (fun _ =>
  bind (when (includes (features options) "input" && given (inputDirectory config))
          (validateInputDirectory
             (match inputDirectory config with Some d => d | None => EmptyString end)))
       (fun _ =>
  bind (when (includes (features options) "input")
          (match limit config with
           | Some l =>
               if negb (l =? 0) && (l <? 1)
               then Throw (ArgumentError "--limit" "Limit must be greater than 0")
               else Return tt
           | None => Return tt
           end))
       (fun _ =>
  bind (when (includes (features options) "output" && given (outputDirectory config))
          (validateOutputDirectory
             (match outputDirectory config with Some d => d | None => EmptyString end)))
       (fun _ =>
  bind (when (includes (features options) "structured-output")
          (bind (validateOutputStructure (outputStructure config)) (fun _ =>
             Validate.validateOutputFilenameOptions
               (match allowed options with
                | Some a => allowed_outputFilenameOptions a
                | None => None
                end)
               (outputFilenameOptions config)
               (match outputStructure config with
                | Some s => structure_of_name s
                | None => None
                end))))
       (fun _ =>
  bind (when (includes (features options) "extensions")
          (validateExtensions (extensions config)))
       (fun _ =>
  when (includes (features options) "structured-input")
    (bind (validateInputStructure (inputStructure config)) (fun _ =>
       validateInputFilenameOptions
         (inputFilenameOptions config)
         (match inputStructure config with
          | Some s => structure_of_name s
          | None => None
          end))))))))).

End Validate.

End Validation.

(** ** [src/util/storage.ts]: the checks on a path *)

Module StorageChecks.

Import JS.

(** What [fs.Stats] tells: [stats.isDirectory()] and [stats.isFile()]. *)
Record Stats : Type := mkStats {
  stats_isDirectory : bool;
  stats_isFile : bool
}.

(** [fs.constants.R_OK] and [fs.constants.W_OK] *)
Inductive Mode : Type := R_OK | W_OK.

(** The file system at one moment: [fs.promises.stat(path)] and
    [fs.promises.access(path, mode)], each resolving or rejecting. *)
Record FileSystem : Type := mkFileSystem {
  stat : string -> Result Stats;
  access : string -> Mode -> Result unit
}.

(** The file system is shared with other processes and can change
    while a check waits: [world n] is the file system that the call of
    [fs.promises] number [n] meets. *)
Definition World : Type := nat -> FileSystem.

(** An async function of the checks: from the number of calls of
    [fs.promises] made before it, what it resolves to or rejects with,
    and the number of calls made when it has settled. *)
Definition Async (A : Type) : Type := nat -> Result A * nat.

Section Checks.

Variable world : World.

(** [exists(path)]; the name [exists] is a keyword here. *)
Definition exists_ (path : string) : Async bool :=
  fun n =>
    match stat (world n) path with
    | Return _ => (Return true, S n)
    | Throw _ => (Return false, S n)
    end.

(** [isDirectory(path)] *)
Definition isDirectory (path : string) : Async bool :=
  fun n =>
    match stat (world n) path with
    | Return stats =>
        (if negb (stats_isDirectory stats) then Return false else Return true, S n)
    | Throw e => (Throw e, S n)
    end.

(** [isFile(path)] *)
Definition isFile (path : string) : Async bool :=
  fun n =>
    match stat (world n) path with
    | Return stats =>
        (if negb (stats_isFile stats) then Return false else Return true, S n)
    | Throw e => (Throw e, S n)
    end.

(** [isReadable(path)] *)
Definition isReadable (path : string) : Async bool :=
  fun n =>
    match access (world n) path R_OK with
    | Return _ => (Return true, S n)
    | Throw _ => (Return false, S n)
    end.

(** [isWritable(path)] *)
Definition isWritable (path : string) : Async bool :=
  fun n =>
    match access (world n) path W_OK with
    | Return _ => (Return true, S n)
    | Throw _ => (Return false, S n)
    end.

(** [await a && await b]: [b] is called, and awaited, only when [a]
    resolved to true. *)
Definition and_await (a b : Async bool) : Async bool :=
  fun n =>
    match a n with
    | (Return true, m) => b m
    | (Return false, m) => (Return false, m)
    | (Throw e, m) => (Throw e, m)
    end.

(** [isFileReadable(path)] *)
Definition isFileReadable (path : string) : Async bool :=
  and_await (and_await (exists_ path) (isFile path)) (isReadable path).

(** [isDirectoryWritable(path)] *)
Definition isDirectoryWritable (path : string) : Async bool :=
  and_await (and_await (exists_ path) (isDirectory path)) (isWritable path).

(** [isDirectoryReadable(path)] *)
Definition isDirectoryReadable (path : string) : Async bool :=
  and_await (and_await (exists_ path) (isDirectory path)) (isReadable path).

End Checks.

End StorageChecks.

(** ** [src/read.ts] and [src/defaults.ts] *)

Module Defaults.

Import JS.

(** A number of a configuration: an integer, a number that is not an
    integer (a fraction, an infinity), or NaN. *)
Inductive Number : Type :=
| Int (z : Z)
| NonInteger
| NaN.

(** [Number.isInteger(n)] *)
Definition Number_isInteger (n : Number) : bool :=
  match n with
  | Int _ => true
  | _ => false
  end.

(** Truthiness of a number: every number but 0 and NaN. *)
Definition number_truthy (n : Number) : bool :=
  match n with
  | Int z => negb (z =? 0)
  | NonInteger => true
  | NaN => false
  end.

(** [n < 1] on an integer; the code asks it of integers only. *)
Definition below_one (n : Number) : bool :=
  match n with
  | Int z => z <? 1
  | _ => false
  end.

(** [Partial<Config>], and [Args]: every field may be [undefined]. *)
Record PartialConfig : Type := mkPartialConfig {
  timezone : option string;
  inputDirectory : option string;
  recursive : option bool;
  limit : option Number;
  concurrency : option Number;
  inputStructure : option string;
  inputFilenameOptions : option (list string);
  outputDirectory : option string;
  outputStructure : option string;
  outputFilenameOptions : option (list string);
  extensions : option (list string)
}.

(** [x || y] where [x] is a string that may be [undefined]. *)
Definition or_string (x : option string) (y : string) : string :=
  match x with
  | Some s => if truthy s then s else y
  | None => y
  end.

(** [x || y] where [x] is an array that may be [undefined]: an array is
    truthy. *)
Definition or_list (x : option (list string)) (y : list string) : list string :=
  match x with
  | Some l => l
  | None => y
  end.

(** [x || y] where [x] is a number that may be [undefined]. *)
Definition or_number (x : option Number) (y : Number) : Number :=
  match x with
  | Some n => if number_truthy n then n else y
  | None => y
  end.

(** [x ?? y] *)
Definition or_else {A : Type} (x : option A) (y : A) : A :=
  match x with
  | Some a => a
  | None => y
  end.

(** [read(args, features)]; [clean] drops the fields that are
    [undefined], which are the [None] fields here. *)
Definition read (args : PartialConfig) (features : list string) : PartialConfig :=
  let input := includes features "input" in
  let structured_input := includes features "structured-input" in
  let output := includes features "output" in
  let structured_output := includes features "structured-output" in
  {| timezone := timezone args;
     inputDirectory := if input then inputDirectory args else None;
     recursive := if input then recursive args else None;
     limit := if input then limit args else None;
     concurrency := if input then concurrency args else None;
     inputStructure := if structured_input then inputStructure args else None;
     inputFilenameOptions :=
       if structured_input then inputFilenameOptions args else None;
     outputDirectory := if output then outputDirectory args else None;
     outputStructure := if structured_output then outputStructure args else None;
     outputFilenameOptions :=
       if structured_output then outputFilenameOptions args else None;
     extensions := if includes features "extensions" then extensions args else None |}.

Section ApplyDefaults.

(** The constants of [src/constants.ts], which is not among the source
    files. *)
Variable DEFAULT_TIMEZONE : string.
Variable DEFAULT_RECURSIVE : bool.
Variable DEFAULT_INPUT_DIRECTORY : string.
Variable DEFAULT_CONCURRENCY : Number.
Variable DEFAULT_OUTPUT_DIRECTORY : string.
Variable DEFAULT_OUTPUT_STRUCTURE : string.
Variable DEFAULT_OUTPUT_FILENAME_OPTIONS : list string.
Variable DEFAULT_EXTENSIONS : list string.
Variable DEFAULT_INPUT_STRUCTURE : string.
Variable DEFAULT_INPUT_FILENAME_OPTIONS : list string.

(** [defaults?.field] *)
Definition default_of {A : Type} (defaults : option PartialConfig)
           (field : PartialConfig -> option A) : option A :=
  match defaults with
  | Some d => field d
  | None => None
  end.

(** [applyDefaults(config, features, defaults)] *)
Definition applyDefaults (config : PartialConfig) (features : list string)
           (defaults : option PartialConfig) : PartialConfig :=
  let input := includes features "input" in
  let structured_input := includes features "structured-input" in
  let output := includes features "output" in
  let structured_output := includes features "structured-output" in
  {| timezone :=
       Some (or_string (timezone config)
                       (or_string (default_of defaults timezone) DEFAULT_TIMEZONE));
     inputDirectory :=
       if input
       then Some (or_string (inputDirectory config)
                            (or_string (default_of defaults inputDirectory)
                                       DEFAULT_INPUT_DIRECTORY))
       else inputDirectory config;
     recursive :=
       if input
       then match recursive config with
            | None => Some (or_else (default_of defaults recursive) DEFAULT_RECURSIVE)
            | Some r => Some r
            end
       else recursive config;
     limit := limit config;
     concurrency :=
       if input
       then match concurrency config with
            | None =>
                Some (or_number (default_of defaults concurrency) DEFAULT_CONCURRENCY)
            | Some c =>
                if negb (Number_isInteger c) || below_one c
                then Some (or_number (default_of defaults concurrency)
                                     DEFAULT_CONCURRENCY)
                else Some c
            end
       else concurrency config;
     inputStructure :=
       if structured_input
       then Some (or_string (inputStructure config)
                            (or_string (default_of defaults inputStructure)
                                       DEFAULT_INPUT_STRUCTURE))
       else inputStructure config;
     inputFilenameOptions :=
       if structured_input
       then Some (or_list (inputFilenameOptions config)
                          (or_list (default_of defaults inputFilenameOptions)
                                   DEFAULT_INPUT_FILENAME_OPTIONS))
       else inputFilenameOptions config;
     outputDirectory :=
       if output
       then Some (or_string (outputDirectory config)
                            (or_string (default_of defaults outputDirectory)
                                       DEFAULT_OUTPUT_DIRECTORY))
       else outputDirectory config;
     outputStructure :=
       if structured_output
       then Some (or_string (outputStructure config)
                            (or_string (default_of defaults outputStructure)
                                       DEFAULT_OUTPUT_STRUCTURE))
       else outputStructure config;
     outputFilenameOptions :=
       if structured_output
       then Some (or_list (outputFilenameOptions config)
                          (or_list (default_of defaults outputFilenameOptions)
                                   DEFAULT_OUTPUT_FILENAME_OPTIONS))
       else outputFilenameOptions config;
     extensions :=
       if includes features "extensions"
       then Some (or_list (extensions config)
                          (or_list (default_of defaults extensions) DEFAULT_EXTENSIONS))
       else extensions config |}.

End ApplyDefaults.

End Defaults.

(* ================================================================== *)
(** * Part II: properties *)
(* ================================================================== *)

Import JS.

(** ** Strings *)

Lemma append_empty_r (s : string) : s ++ EmptyString = s.
Proof. induction s as [|c s IH]; simpl; [reflexivity | now rewrite IH]. Qed.

Lemma append_assoc (a b c : string) : (a ++ b) ++ c = a ++ (b ++ c).
Proof. induction a as [|x a IH]; simpl; [reflexivity | now rewrite IH]. Qed.

Lemma length_append (a b : string) :
  String.length (a ++ b) = (String.length a + String.length b)%nat.
Proof. induction a as [|x a IH]; simpl; [reflexivity | now rewrite IH]. Qed.

Lemma forall_chars_append p (a b : string) :
  forall_chars p (a ++ b) = forall_chars p a && forall_chars p b.
Proof.
  induction a as [|x a IH]; simpl; [reflexivity|].
  now rewrite IH, andb_assoc.
Qed.

Lemma exists_char_append p (a b : string) :
  exists_char p (a ++ b) = exists_char p a || exists_char p b.
Proof.
  induction a as [|x a IH]; simpl; [reflexivity|].
  now rewrite IH, orb_assoc.
Qed.

Lemma exists_char_false_forall p (s : string) :
  exists_char p s = false <-> forall_chars (fun c => negb (p c)) s = true.
Proof.
  induction s as [|c s IH]; simpl; [tauto|].
  rewrite orb_false_iff, andb_true_iff, negb_true_iff. tauto.
Qed.

(** ** The extension filter (C10) *)

(** C10.  If some element of the extensions list begins with a dot,
    [getFilePattern] throws an [Error], whatever the features list holds
    (so also when the 'extensions' feature is off); if no element begins
    with a dot, it returns a pattern and does not throw. *)
Theorem getFilePattern_throws_iff_dot_prefixed :
  forall (features extensions : list string),
    (forall ext, In ext extensions -> startsWith ext "." = true ->
       exists message,
         Structured.getFilePattern features extensions = Throw (GenericError message))
    /\ ((forall ext, In ext extensions -> startsWith ext "." = false) ->
        exists pattern,
          Structured.getFilePattern features extensions = Return pattern).
Proof.
  intros features extensions. unfold Structured.getFilePattern. split.
  - intros ext Hin Hdot.
    destruct (find (fun e => startsWith e ".") extensions) as [e|] eqn:F.
    + eexists. reflexivity.
    + apply find_none with (x := ext) in F; [congruence | assumption].
  - intros Hnone.
    destruct (find (fun e => startsWith e ".") extensions) as [e|] eqn:F.
    + apply find_some in F. destruct F as [Hin Hdot].
      rewrite (Hnone e Hin) in Hdot. discriminate.
    + destruct (includes features "extensions" && (0 <? List.length extensions)%nat).
      * destruct extensions as [|a [|b r]]; eexists; reflexivity.
      * eexists; reflexivity.
Qed.

Lemma getFilePattern_throws_iff_dot_prefixed_witness :
  (exists message,
     Structured.getFilePattern [] ["md"; ".txt"] = Throw (GenericError message))
  /\ (exists pattern,
        Structured.getFilePattern ["extensions"] ["md"; "txt"] = Return pattern).
Proof.
  split.
  - apply (proj1 (getFilePattern_throws_iff_dot_prefixed [] ["md"; ".txt"]) ".txt").
    + simpl. auto.
    + reflexivity.
  - apply (proj2 (getFilePattern_throws_iff_dot_prefixed ["extensions"] ["md"; "txt"])).
    intros ext [<-|[<-|[]]]; reflexivity.
Defined.

(** The patterns of the repository's tests. *)
Example getFilePattern_single :
  Structured.getFilePattern ["extensions"] ["txt"] = Return "**/*.txt".
Proof. reflexivity. Qed.

Example getFilePattern_several :
  Structured.getFilePattern ["extensions"] ["txt"; "md"; "json"]
  = Return "**/*.{txt,md,json}".
Proof. reflexivity. Qed.

Example getFilePattern_no_filter :
  Structured.getFilePattern [] [] = Return "**/*.*".
Proof. reflexivity. Qed.

(** ** The calendar of [Date] *)

Section Calendar.

Import JSDate.

(** A 0-based month and a day of that month. *)
Definition valid_day (y m d : Z) : Prop :=
  0 <= m <= 11 /\ 1 <= d <= daysInMonth y m.

Lemma yoe_recover yoe doy :
  0 <= yoe < 400 -> 0 <= doy ->
  (doy <= 364 \/ (doy = 365 /\ (yoe + 1) mod 4 = 0 /\ ((yoe + 1) mod 100 <> 0 \/ (yoe + 1) mod 400 = 0))) ->
  let doe := yoe * 365 + yoe / 4 - yoe / 100 + doy in
  (doe - doe / 1460 + doe / 36524 - doe / 146096) / 365 = yoe /\ 0 <= doe < 146097.
Proof. intros H1 H2 H3 doe. subst doe. Z.div_mod_to_equations; lia. Qed.

Lemma mp_recover mp d :
  0 <= mp < 12 -> 1 <= d <= 31 ->
  (mp = 1 \/ mp = 3 \/ mp = 6 \/ mp = 8 -> d <= 30) ->
  (mp = 11 -> d <= 29) ->
  let doy := (153 * mp + 2) / 5 + d - 1 in
  (5 * doy + 2) / 153 = mp /\ doy - (153 * mp + 2) / 5 + 1 = d /\ 0 <= doy <= 365
  /\ (d <= 28 \/ mp <> 11 -> doy <= 364).
Proof. intros H1 H2 H3 H4 doy. subst doy. Z.div_mod_to_equations; lia. Qed.

Lemma civil_MakeDay y m d : valid_day y m d -> civil (MakeDay y m d) = (y, m, d).
Proof.
  intros [Hm Hd].
  unfold MakeDay.
  assert (M: m / 12 = 0) by (Z.div_mod_to_equations; lia).
  assert (M2: m mod 12 = m) by (Z.div_mod_to_equations; lia).
  rewrite M, M2, Z.add_0_r.
  set (y' := if m <? 2 then y - 1 else y).
  set (mp := if m <? 2 then m + 10 else m - 2).
  set (era := y' / 400).
  set (yoe := y' - era * 400).
  assert (Hyoe : 0 <= yoe < 400) by (subst yoe era; Z.div_mod_to_equations; lia).
  assert (Hmp : 0 <= mp < 12) by (subst mp; destruct (m <? 2) eqn:E; [apply Z.ltb_lt in E|apply Z.ltb_ge in E]; lia).
  assert (Hd31 : 1 <= d <= 31).
  { unfold daysInMonth in Hd. destruct (m =? 1); [destruct (isLeapYear y)|destruct (_ || _)]; lia. }
  assert (H30 : mp = 1 \/ mp = 3 \/ mp = 6 \/ mp = 8 -> d <= 30).
  { intros H. unfold daysInMonth in Hd. subst mp.
    destruct (m <? 2) eqn:E; [apply Z.ltb_lt in E|apply Z.ltb_ge in E]; [lia|].
    assert (m = 3 \/ m = 5 \/ m = 8 \/ m = 10) as [-> | [-> | [-> | ->]]] by lia; simpl in Hd; lia. }
  assert (H29 : mp = 11 -> d <= 29).
  { intros H. unfold daysInMonth in Hd. subst mp.
    destruct (m <? 2) eqn:E; [apply Z.ltb_lt in E|apply Z.ltb_ge in E]; [|lia].
    assert (m = 1) as -> by lia. simpl in Hd. destruct (isLeapYear y); lia. }
  destruct (mp_recover mp d Hmp Hd31 H30 H29) as (R1 & R2 & R3 & R4).
  set (doy := (153 * mp + 2) / 5 + d - 1) in *.
  assert (Hleap : doy <= 364 \/ (doy = 365 /\ (yoe + 1) mod 4 = 0 /\ ((yoe + 1) mod 100 <> 0 \/ (yoe + 1) mod 400 = 0))).
  { destruct (Z.eq_dec mp 11) as [E11|N11]; [|left; apply R4; lia].
    destruct (Z_le_gt_dec d 28) as [L|G]; [left; apply R4; lia|].
    right. assert (D29 : d = 29) by (specialize (H29 E11); lia).
    assert (Hm1 : m = 1).
    { unfold mp in E11. destruct (m <? 2) eqn:E; [apply Z.ltb_lt in E|apply Z.ltb_ge in E]; lia. }
    unfold daysInMonth in Hd. rewrite Hm1 in Hd. simpl in Hd.
    destruct (isLeapYear y) eqn:L; [|lia].
    unfold isLeapYear in L.
    split; [unfold doy; rewrite E11, D29; reflexivity|].
    unfold yoe, era, y'. rewrite Hm1. simpl.
    apply orb_true_iff in L. rewrite andb_true_iff, negb_true_iff in L.
    rewrite !Z.eqb_eq, Z.eqb_neq in L.
    Z.div_mod_to_equations; lia. }
  destruct (yoe_recover yoe doy Hyoe (proj1 R3) Hleap) as [Y1 Y2].
  unfold civil.
  replace (era * 146097 + (yoe * 365 + yoe / 4 - yoe / 100 + (153 * mp + 2) / 5) - 719468 + (d - 1) + 719468)
    with (era * 146097 + (yoe * 365 + yoe / 4 - yoe / 100 + doy)) by (unfold doy; lia).
  set (doe := yoe * 365 + yoe / 4 - yoe / 100 + doy) in *.
  replace ((era * 146097 + doe) / 146097) with era by (Z.div_mod_to_equations; lia).
  replace (era * 146097 + doe - era * 146097) with doe by lia.
  rewrite Y1.
  replace (doe - (365 * yoe + yoe / 4 - yoe / 100)) with doy by (unfold doe; lia).
  rewrite R1, R2.
  unfold mp, yoe, era, y'.
  destruct (m <? 2) eqn:E; [apply Z.ltb_lt in E|apply Z.ltb_ge in E].
  - destruct (m + 10 <? 10) eqn:E2; [apply Z.ltb_lt in E2; lia|].
    replace (m + 10 - 10) with m by lia. rewrite (proj2 (Z.ltb_lt _ _) E).
    f_equal. f_equal. set (q := (y - 1) / 400). lia.
  - destruct (m - 2 <? 10) eqn:E2; [|apply Z.ltb_ge in E2; lia].
    replace (m - 2 + 2) with m by lia. rewrite (proj2 (Z.ltb_ge _ _) E).
    f_equal. f_equal. set (q := y / 400). lia.
Qed.

Lemma MakeDay_civil z : MakeDay (fst (fst (civil z))) (snd (fst (civil z))) (snd (civil z)) = z.
Proof.
  unfold civil, MakeDay.
  set (z1 := z + 719468).
  set (era := z1 / 146097).
  set (doe := z1 - era * 146097).
  set (yoe := (doe - doe / 1460 + doe / 36524 - doe / 146096) / 365).
  set (doy := doe - (365 * yoe + yoe / 4 - yoe / 100)).
  set (mp := (5 * doy + 2) / 153).
  cbn [fst snd].
  assert (Hdoe : 0 <= doe < 146097) by (subst doe era; Z.div_mod_to_equations; lia).
  assert (Hyoe : 0 <= yoe < 400) by (subst yoe; Z.div_mod_to_equations; lia).
  assert (Hdoy : 0 <= doy < 366).
  { subst doy yoe. Z.div_mod_to_equations; lia. }
  assert (Hmp : 0 <= mp < 12) by (subst mp; Z.div_mod_to_equations; lia).
  destruct (mp <? 10) eqn:E.
  - apply Z.ltb_lt in E.
    assert (M: (mp + 2) / 12 = 0) by (Z.div_mod_to_equations; lia).
    assert (M2: (mp + 2) mod 12 = mp + 2) by (Z.div_mod_to_equations; lia).
    destruct (mp + 2 <? 2) eqn:E2; [apply Z.ltb_lt in E2; lia|].
    rewrite M, M2, E2.
    replace ((yoe + era * 400 + 0) / 400) with era by (Z.div_mod_to_equations; lia).
    replace (yoe + era * 400 + 0 - era * 400) with yoe by lia.
    replace (mp + 2 - 2) with mp by lia.
    subst doy z1. fold mp. lia.
  - apply Z.ltb_ge in E.
    assert (M: (mp - 10) / 12 = 0) by (Z.div_mod_to_equations; lia).
    assert (M2: (mp - 10) mod 12 = mp - 10) by (Z.div_mod_to_equations; lia).
    destruct (mp - 10 <? 2) eqn:E2; [|apply Z.ltb_ge in E2; lia].
    rewrite M, M2, E2.
    replace ((yoe + era * 400 + 1 + 0 - 1) / 400) with era by (Z.div_mod_to_equations; lia).
    replace (yoe + era * 400 + 1 + 0 - 1 - era * 400) with yoe by lia.
    replace (mp - 10 + 10) with mp by lia.
    subst doy z1. fold mp. lia.
Qed.

(** [MakeDay] agrees with the [DayFromYear] of ECMA-262 on 1 January. *)
Lemma MakeDay_first_of_january y : MakeDay y 0 1 = DayFromYear y.
Proof.
  unfold MakeDay, DayFromYear.
  change (0 / 12) with 0. change (0 mod 12) with 0.
  change (0 <? 2) with true. cbv iota.
  replace (y + 0 - 1) with (y - 1) by lia.
  change ((153 * (0 + 10) + 2) / 5) with 306.
  Z.div_mod_to_equations; lia.
Qed.

Lemma MakeDay_shift y m d n : MakeDay y m (d - n) = MakeDay y m d - n.
Proof. unfold MakeDay. lia. Qed.

Lemma time_of_day day h mi :
  0 <= h <= 23 -> 0 <= mi <= 59 ->
  let t := MakeDate day (MakeTime h mi 0 0) in
  Day t = day /\ HourFromTime t = h /\ MinFromTime t = mi.
Proof.
  intros Hh Hmi t. subst t.
  unfold Day, HourFromTime, MinFromTime, MakeDate, MakeTime,
    msPerDay, msPerHour, msPerMinute.
  repeat split; Z.div_mod_to_equations; lia.
Qed.

End Calendar.

(** ** The date-range filter (C7, C8) *)

Section DateRangeFilter.

Import Structured.

Definition range_of (start end_ : Z) : option DateRange :=
  Some {| range_start := Some (Some start); range_end := Some (Some end_) |}.

(** The boundary claim as the specification words it: whatever the valid
    bounds, a date equal to [start] is in the range and a date equal to
    [end] is not. *)
Definition boundaries_as_specified : Prop :=
  forall start end_ : Z,
    isDateInRange (Some start) (range_of start end_) = true
    /\ isDateInRange (Some end_) (range_of start end_) = false.

(** C7, counterexample.  In the empty range whose start and end are the
    same instant, the date equal to [start] is also equal to [end], and
    [isDateInRange] rejects it. *)
Lemma isDateInRange_empty_range_rejects_start :
  isDateInRange (Some 1640995200000) (range_of 1640995200000 1640995200000) = false
  /\ ~ boundaries_as_specified.
Proof.
  split; [reflexivity|].
  intros H. destruct (H 1640995200000 1640995200000) as [H1 _].
  discriminate H1.
Qed.

(** C7, amended.  For a range with valid start and end bounds,
    [isDateInRange] returns true for the date equal to [start] when
    [start] is strictly before [end], and returns false for the date equal
    to [end]. *)
Theorem isDateInRange_boundaries :
  forall start end_ : Z,
    (start < end_ -> isDateInRange (Some start) (range_of start end_) = true)
    /\ isDateInRange (Some end_) (range_of start end_) = false.
Proof.
  intros start end_. unfold isDateInRange, range_of. cbn.
  split.
  - intros H. rewrite Z.ltb_irrefl.
    destruct (end_ <=? start) eqn:E; [apply Z.leb_le in E; lia | reflexivity].
  - destruct (end_ <? start); [reflexivity|].
    now rewrite Z.leb_refl.
Qed.

Lemma isDateInRange_boundaries_witness :
  isDateInRange (Some 1640995200000) (range_of 1640995200000 1646092800000) = true
  /\ isDateInRange (Some 1646092800000) (range_of 1640995200000 1646092800000) = false.
Proof.
  split.
  - apply (proj1 (isDateInRange_boundaries 1640995200000 1646092800000)). lia.
  - apply (proj2 (isDateInRange_boundaries 1640995200000 1646092800000)).
Defined.

(** Membership is [start <= date < end] for valid bounds. *)
Lemma isDateInRange_half_open (date start end_ : Z) :
  isDateInRange (Some date) (range_of start end_) = (start <=? date) && (date <? end_).
Proof.
  unfold isDateInRange, range_of. cbn.
  destruct (date <? start) eqn:A, (end_ <=? date) eqn:B,
           (start <=? date) eqn:C, (date <? end_) eqn:D; try reflexivity; lia.
Qed.

(** An absent range, and a range with neither bound set, accept every
    date. *)
Lemma isDateInRange_no_range (date : JSDate.Date) :
  isDateInRange date None = true
  /\ isDateInRange date (Some {| range_start := None; range_end := None |}) = true.
Proof. split; reflexivity. Qed.

(** Subtracting days moves the instant dayjs holds for the date by days
    of 24 hours. *)
Lemma subtract_days_exact (tz : Dayjs.Timezone) (t v n : Z) :
  Dayjs.to_date tz t = Some v ->
  Z.abs (v - n * JSDate.msPerDay) <= JSDate.maxTime ->
  Dayjs.subtract_days tz t n = Some (v - n * JSDate.msPerDay).
Proof.
  intros Hv H. unfold Dayjs.subtract_days. rewrite Hv.
  unfold JSDate.setUTCDate.
  unfold JSDate.YearFromTime, JSDate.MonthFromTime, JSDate.DateFromTime.
  rewrite MakeDay_shift, MakeDay_civil.
  unfold JSDate.MakeDate, JSDate.TimeWithinDay, JSDate.Day.
  replace ((v / JSDate.msPerDay - n) * JSDate.msPerDay + v mod JSDate.msPerDay)
    with (v - n * JSDate.msPerDay)
    by (unfold JSDate.msPerDay; Z.div_mod_to_equations; lia).
  unfold JSDate.TimeClip.
  destruct (Z.abs (v - n * JSDate.msPerDay) >? JSDate.maxTime) eqn:E; [|reflexivity].
  apply Z.gtb_lt in E. lia.
Qed.

(** C8.  In every configured timezone, with no explicit start and no
    explicit end, [calculateDateRange] returns the range whose end is the
    current time, as dayjs gives it in that timezone, and whose start is
    the instant exactly 31 days, 31 * 86400000 milliseconds, before that
    end.  [now] is the date dayjs gives for the system clock, a date it
    gives back when [subDays] reads it again, and the start is a time
    value a [Date] can hold. *)
Theorem calculateDateRange_default_window :
  forall (timezone : Dayjs.Timezone) (clock now : Z),
    Dayjs.to_date timezone clock = Some now ->
    Dayjs.to_date timezone now = Some now ->
    Z.abs (now - 31 * JSDate.msPerDay) <= JSDate.maxTime ->
    calculateDateRange timezone clock None None
    = Return {| range_start := Some (Some (now - 31 * JSDate.msPerDay));
                range_end := Some (Some now) |}.
Proof.
  intros timezone clock now Hclock Hnow H. unfold calculateDateRange.
  cbn [Dates.create Dates.now Dates.subDays]. rewrite Hclock.
  now rewrite (subtract_days_exact timezone now now 31 Hnow H).
Qed.

(** The default window of the repository's test: now is
    2023-01-01T00:00:00Z, the start is 2022-12-01T00:00:00Z. *)
Lemma calculateDateRange_default_window_witness :
  calculateDateRange Dayjs.UTC 1672531200000 None None
  = Return {| range_start := Some (Some (1672531200000 - 31 * JSDate.msPerDay));
              range_end := Some (Some 1672531200000) |}.
Proof.
  apply (calculateDateRange_default_window Dayjs.UTC 1672531200000 1672531200000).
  - reflexivity.
  - reflexivity.
  - unfold JSDate.msPerDay, JSDate.maxTime. lia.
Defined.

(** An explicit bound replaces its default only; an end that dayjs puts
    before the start is an [ArgumentError] on [--start]. *)
Lemma calculateDateRange_explicit_start (timezone : Dayjs.Timezone)
      (clock now start s : Z) :
  Dayjs.to_date timezone clock = Some now ->
  Dayjs.to_date timezone start = Some s ->
  Dayjs.is_before timezone now s = false ->
  calculateDateRange timezone clock (Some (Some start)) None
  = Return {| range_start := Some (Some s); range_end := Some (Some now) |}.
Proof.
  intros Hclock Hs Hb. unfold calculateDateRange.
  cbn [Dates.create Dates.now Dates.parse Dates.to_date Dates.isBefore bind].
  rewrite Hclock, Hs. cbn [bind]. now rewrite Hb.
Qed.

Lemma calculateDateRange_end_before_start (timezone : Dayjs.Timezone)
      (clock start end_ s e : Z) :
  Dayjs.to_date timezone start = Some s ->
  Dayjs.to_date timezone end_ = Some e ->
  Dayjs.is_before timezone e s = true ->
  exists message,
    calculateDateRange timezone clock (Some (Some start)) (Some (Some end_))
    = Throw (ArgumentError "--start" message).
Proof.
  intros Hs He Hb. unfold calculateDateRange.
  cbn [Dates.create Dates.now Dates.parse Dates.to_date Dates.isBefore bind].
  rewrite He. cbn [bind]. rewrite Hs. cbn [bind]. rewrite Hb.
  eexists. reflexivity.
Qed.

End DateRangeFilter.

(** ** What the [replace] calls of the code compute *)

Section ReplaceFacts.

Import RegExp.

Fixpoint map_chars (f : ascii -> ascii) (s : string) : string :=
  match s with
  | EmptyString => EmptyString
  | String c r => String (f c) (map_chars f r)
  end.

(** Every run of characters satisfying [p] loses all but its last
    character. *)
Fixpoint collapse_runs (p : ascii -> bool) (s : string) : string :=
  match s with
  | EmptyString => EmptyString
  | String c r =>
      if p c && match r with String c' _ => p c' | EmptyString => false end
      then collapse_runs p r
      else String c (collapse_runs p r)
  end.

(** Without the leading and the trailing characters satisfying [p]. *)
Definition trim (p : ascii -> bool) (s : string) : string :=
  drop_while_end p (drop_while p s).

Lemma drop_length (n : nat) (s : string) :
  (String.length (drop n s) <= String.length s)%nat.
Proof.
  revert s. induction n as [|n IH]; intros [|c r]; simpl; try lia.
  specialize (IH r). lia.
Qed.

Lemma run_length_le p (s : string) : (run_length p s <= String.length s)%nat.
Proof.
  induction s as [|c r IH]; simpl; [lia|]. destruct (p c); simpl; lia.
Qed.

Lemma drop_run_length p (s : string) : drop (run_length p s) s = drop_while p s.
Proof.
  induction s as [|c r IH]; simpl; [reflexivity|].
  destruct (p c); simpl; [exact IH | reflexivity].
Qed.

Lemma run_length_drop_while p (s : string) : run_length p (drop_while p s) = O.
Proof.
  induction s as [|c r IH]; simpl; [reflexivity|].
  destruct (p c) eqn:E; [exact IH | simpl; now rewrite E].
Qed.

Lemma run_length_all p (s : string) :
  drop (run_length p s) s = EmptyString <-> forall_chars p s = true.
Proof.
  induction s as [|c r IH]; simpl; [tauto|].
  destruct (p c); simpl; [exact IH|]. split; discriminate.
Qed.

Lemma drop_while_end_empty p (s : string) :
  drop_while_end p s = EmptyString <-> forall_chars p s = true.
Proof.
  induction s as [|c r IH]; simpl; [tauto|].
  destruct (drop_while_end p r) eqn:E.
  - destruct (p c); simpl.
    + split; [intros _; now apply IH | reflexivity].
    + split; discriminate.
  - split; [discriminate|]. intros H. apply andb_true_iff in H.
    destruct H as [_ H]. apply IH in H. discriminate.
Qed.

(** Passing over the rest of a match. *)
Lemma scan_skip m g by_ (k : nat) (b : bool) (s : string) :
  (k <= String.length s)%nat -> (k = O -> b = false) ->
  scan m g by_ k b s = scan m g by_ O false (drop k s).
Proof.
  revert k b. induction s as [|c r IH]; intros k b Hk Hb.
  - simpl in Hk. assert (k = O) by lia. subst k. now rewrite Hb.
  - destruct k as [|k].
    + now rewrite Hb.
    + simpl. simpl in Hk. destruct k as [|k].
      * reflexivity.
      * apply IH; [lia | discriminate].
Qed.

(** [s.replace(/[C]/g, c)] replaces each character of the class. *)
Lemma replace_one_of p (x : ascii) (s : string) :
  replace (one_of p) true (String x EmptyString) s
  = map_chars (fun c => if p c then x else c) s.
Proof.
  unfold replace. generalize true at 2. induction s as [|c r IH]; intros b.
  - reflexivity.
  - simpl. destruct (p c); simpl; now rewrite IH.
Qed.

Lemma collapse_runs_head p (c : ascii) (r : string) :
  p c = true ->
  exists c', p c' = true
    /\ collapse_runs p (String c r) = String c' (collapse_runs p (drop_while p r)).
Proof.
  revert c. induction r as [|c1 r IH]; intros c Hc.
  - exists c. simpl. now rewrite Hc.
  - simpl. rewrite Hc. destruct (p c1) eqn:E1.
    + simpl. destruct (IH c1 E1) as (c' & Hc' & Heq).
      exists c'. split; [assumption|]. simpl in Heq. rewrite E1 in Heq. exact Heq.
    + exists c. split; [assumption|]. simpl. rewrite ?E1. reflexivity.
Qed.

(** [s.replace(/x+/g, 'x')] leaves one [x] of every run of [x]. *)
Lemma replace_run_of (x : ascii) (s : string) :
  replace (run_of (Ascii.eqb x)) true (String x EmptyString) s
  = collapse_runs (Ascii.eqb x) s.
Proof.
  unfold replace. generalize true at 2.
  remember (String.length s) as n eqn:Hn.
  assert (Hle : (String.length s <= n)%nat) by lia. clear Hn.
  revert s Hle. induction n as [|n IH]; intros s Hle b.
  - destruct s; [reflexivity | simpl in Hle; lia].
  - destruct s as [|c r]; [reflexivity|].
    simpl in Hle.
    destruct (Ascii.eqb x c) eqn:E.
    + destruct (collapse_runs_head (Ascii.eqb x) c r E) as (c' & Hc' & Heq).
      rewrite Heq. apply Ascii.eqb_eq in Hc'. subst c'.
      cbn [scan]. unfold run_of at 1. cbn [run_length]. rewrite E.
      cbn [append]. f_equal.
      rewrite scan_skip.
      * rewrite drop_run_length. apply IH.
        rewrite <- drop_run_length. pose proof (drop_length (run_length (Ascii.eqb x) r) r). lia.
      * apply run_length_le.
      * intros _. reflexivity.
    + cbn [scan]. unfold run_of at 1. cbn [run_length]. rewrite E.
      cbn [collapse_runs]. rewrite E. cbn [andb]. f_equal. apply IH. lia.
Qed.

Lemma scan_edge_inner p (s : string) :
  scan (edge_run_of p) true EmptyString O false s = drop_while_end p s.
Proof.
  induction s as [|c r IH]; [reflexivity|].
  cbn [scan]. unfold edge_run_of at 1.
  destruct (run_length p (String c r)) as [|n] eqn:Hrun.
  - cbn [drop_while_end]. rewrite IH.
    simpl in Hrun. destruct (p c) eqn:E; [discriminate|].
    destruct (drop_while_end p r); rewrite ?E; reflexivity.
  - destruct (drop (S n) (String c r)) eqn:Hd.
    + cbn [append].
      assert (Hall : forall_chars p (String c r) = true).
      { apply run_length_all. now rewrite Hrun. }
      rewrite (proj2 (drop_while_end_empty p (String c r)) Hall).
      rewrite scan_skip.
      * simpl in Hd. now rewrite Hd.
      * pose proof (run_length_le p (String c r)) as Hl.
        rewrite Hrun in Hl. simpl in Hl. lia.
      * intros _. reflexivity.
    + rewrite IH. cbn [drop_while_end].
      destruct (drop_while_end p r) eqn:Hr; [|reflexivity].
      exfalso. apply drop_while_end_empty in Hr.
      simpl in Hrun. destruct (p c) eqn:E; [|discriminate].
      assert (Hall : forall_chars p (String c r) = true) by (simpl; now rewrite E, Hr).
      apply run_length_all in Hall. simpl in Hall. rewrite E in Hall.
      injection Hrun as Hn. rewrite Hn in Hall. simpl in Hd, Hall. congruence.
Qed.

(** [s.replace(/^[C]+|[C]+$/g, '')] trims the class from both ends. *)
Lemma replace_edge_run_of p (s : string) :
  replace (edge_run_of p) true EmptyString s = trim p s.
Proof.
  unfold replace, trim. destruct s as [|c r]; [reflexivity|].
  cbn [scan]. unfold edge_run_of at 1.
  destruct (run_length p (String c r)) as [|n] eqn:Hrun.
  - simpl in Hrun. cbn [drop_while]. destruct (p c) eqn:E; [discriminate|].
    cbn [drop_while_end]. rewrite scan_edge_inner, E.
    destruct (drop_while_end p r); reflexivity.
  - cbn [append]. simpl in Hrun. destruct (p c) eqn:E; [|discriminate].
    injection Hrun as <-. cbn [drop_while]. rewrite E.
    rewrite scan_skip.
    + rewrite drop_run_length. apply scan_edge_inner.
    + apply run_length_le.
    + intros _. reflexivity.
Qed.

(** [s.replace(/^$/, t)] replaces the empty string only. *)
Lemma replace_empty_input (t s : string) :
  replace empty_input false t s = if truthy s then s else t.
Proof.
  unfold replace. destruct s as [|c r]; [reflexivity|].
  cbn [scan empty_input truthy]. f_equal.
  induction r as [|c' r IH]; [reflexivity|].
  cbn [scan empty_input]. f_equal. apply IH.
Qed.

End ReplaceFacts.

(** ** The output constructor (C4, C5, C6) *)

Section OutputConstructor.

Import Output.

(** The fragments in the words of the specification. *)

Definition two_digits (n : Z) : string := padStart 2 (String_of_number n).

(** The date fragment of §4.1: [YYYY-M-D] for none, [M-D] for year, [D]
    for month, none for day. *)
Definition date_fragment (f : Dayjs.Fields) (s : FilesystemStructure) : option string :=
  let yyyy := padStart 4 (String_of_number (Dayjs.year f)) in
  let m := String_of_number (Dayjs.month f + 1) in
  let d := String_of_number (Dayjs.date f) in
  match s with
  | StructureNone => Some (yyyy ++ "-" ++ m ++ "-" ++ d)
  | StructureYear => Some (m ++ "-" ++ d)
  | StructureMonth => Some d
  | StructureDay => None
  end.

(** The time fragment: [HHmm]. *)
Definition time_fragment (f : Dayjs.Fields) : string :=
  two_digits (Dayjs.hour f) ++ two_digits (Dayjs.minute f).

(** Replace every character outside [A-Za-z0-9._-] with [_], collapse
    runs of [_] to one, trim leading and trailing [_], substitute
    [untitled] for an empty result. *)
Definition keeps (c : ascii) : bool :=
  is_upper c || is_lower c || is_digit c
  || Ascii.eqb c "."%char || Ascii.eqb c "_"%char || Ascii.eqb c "-"%char.

Definition sanitized_as_specified (subject : string) : string :=
  let replaced := map_chars (fun c => if keeps c then c else "_"%char) subject in
  let collapsed := collapse_runs (Ascii.eqb "_"%char) replaced in
  let trimmed := trim (Ascii.eqb "_"%char) collapsed in
  if truthy trimmed then trimmed else "untitled".

Definition subject_fragment (subject : option string) : string :=
  sanitized_as_specified (match subject with Some s => s | None => EmptyString end).

(** The fragments a configuration asks for, in the fixed order; the date
    fragment is there when 'date' is among the options and the structure
    has one. *)
Definition fragments_as_specified (config : Config) (f : Dayjs.Fields)
           (type hash : string) (subject : option string) : list string :=
  (if requested config "date"
   then match outputStructure config with
        | Some s => match date_fragment f s with Some d => [d] | None => [] end
        | None => []
        end
   else [])
  ++ (if requested config "time" then [time_fragment f] else [])
  ++ [hash; type]
  ++ (if requested config "subject" then [subject_fragment subject] else []).

(** 'date' is requested and the structure gives no date fragment. *)
Definition date_without_fragment (config : Config) : bool :=
  requested config "date"
  && match outputStructure config with
     | Some StructureDay => true
     | Some _ => false
     | None => true
     end.

(** ASCII punctuation. *)
Definition is_punctuation (c : ascii) : bool :=
  between 33 47 c || between 58 64 c || between 91 96 c || between 123 126 c.

Lemma is_underscore_eqb (c : ascii) : is_underscore c = Ascii.eqb "_"%char c.
Proof. unfold is_underscore. apply Ascii.eqb_sym. Qed.

Lemma not_filename_char_keeps (c : ascii) : not_filename_char c = negb (keeps c).
Proof.
  unfold not_filename_char, keeps. f_equal.
  destruct (is_lower c), (is_upper c), (is_digit c),
    (Ascii.eqb c "-"), (Ascii.eqb c "_"), (Ascii.eqb c "."); reflexivity.
Qed.

Lemma map_chars_ext (f g : ascii -> ascii) (s : string) :
  (forall c, f c = g c) -> map_chars f s = map_chars g s.
Proof.
  intros H. induction s as [|c r IH]; simpl; [reflexivity|]. now rewrite H, IH.
Qed.

Lemma replace_ext m m' g by_ (s : string) :
  (forall b t, m b t = m' b t) ->
  RegExp.replace m g by_ s = RegExp.replace m' g by_ s.
Proof.
  intros H. unfold RegExp.replace. generalize O, true.
  induction s as [|c r IH]; intros k b; cbn [RegExp.scan]; rewrite ?H.
  - reflexivity.
  - destruct k; [|apply IH].
    destruct (m' b (String c r)) as [[|n]|]; destruct g; rewrite ?IH; reflexivity.
Qed.

Lemma run_length_ext p q (s : string) :
  (forall c, p c = q c) -> RegExp.run_length p s = RegExp.run_length q s.
Proof.
  intros H. induction s as [|c r IH]; simpl; [reflexivity|].
  rewrite H, IH. reflexivity.
Qed.

(** The four [replace] calls do what the specification says, step by
    step. *)
Lemma sanitizeFilenameString_as_specified (str : string) :
  sanitizeFilenameString str = sanitized_as_specified str.
Proof.
  unfold sanitizeFilenameString, sanitized_as_specified.
  rewrite replace_empty_input.
  rewrite (replace_ext (RegExp.edge_run_of is_underscore)
                       (RegExp.edge_run_of (Ascii.eqb "_"%char)))
    by (intros b t; unfold RegExp.edge_run_of;
        now rewrite (run_length_ext _ _ t is_underscore_eqb)).
  rewrite replace_edge_run_of.
  rewrite (replace_ext (RegExp.run_of is_underscore)
                       (RegExp.run_of (Ascii.eqb "_"%char)))
    by (intros b t; unfold RegExp.run_of;
        now rewrite (run_length_ext _ _ t is_underscore_eqb)).
  rewrite replace_run_of, replace_one_of.
  rewrite (map_chars_ext _ (fun c => if keeps c then c else "_"%char))
    by (intros c; rewrite not_filename_char_keeps; destruct (keeps c); reflexivity).
  reflexivity.
Qed.

Lemma forall_chars_collapse_runs p q (s : string) :
  forall_chars p s = true -> forall_chars p (collapse_runs q s) = true.
Proof.
  induction s as [|c r IH]; simpl; [trivial|].
  intros H. apply andb_true_iff in H. destruct H as [Hc Hr].
  destruct (q c && _); simpl; [now apply IH | now rewrite Hc, IH].
Qed.

Lemma trim_all p (s : string) : forall_chars p s = true -> trim p s = EmptyString.
Proof.
  intros H. unfold trim.
  assert (E : drop_while p s = EmptyString).
  { induction s as [|c r IH]; simpl in *; [reflexivity|].
    apply andb_true_iff in H. destruct H as [Hc Hr]. rewrite Hc. now apply IH. }
  now rewrite E.
Qed.

(** A subject without a letter, digit, dot or hyphen becomes [untitled]. *)
Lemma sanitized_untitled (str : string) :
  forall_chars (fun c => negb (is_upper c || is_lower c || is_digit c
                               || Ascii.eqb c "."%char || Ascii.eqb c "-"%char)) str = true ->
  sanitized_as_specified str = "untitled".
Proof.
  intros H. unfold sanitized_as_specified.
  rewrite trim_all; [reflexivity|].
  apply forall_chars_collapse_runs.
  induction str as [|c r IH]; simpl in *; [reflexivity|].
  apply andb_true_iff in H. destruct H as [Hc Hr]. rewrite (IH Hr), andb_true_r.
  unfold keeps.
  destruct (is_upper c), (is_lower c), (is_digit c), (Ascii.eqb c "."),
    (Ascii.eqb c "-"); simpl in Hc; try discriminate.
  destruct (Ascii.eqb c "_") eqn:E; simpl; [|reflexivity].
  apply Ascii.eqb_eq in E. subst c. reflexivity.
Qed.

(** C5, counterexample.  The subject of the repository's own test,
    [---///!@#], is punctuation only, and its fragment is [---], not
    [untitled]: hyphens (and dots) are kept. *)
Lemma sanitize_keeps_hyphens :
  forall_chars is_punctuation "---///!@#" = true
  /\ sanitizeFilenameString "---///!@#" = "---"
  /\ sanitizeFilenameString "---///!@#" <> "untitled".
Proof. repeat split. discriminate. Qed.

(** C5, amended.  The subject fragment is the subject with every
    character outside [A-Za-z0-9._-] replaced by [_], runs of [_]
    collapsed to one, leading and trailing [_] trimmed, and [untitled]
    substituted when nothing is left; an absent subject is treated as the
    empty string; so an absent or empty subject, and a subject that holds
    no letter, digit, dot or hyphen, yield [untitled]. *)
Theorem sanitized_subject_fragment :
  (forall str, sanitizeFilenameString str = sanitized_as_specified str)
  /\ (forall config clock date type hash,
        constructFilename config clock date type hash None
        = constructFilename config clock date type hash (Some EmptyString))
  /\ sanitizeFilenameString EmptyString = "untitled"
  /\ (forall str,
        forall_chars (fun c => negb (is_upper c || is_lower c || is_digit c
                                     || Ascii.eqb c "."%char || Ascii.eqb c "-"%char))
                     str = true ->
        sanitizeFilenameString str = "untitled").
Proof.
  split; [exact sanitizeFilenameString_as_specified|].
  split; [reflexivity|].
  split; [reflexivity|].
  intros str H. rewrite sanitizeFilenameString_as_specified.
  now apply sanitized_untitled.
Qed.

Lemma sanitized_subject_fragment_witness :
  sanitizeFilenameString "/// !@#_[]" = "untitled".
Proof.
  apply (proj2 (proj2 (proj2 sanitized_subject_fragment)) "/// !@#_[]").
  reflexivity.
Defined.

(** The subjects of the repository's tests. *)
Example sanitize_test_subject :
  sanitizeFilenameString "Re: [Test] Subject! $pecial Characters?"
  = "Re_Test_Subject_pecial_Characters".
Proof. reflexivity. Qed.

Example sanitize_final_report : sanitizeFilenameString "Final Report" = "Final_Report".
Proof. reflexivity. Qed.

Lemma format_date_fragment (config : Config) (clock t : Z) (s : FilesystemStructure) :
  formatDate config clock (Some t) (Some s)
  = match date_fragment (Dayjs.wall (timezone config) t) s with
    | Some d => Return d
    | None => Throw (GenericError
                       ("Cannot use date in filename when output structure is "
                        ++ Structured.quote ++ "day" ++ Structured.quote))
    end.
Proof. destruct s; reflexivity. Qed.

(** C4, counterexample.  With 'date' among the options and the structure
    'day', [constructFilename] does not return the remaining fragments:
    it throws. *)
Lemma constructFilename_throws_for_date_in_day :
  let config := {| timezone := Dayjs.UTC; outputDirectory := Some "/out";
                   outputStructure := Some StructureDay;
                   outputFilenameOptions := Some ["date"] |} in
  constructFilename config 0 (Some 1718447400000) "eml" "abc123" None
  = Throw (GenericError
             ("Cannot use date in filename when output structure is "
              ++ Structured.quote ++ "day" ++ Structured.quote))
  /\ constructFilename config 0 (Some 1718447400000) "eml" "abc123" None
     <> Return (join "-" (fragments_as_specified config
                            (Dayjs.wall Dayjs.UTC 1718447400000) "eml" "abc123" None)).
Proof. split; [reflexivity | discriminate]. Qed.

(** C4, amended.  [constructFilename] returns its fragments joined with
    [-] in the fixed order: the date fragment (if 'date' is in the option
    set), the time fragment as HHmm (if 'time' is), the identifier, the
    type tag, the sanitized subject fragment (if 'subject' is); with no
    filename option set that is exactly identifier-type.  When 'date' is in
    the option set and the structure is 'day' or not set, so that there is
    no date fragment, it throws instead of returning. *)
Theorem constructFilename_fragments :
  forall (config : Config) (clock t : Z) (type hash : string) (subject : option string),
    (if date_without_fragment config
     then exists e, constructFilename config clock (Some t) type hash subject = Throw e
     else constructFilename config clock (Some t) type hash subject
          = Return (join "-" (fragments_as_specified config
                                (Dayjs.wall (timezone config) t) type hash subject)))
    /\ (if match outputFilenameOptions config with
            | Some [] => true
            | Some _ => false
            | None => true
            end
        then constructFilename config clock (Some t) type hash subject
             = Return (hash ++ "-" ++ type)
        else True).
Proof.
  intros config clock t type hash subject. split.
  - unfold date_without_fragment, constructFilename, fragments_as_specified.
    destruct (requested config "date") eqn:Hd; cbn [andb bind].
    + destruct (outputStructure config) as [s|].
      * rewrite format_date_fragment.
        destruct s; cbn [date_fragment bind]; try (eexists; reflexivity);
          (repeat f_equal; unfold subject_fragment;
           rewrite <- sanitizeFilenameString_as_specified;
           destruct subject as [[|c r]|]; reflexivity).
      * eexists. reflexivity.
    + repeat f_equal. unfold subject_fragment.
      rewrite <- sanitizeFilenameString_as_specified.
      destruct subject as [[|c r]|]; reflexivity.
  - unfold constructFilename, requested.
    destruct (outputFilenameOptions config) as [[|o os]|]; try exact I;
      cbn; rewrite ?append_empty_r; reflexivity.
Qed.

(** The file names of the repository's tests, with the calendar fields
    dayjs prints for 2024-06-15T10:30Z. *)
Example constructFilename_all_options :
  constructFilename
    {| timezone := Dayjs.UTC; outputDirectory := Some "/out";
       outputStructure := Some StructureNone;
       outputFilenameOptions := Some ["date"; "time"; "subject"] |}
    0 (Some 1718447400000) "eml" "abc123" (Some "Re: [Test]!")
  = Return "2024-6-15-1030-abc123-eml-Re_Test".
Proof. vm_compute. reflexivity. Qed.

Example constructFilename_time_subject_in_day :
  constructFilename
    {| timezone := Dayjs.UTC; outputDirectory := Some "/out";
       outputStructure := Some StructureDay;
       outputFilenameOptions := Some ["time"; "subject"] |}
    0 (Some 1718447400000) "test-type" "abc123hash" (Some "Daily Log")
  = Return "1030-abc123hash-test-type-Daily_Log".
Proof. vm_compute. reflexivity. Qed.



(** With options that are otherwise valid the message is the one about
    the structure 'day'; with another structure the same options pass. *)
Example validate_date_in_day :
  Validate.validateOutputFilenameOptions None (Some ["date"; "time"]) (Some StructureDay)
  = Throw (ArgumentError "--output-filename-options"
             ("Cannot use date in filename when output structure is "
              ++ Structured.quote ++ "day" ++ Structured.quote)).
Proof. reflexivity. Qed.

Example validate_date_in_month :
  Validate.validateOutputFilenameOptions None (Some ["date"; "time"]) (Some StructureMonth)
  = Return tt.
Proof. reflexivity. Qed.

End OutputConstructor.

(** ** The worker pool of [forEachFileIn] *)

Section PoolFacts.

Import Storage.

Variable path_join : string -> string -> string.
Context {State Pending : Type}.
Variable call : string -> State -> State * Pending.
Variable settle : Pending -> State -> State.
Variable directory : string.
Variable lim : nat.

(** The files [files.slice(0, limit)] put on the queue. *)
Variable queued : list string.

Definition is_awaiting (w : @Worker Pending) : bool :=
  match w with
  | Awaiting _ => true
  | _ => false
  end.

Definition awaiting_count (ws : list (@Worker Pending)) : nat :=
  List.length (filter is_awaiting ws).

(** A worker stops only at an empty queue or at the limit. *)
Definition may_stop (pool : @Pool State Pending) : Prop :=
  fileQueue pool = [] \/ (lim <= filesProcessed pool)%nat.

(** What every move of a worker keeps.  The files handed to the callback
    are the truthy ones among the first [k] queued files, in order, and
    the queue holds the rest. *)
Record pool_invariant (pool : @Pool State Pending) : Prop := {
  inv_split : exists k,
      (k <= List.length queued)%nat
      /\ fileQueue pool = skipn k queued
      /\ considered pool = filter truthy (firstn k queued);
  inv_count : (filesProcessed pool + awaiting_count (workers pool)
               = List.length (considered pool))%nat;
  inv_stop : forallb truthy queued = true ->
             existsb is_finished (workers pool) = true -> may_stop pool
}.

Lemma awaiting_count_set (i : nat) (w w' : @Worker Pending) (ws : list (@Worker Pending)) :
  nth_error ws i = Some w ->
  (awaiting_count (set_worker i w' ws) + (if is_awaiting w then 1 else 0)
   = awaiting_count ws + (if is_awaiting w' then 1 else 0))%nat.
Proof.
  unfold awaiting_count. revert i. induction ws as [|x r IH]; intros i H.
  - destruct i; discriminate.
  - destruct i as [|i]; simpl in H.
    + injection H as ->. simpl. destruct (is_awaiting w), (is_awaiting w'); simpl; lia.
    + specialize (IH i H). simpl. destruct (is_awaiting x); simpl; lia.
Qed.

Lemma existsb_finished_set (i : nat) (w' : @Worker Pending) (ws : list (@Worker Pending)) :
  existsb is_finished (set_worker i w' ws) = true ->
  is_finished w' = true \/ existsb is_finished ws = true.
Proof.
  revert i. induction ws as [|x r IH]; intros i H; [destruct i; discriminate|].
  destruct i as [|i]; simpl in *.
  - apply orb_true_iff in H. destruct H as [H|H]; [now left|].
    right. rewrite H. apply orb_true_r.
  - apply orb_true_iff in H. destruct H as [H|H].
    + right. now rewrite H.
    + destruct (IH i H) as [H'|H']; [now left|]. right. rewrite H'. apply orb_true_r.
Qed.

Lemma length_set_worker (i : nat) (w : @Worker Pending) (ws : list (@Worker Pending)) :
  List.length (set_worker i w ws) = List.length ws.
Proof.
  revert i. induction ws as [|x r IH]; intros [|i]; simpl; try reflexivity.
  now rewrite IH.
Qed.

Lemma skipn_cons_inv {A} (k : nat) (l : list A) (x : A) (r : list A) :
  skipn k l = x :: r ->
  (k < List.length l)%nat /\ skipn (S k) l = r /\ firstn (S k) l = (firstn k l ++ [x])%list.
Proof.
  revert l. induction k as [|k IH]; intros l H.
  - simpl in H. subst l. simpl. repeat split. lia.
  - destruct l as [|y l]; [discriminate|]. simpl in H.
    destruct (IH l H) as (H1 & H2 & H3). repeat split.
    + simpl. lia.
    + exact H2.
    + change (firstn (S (S k)) (y :: l)) with (y :: firstn (S k) l).
      rewrite H3. reflexivity.
Qed.

Lemma may_stop_step (pool : @Pool State Pending) (i : nat) :
  may_stop pool -> may_stop (step path_join call settle directory lim pool i).
Proof.
  unfold may_stop, step. intros H.
  destruct (nth_error (workers pool) i) as [[|p|]|]; try exact H.
  - destruct (fileQueue pool) as [|file rest] eqn:Q.
    + left. reflexivity.
    + destruct H as [H|H]; [discriminate|].
      destruct (filesProcessed pool <? lim)%nat eqn:E.
      * apply Nat.ltb_lt in E. lia.
      * right. exact H.
  - destruct H as [H|H]; [left; exact H | right; simpl; lia].
Qed.

Lemma pool_invariant_step (pool : @Pool State Pending) (i : nat) :
  pool_invariant pool ->
  pool_invariant (step path_join call settle directory lim pool i).
Proof.
  intros Hinv.
  pose proof (may_stop_step pool i) as Hmono.
  destruct Hinv as [(k & Hk & Hq & Hc) Hcount Hstop].
  unfold step in *.
  destruct (nth_error (workers pool) i) as [[|p|]|] eqn:Hw.
  - (* at the loop test *)
    destruct (fileQueue pool) as [|file rest] eqn:Q.
    + (* the queue is empty *)
      constructor; cbn [fileQueue filesProcessed workers state considered].
      * exists k. now rewrite <- Hq.
      * pose proof (awaiting_count_set i AtLoop Finished _ Hw) as A. simpl in A. lia.
      * intros _ _. left. reflexivity.
    + symmetry in Hq. destruct (skipn_cons_inv _ _ _ _ Hq) as (K1 & K2 & K3).
      destruct (filesProcessed pool <? lim)%nat eqn:E.
      * destruct (truthy file) eqn:T.
        -- destruct (call (path_join directory file) (state pool)) as [s p] eqn:C.
           constructor; cbn [fileQueue filesProcessed workers state considered].
           ++ exists (S k). repeat split; [lia | now rewrite K2 |].
              rewrite K3, filter_app, <- Hc. simpl. now rewrite T.
           ++ pose proof (awaiting_count_set i AtLoop (Awaiting p) _ Hw) as A.
              simpl in A. rewrite length_app. simpl. lia.
           ++ intros Ht Hf. pose proof (existsb_finished_set _ _ _ Hf) as Hf'.
              clear Hf. destruct Hf' as [Hf|Hf]; [simpl in Hf; discriminate|].
              specialize (Hstop Ht Hf). destruct Hstop as [S1|S1]; [congruence|].
              apply Nat.ltb_lt in E. lia.
        -- constructor; cbn [fileQueue filesProcessed workers state considered].
           ++ exists (S k). repeat split; [lia | now rewrite K2 |].
              rewrite K3, filter_app, <- Hc. simpl. rewrite T. now rewrite app_nil_r.
           ++ pose proof (awaiting_count_set i AtLoop Finished _ Hw) as A. simpl in A. lia.
           ++ intros Ht _. exfalso.
              assert (Hin : In file queued).
              { rewrite <- (firstn_skipn k queued), Hq. apply in_or_app. right. now left. }
              rewrite forallb_forall in Ht. specialize (Ht file Hin). congruence.
      * constructor; cbn [fileQueue filesProcessed workers state considered].
        -- exists k. rewrite <- Hq. auto.
        -- pose proof (awaiting_count_set i AtLoop Finished _ Hw) as A. simpl in A. lia.
        -- intros _ _. right. apply Nat.ltb_ge in E. exact E.
  - (* the awaited callback has settled *)
    constructor; cbn [fileQueue filesProcessed workers state considered].
    + exists k. auto.
    + pose proof (awaiting_count_set i (Awaiting p)
                    (if (lim <=? S (filesProcessed pool))%nat then Finished else AtLoop)
                    _ Hw) as A.
      destruct (lim <=? S (filesProcessed pool))%nat; simpl in A; lia.
    + intros Ht Hf. pose proof (existsb_finished_set _ _ _ Hf) as Hf'.
      clear Hf. destruct Hf' as [Hf|Hf].
      * destruct (lim <=? S (filesProcessed pool))%nat eqn:E; [|discriminate].
        right. cbn [filesProcessed]. apply Nat.leb_le in E. exact E.
      * specialize (Hstop Ht Hf). destruct Hstop as [S1|S1]; [left; exact S1 | right; cbn [filesProcessed]; lia].
  - constructor; auto. exists k. auto.
  - constructor; auto. exists k. auto.
Qed.

Lemma pool_invariant_run (schedule : list nat) (pool : @Pool State Pending) :
  pool_invariant pool ->
  pool_invariant (run path_join call settle directory lim schedule pool).
Proof.
  unfold run. revert pool. induction schedule as [|i r IH]; intros pool H; simpl.
  - exact H.
  - apply IH. now apply pool_invariant_step.
Qed.

Lemma workers_length_run (schedule : list nat) (pool : @Pool State Pending) :
  List.length (workers (run path_join call settle directory lim schedule pool))
  = List.length (workers pool).
Proof.
  unfold run. revert pool. induction schedule as [|i r IH]; intros pool; simpl.
  - reflexivity.
  - rewrite IH. unfold step.
    destruct (nth_error (workers pool) i) as [[|p|]|]; try reflexivity.
    + destruct (fileQueue pool); [cbn; apply length_set_worker|].
      destruct (filesProcessed pool <? lim)%nat; [|cbn; apply length_set_worker].
      destruct (truthy s); [|cbn; apply length_set_worker].
      destruct (call _ _). cbn. apply length_set_worker.
    + cbn. apply length_set_worker.
Qed.

(** *** A schedule under which every worker finishes *)

Fixpoint first_unfinished (ws : list (@Worker Pending)) : option nat :=
  match ws with
  | [] => None
  | w :: r =>
      if is_finished w then option_map S (first_unfinished r) else Some O
  end.

(** Always moves the first worker that has not finished. *)
Fixpoint drive (fuel : nat) (pool : @Pool State Pending) : list nat :=
  match fuel with
  | O => []
  | S f =>
      match first_unfinished (workers pool) with
      | Some i => i :: drive f (step path_join call settle directory lim pool i)
      | None => []
      end
  end.

Definition weight (w : @Worker Pending) : nat :=
  match w with
  | AtLoop => 1
  | Awaiting _ => 2
  | Finished => 0
  end.

Definition work_left (pool : @Pool State Pending) : nat :=
  3 * List.length (fileQueue pool) + list_sum (map weight (workers pool)).

Lemma weight_set (i : nat) (w w' : @Worker Pending) (ws : list (@Worker Pending)) :
  nth_error ws i = Some w ->
  (list_sum (map weight (set_worker i w' ws)) + weight w
   = list_sum (map weight ws) + weight w')%nat.
Proof.
  revert i. induction ws as [|x r IH]; intros i H.
  - destruct i; discriminate.
  - destruct i as [|i]; simpl in H.
    + injection H as ->. simpl. lia.
    + specialize (IH i H). simpl. lia.
Qed.

Lemma first_unfinished_some (ws : list (@Worker Pending)) (i : nat) :
  first_unfinished ws = Some i ->
  exists w, nth_error ws i = Some w /\ is_finished w = false.
Proof.
  revert i. induction ws as [|x r IH]; intros i H; [discriminate|].
  simpl in H. destruct (is_finished x) eqn:E.
  - destruct (first_unfinished r) as [j|]; [|discriminate].
    injection H as <-. destruct (IH j eq_refl) as (w & H1 & H2).
    exists w. auto.
  - injection H as <-. exists x. auto.
Qed.

Lemma first_unfinished_none (ws : list (@Worker Pending)) :
  first_unfinished ws = None -> forallb is_finished ws = true.
Proof.
  induction ws as [|x r IH]; intros H; [reflexivity|].
  simpl in H. destruct (is_finished x) eqn:E; [|discriminate].
  destruct (first_unfinished r); [discriminate|].
  simpl. rewrite E. now apply IH.
Qed.

Lemma step_decreases (pool : @Pool State Pending) (i : nat) (w : @Worker Pending) :
  nth_error (workers pool) i = Some w -> is_finished w = false ->
  (work_left (step path_join call settle directory lim pool i) < work_left pool)%nat.
Proof.
  intros Hw Hf. unfold work_left, step. rewrite Hw.
  destruct w as [|p|]; [| |discriminate].
  - pose proof (weight_set i AtLoop Finished _ Hw) as W0.
    destruct (fileQueue pool) as [|file rest]; cbn [fileQueue workers].
    + simpl in *. lia.
    + destruct (filesProcessed pool <? lim)%nat; cbn [fileQueue workers].
      * destruct (truthy file); cbn [fileQueue workers].
        -- destruct (call _ _) as [s p]. cbn [fileQueue workers].
           pose proof (weight_set i AtLoop (Awaiting p) _ Hw) as W1.
           simpl in *. lia.
        -- simpl in *. lia.
      * simpl in *. lia.
  - cbn [fileQueue workers].
    pose proof (weight_set i (Awaiting p)
                  (if (lim <=? S (filesProcessed pool))%nat then Finished else AtLoop)
                  _ Hw) as W.
    destruct (lim <=? S (filesProcessed pool))%nat; simpl in *; lia.
Qed.

Lemma drive_finishes (fuel : nat) (pool : @Pool State Pending) :
  (work_left pool <= fuel)%nat ->
  all_finished (run path_join call settle directory lim (drive fuel pool) pool) = true.
Proof.
  revert pool. induction fuel as [|f IH]; intros pool H.
  - simpl. unfold all_finished.
    destruct (first_unfinished (workers pool)) as [i|] eqn:F.
    + destruct (first_unfinished_some _ _ F) as (w & Hw & Hf).
      pose proof (weight_set i w Finished _ Hw) as W.
      unfold work_left in H. destruct w; simpl in *; try discriminate; lia.
    + now apply first_unfinished_none.
  - simpl. destruct (first_unfinished (workers pool)) as [i|] eqn:F.
    + destruct (first_unfinished_some _ _ F) as (w & Hw & Hf).
      simpl. apply IH.
      pose proof (step_decreases pool i w Hw Hf). lia.
    + simpl. now apply first_unfinished_none.
Qed.

End PoolFacts.

(** ** The limit of a walk (C9) *)

Section LimitOfAWalk.

Import Storage.

Variable glob : string -> string -> list string.
Variable path_join : string -> string -> string.
Context {State Pending : Type}.
Variable call : string -> State -> State * Pending.
Variable settle : Pending -> State -> State.

Lemma pool_invariant_start (directory : string) (options : Options) (s : State) :
  pool_invariant (limit_of glob directory options)
    (firstn (limit_of glob directory options) (files_of glob directory options))
    (start glob directory options s : @Pool State Pending).
Proof.
  constructor; cbn [start fileQueue filesProcessed workers state considered].
  - exists O. repeat split. lia.
  - unfold awaiting_count.
    induction (or_default (concurrency options) 1) as [|n IH]; simpl; [reflexivity | exact IH].
  - intros _ H. exfalso.
    induction (or_default (concurrency options) 1) as [|n IH]; simpl in H;
      [discriminate | auto].
Qed.

Lemma filter_truthy_all (l : list string) :
  forallb truthy l = true -> filter truthy l = l.
Proof.
  induction l as [|x r IH]; simpl; [reflexivity|].
  intros H. apply andb_true_iff in H. destruct H as [Hx Hr].
  now rewrite Hx, IH.
Qed.

Lemma forallb_firstn {A} (p : A -> bool) (n : nat) (l : list A) :
  forallb p l = true -> forallb p (firstn n l) = true.
Proof.
  revert l. induction n as [|n IH]; intros [|x r] H; simpl; try reflexivity.
  simpl in H. apply andb_true_iff in H. destruct H as [Hx Hr].
  now rewrite Hx, IH.
Qed.

Lemma skipn_nil_length {A} (k : nat) (l : list A) :
  skipn k l = [] -> (List.length l <= k)%nat.
Proof.
  revert l. induction k as [|k IH]; intros [|x r] H; simpl in *; try lia.
  - discriminate.
  - specialize (IH r H). lia.
Qed.

(** When every worker has finished, the whole queue has been handed to
    the callback. *)
Lemma finished_pool_considered_all (directory : string) (lim : nat)
      (queued : list string) (pool : @Pool State Pending) :
  pool_invariant lim queued pool ->
  (List.length queued <= lim)%nat ->
  workers pool <> [] ->
  all_finished pool = true ->
  forallb truthy queued = true ->
  considered pool = queued.
Proof.
  intros [(k & Hk & Hq & Hc) Hcount Hstop] Hlen Hne Hfin Ht.
  assert (Hex : existsb is_finished (workers pool) = true).
  { unfold all_finished in Hfin. destruct (workers pool) as [|w r]; [congruence|].
    simpl in *. apply andb_true_iff in Hfin. destruct Hfin as [Hw _]. now rewrite Hw. }
  rewrite filter_truthy_all in Hc by now apply forallb_firstn.
  assert (Hk' : k = List.length queued).
  { destruct (Hstop Ht Hex) as [S1|S1].
    - rewrite Hq in S1. apply skipn_nil_length in S1. lia.
    - assert (List.length (considered pool) = k)
        by (rewrite Hc, length_firstn; lia).
      lia. }
  rewrite Hc, Hk'. apply firstn_all.
Qed.

(** C9.  With a positive limit, a walk hands at most [limit] candidates
    to the per-file callback, whatever that callback does with them (so
    whether or not it accepts them): under every schedule of the workers
    the candidates considered so far are, in order, among the first
    [limit] files the enumerator returned; and when every worker has
    finished they are exactly those first [limit] files (all of them, when
    there are fewer), the files the callback rejected included. *)
Theorem forEachFileIn_considers_at_most_limit :
  forall (directory : string) (options : Options) (lim : nat)
         (schedule : list nat) (s : State),
    limit options = Some lim -> (0 < lim)%nat ->
    let files := glob (pattern options) directory in
    let pool := run path_join call settle directory (limit_of glob directory options)
                    schedule (start glob directory options s) in
    (List.length (considered pool) <= lim)%nat
    /\ (exists k, (k <= lim)%nat /\ considered pool = filter truthy (firstn k files))
    /\ (all_finished pool = true -> forallb truthy files = true ->
        considered pool = firstn lim files).
Proof.
  intros directory options lim schedule s Hlim Hpos files pool.
  assert (Hl : limit_of glob directory options = lim).
  { unfold limit_of. rewrite Hlim. destruct lim; [lia | reflexivity]. }
  pose proof (pool_invariant_run path_join call settle directory _ _ schedule _
                (pool_invariant_start directory options s)) as Hinv.
  fold pool in Hinv. rewrite Hl in Hinv. unfold files_of in Hinv. fold files in Hinv.
  assert (Hq : (List.length (firstn lim files) <= lim)%nat)
    by (rewrite length_firstn; lia).
  pose proof Hinv as [(k & Hk & Hqueue & Hc) Hcount Hstop].
  assert (Hk' : (k <= lim)%nat) by lia.
  assert (Hc' : considered pool = filter truthy (firstn k files)).
  { rewrite Hc, firstn_firstn. now rewrite Nat.min_l by lia. }
  split; [|split].
  - rewrite Hc'. pose proof (filter_length_le truthy (firstn k files)) as F.
    rewrite length_firstn in F. lia.
  - exists k. auto.
  - intros Hfin Ht.
    apply (finished_pool_considered_all directory lim (firstn lim files) pool Hinv Hq);
      auto.
    + subst pool. intros E. apply (f_equal (@List.length _)) in E.
      rewrite workers_length_run in E. cbn [start workers] in E.
      rewrite repeat_length in E. simpl in E.
      destruct (concurrency options) as [[|c]|]; simpl in E; discriminate.
    + now apply forallb_firstn.
Qed.

End LimitOfAWalk.

Lemma forEachFileIn_witness_files :
  Storage.considered
    (Storage.run (fun d f => d ++ "/" ++ f) (fun f (n : nat) => (S n, tt)) (fun _ n => n)
       "/in" 2 [0; 0; 0; 0]%nat
       (Storage.start (fun _ _ => ["a.txt"; "b.txt"; "c.txt"]) "/in"
          (Storage.mkOptions "**/*.*" (Some 2%nat) None) O))
  = ["a.txt"; "b.txt"].
Proof.
  apply (proj2 (proj2
    (forEachFileIn_considers_at_most_limit
       (fun _ _ => ["a.txt"; "b.txt"; "c.txt"]) (fun d f => d ++ "/" ++ f)
       (fun f (n : nat) => (S n, tt)) (fun _ n => n)
       "/in" (Storage.mkOptions "**/*.*" (Some 2%nat) None) 2 [0; 0; 0; 0]%nat O
       eq_refl (Nat.lt_0_succ 1)))).
  - reflexivity.
  - reflexivity.
Defined.

(** ** The count of a structured walk (C3) *)

Section CountOfAWalk.

Import Storage Structured.

Variable glob : string -> string -> list string.
Variable path_join : string -> string -> string.
Variable path_relative : string -> string -> string.

Variable inputDirectory structure : string.
Variable shouldParseTime : bool.
Variable callback : Callback.
Variable filePattern : string.
Variable dateRange : DateRange.

Definition returned (r : Result unit) : bool :=
  match r with
  | Return _ => true
  | Throw _ => false
  end.

(** The calls of the callback that returned normally. *)
Definition calls_returned (calls : list (string * JSDate.Date)) : nat :=
  List.length (filter (fun call => returned (callback (fst call) (snd call))) calls).

(** A file that decodes to a date of the range. *)
Definition decodes_in_range (filePath : string) (date : JSDate.Date) : Prop :=
  let relativePath := path_relative inputDirectory filePath in
  let filename := List.last (split Path.is_sep relativePath) EmptyString in
  parseDateFromFilePath relativePath filename structure shouldParseTime
  = Return (Some date)
  /\ isDateInRange date (Some dateRange) = true.

Definition pending_result (w : @Worker Started) : bool :=
  match w with
  | Awaiting p => processStructuredFile_result p
  | _ => false
  end.

Definition pending_returns (ws : list (@Worker Started)) : nat :=
  List.length (filter pending_result ws).

Record walk_invariant (pool : @Pool Walk Started) : Prop := {
  walk_count : (fileCount (state pool) + pending_returns (workers pool)
                = calls_returned (callbackCalls (state pool)))%nat;
  walk_calls : Forall (fun call => decodes_in_range (fst call) (snd call))
                      (callbackCalls (state pool))
}.

Lemma pending_returns_set (i : nat) (w w' : @Worker Started) (ws : list (@Worker Started)) :
  nth_error ws i = Some w ->
  (pending_returns (set_worker i w' ws) + (if pending_result w then 1 else 0)
   = pending_returns ws + (if pending_result w' then 1 else 0))%nat.
Proof.
  unfold pending_returns. revert i. induction ws as [|x r IH]; intros i H.
  - destruct i; discriminate.
  - destruct i as [|i]; simpl in H.
    + injection H as ->. simpl. destruct (pending_result w), (pending_result w'); simpl; lia.
    + specialize (IH i H). simpl. destruct (pending_result x); simpl; lia.
Qed.

Lemma pending_returns_finished (ws : list (@Worker Started)) :
  forallb is_finished ws = true -> pending_returns ws = O.
Proof.
  unfold pending_returns. induction ws as [|x r IH]; simpl; [reflexivity|].
  intros H. apply andb_true_iff in H. destruct H as [Hx Hr].
  destruct x; try discriminate. simpl. now apply IH.
Qed.

(** What [processStructuredFile] has done when it calls the callback. *)
Lemma processStructuredFile_called (filePath : string) (date : JSDate.Date)
      (outcome : Result unit) :
  processStructuredFile_call path_relative filePath inputDirectory structure
    shouldParseTime callback filePattern dateRange = Called date outcome ->
  outcome = callback filePath date /\ decodes_in_range filePath date.
Proof.
  unfold processStructuredFile_call, decodes_in_range.
  destruct (_ || _); [discriminate|].
  destruct (negb _); [discriminate|].
  destruct (parseDateFromFilePath _ _ _ _) as [[d|]|e]; try discriminate.
  destruct (isDateInRange d (Some dateRange)) eqn:R; [|discriminate].
  intros H. injection H as <- <-. auto.
Qed.

Definition walk_call : string -> Walk -> Walk * Started :=
  per_file_call path_relative inputDirectory structure shouldParseTime callback
                filePattern dateRange.

Lemma walk_invariant_step (lim : nat) (pool : @Pool Walk Started) (i : nat) :
  walk_invariant pool ->
  walk_invariant (step path_join walk_call per_file_settle inputDirectory lim pool i).
Proof.
  intros [Hcount Hcalls]. unfold step.
  destruct (nth_error (workers pool) i) as [[|p|]|] eqn:Hw.
  - pose proof (pending_returns_set i AtLoop Finished _ Hw) as F. simpl in F.
    destruct (fileQueue pool) as [|file rest].
    + constructor; cbn [state workers]; [lia | assumption].
    + destruct (filesProcessed pool <? lim)%nat;
        [|constructor; cbn [state workers]; [lia | assumption]].
      destruct (truthy file);
        [|constructor; cbn [state workers]; [lia | assumption]].
      unfold walk_call, per_file_call.
      destruct (processStructuredFile_call _ _ _ _ _ _ _ _) as [|date outcome] eqn:C.
      * pose proof (pending_returns_set i AtLoop (Awaiting Skipped) _ Hw) as A.
        simpl in A. constructor; cbn [state workers]; [lia | assumption].
      * destruct (processStructuredFile_called _ _ _ C) as [Ho Hd].
        pose proof (pending_returns_set i AtLoop (Awaiting (Called date outcome)) _ Hw) as A.
        cbn [pending_result processStructuredFile_result] in A.
        constructor; cbn [state workers fileCount callbackCalls].
        -- unfold calls_returned in *. rewrite filter_app, length_app.
           cbn [filter fst snd]. rewrite <- Ho.
           destruct outcome; cbn [returned List.length] in *; lia.
        -- apply Forall_app. split; [assumption|]. constructor; [exact Hd | constructor].
  - pose proof (pending_returns_set i (Awaiting p)
                  (if (lim <=? S (filesProcessed pool))%nat then Finished else AtLoop)
                  _ Hw) as A.
    assert (B : pending_result
                  (if (lim <=? S (filesProcessed pool))%nat then Finished else AtLoop)
                = false) by (destruct (lim <=? _)%nat; reflexivity).
    rewrite B in A. cbn [pending_result] in A.
    unfold per_file_settle.
    destruct (processStructuredFile_result p);
      constructor; cbn [state workers fileCount callbackCalls]; try assumption; lia.
  - constructor; assumption.
  - constructor; assumption.
Qed.

Lemma walk_invariant_run (lim : nat) (schedule : list nat) (pool : @Pool Walk Started) :
  walk_invariant pool ->
  walk_invariant (run path_join walk_call per_file_settle inputDirectory lim schedule pool).
Proof.
  unfold run. revert pool. induction schedule as [|i r IH]; intros pool H; simpl.
  - exact H.
  - apply IH. now apply walk_invariant_step.
Qed.

(** The count of a walk that has returned is the number of callback calls
    that returned normally, and the callback was called for files that
    decoded to a date of the range only. *)
Lemma forEachFileIn_count (options : Options) (schedule : list nat) (w : Walk) :
  forEachFileIn glob path_join walk_call per_file_settle inputDirectory options
                schedule {| fileCount := O; callbackCalls := [] |} = Some w ->
  fileCount w = calls_returned (callbackCalls w)
  /\ Forall (fun call => decodes_in_range (fst call) (snd call)) (callbackCalls w).
Proof.
  unfold forEachFileIn.
  set (pool := run _ _ _ _ _ _ _).
  destruct (all_finished pool) eqn:F; [|discriminate].
  intros H. injection H as <-.
  assert (Hinv : walk_invariant pool).
  { apply walk_invariant_run.
    constructor; cbn [start state workers fileCount callbackCalls]; [|constructor].
    unfold pending_returns, calls_returned.
    induction (or_default (concurrency options) 1) as [|n IH]; simpl; [reflexivity | exact IH]. }
  destruct Hinv as [Hcount Hcalls]. split; [|assumption].
  rewrite pending_returns_finished in Hcount by exact F. lia.
Qed.

End CountOfAWalk.

Section CountOfProcess.

Import Storage Structured.

(** [path.join] and [path.relative] on a directory and a relative path
    that need no normalisation, for the examples. *)
Definition plain_join (directory file : string) : string :=
  directory ++ "/" ++ file.

Definition plain_relative (directory filePath : string) : string :=
  RegExp.drop (String.length directory + 1) filePath.

Definition failing_callback : Callback :=
  fun _ _ => Throw (GenericError "callback failed").

Definition one_file_walk (callback : Callback) : Result (option Walk) :=
  process_walk (fun _ _ => ["2022/01/15/0830-test.txt"]) plain_join plain_relative
    (Some StructureDay) (Some ["time"]) (Some ["txt"]) Dayjs.UTC 1672531200000
    (Some (Some 1640995200000)) (Some (Some 1672531200000)) None []
    "/input" callback None [0; 0; 0]%nat.




End CountOfProcess.

(* ------------------------------------------------------------------ *)
(** ** The decoder on tokens it cannot read *)
(* ------------------------------------------------------------------ *)

Section DecodeFailures.

Import Structured.

(** [path.basename(filename, path.extname(filename))] *)
Definition stem_of (filename : string) : string :=
  Path.basename filename (Path.extname filename).

(** The tokens of the file name: the stem without its leading and
    trailing characters that are neither letter nor number, split at
    hyphens and underscores. *)
Definition stem_tokens (filename : string) : list string :=
  split dash_or_underscore (trim not_letter_or_number (stem_of filename)).

(** The tokens a structure reads the year, the month, the day and the
    time from: leading path components first, then the tokens of the file
    name.  [None] is a token that is not there. *)
Record Tokens : Type := mkTokens {
  year_token : option string;
  month_token : option string;
  day_token : option string;
  time_token : option string
}.

Definition tokens_of (s : FilesystemStructure) (relativePath filename : string)
  : Tokens :=
  let dirs := split Path.is_sep relativePath in
  let parts := stem_tokens filename in
  match s with
  | StructureNone =>
      mkTokens (nth_error parts 0) (nth_error parts 1) (nth_error parts 2)
               (nth_error parts 3)
  | StructureYear =>
      mkTokens (nth_error dirs 0) (nth_error parts 0) (nth_error parts 1)
               (nth_error parts 2)
  | StructureMonth =>
      mkTokens (nth_error dirs 0) (nth_error dirs 1) (nth_error parts 0)
               (nth_error parts 1)
  | StructureDay =>
      mkTokens (nth_error dirs 0) (nth_error dirs 1) (nth_error dirs 2)
               (nth_error parts 0)
  end.

(** A token that is missing, or that [parseInt] reads as NaN. *)
Definition missing_or_not_numeric (token : option string) : bool :=
  match token with
  | Some t => isNaN (parseInt t)
  | None => true
  end.

(** A text that reads as a number outside [lo..hi]. *)
Definition numeric_outside (lo hi : Z) (text : string) : bool :=
  match parseInt text with
  | Some v => (v <? lo) || (hi <? v)
  | None => false
  end.

(** Missing, not numeric, or out of range. *)
Definition bad_field (lo hi : Z) (token : option string) : bool :=
  missing_or_not_numeric token
  || match token with Some t => numeric_outside lo hi t | None => false end.

(** The time token in the words of the specification: missing, or an hour
    (its first two characters) or a minute (the next two) that is not
    numeric or out of range. *)
Definition bad_time_as_specified (token : option string) : bool :=
  match token with
  | Some t => bad_field 0 23 (Some (substring 0 2 t))
              || bad_field 0 59 (Some (substring 2 4 t))
  | None => true
  end.

(** The time tokens the code refuses under every structure: missing,
    shorter than four characters, or with a numeric hour or minute out of
    range. *)
Definition bad_time (token : option string) : bool :=
  match token with
  | Some t => (String.length t <? 4)%nat
              || numeric_outside 0 23 (substring 0 2 t)
              || numeric_outside 0 59 (substring 2 4 t)
  | None => true
  end.

(** Some token is bad; the time token counts only when the time is
    parsed. *)
Definition bad_tokens (time_check : option string -> bool) (shouldParseTime : bool)
           (t : Tokens) : bool :=
  missing_or_not_numeric (year_token t)
  || bad_field 1 12 (month_token t)
  || bad_field 1 31 (day_token t)
  || (shouldParseTime && time_check (time_token t)).

(** What [read_time] has read when the time is parsed. *)
Definition time_read (flag : bool) (token : option string) (numbers : Numbers)
  : Prop :=
  if flag
  then exists t, token = Some t /\ (4 <= String.length t)%nat
                 /\ n_h numbers = parseInt (substring 0 2 t)
                 /\ n_mi numbers = parseInt (substring 2 4 t)
  else True.

Lemma build_date_some (numbers : Numbers) (date : JSDate.Date) :
  build_date numbers = Return (Some date) ->
  exists y mo d,
    n_y numbers = Some y /\ n_mo numbers = Some mo /\ n_d numbers = Some d
    /\ 0 <= mo <= 11 /\ 1 <= d <= 31
    /\ (forall h, n_h numbers = Some h -> 0 <= h <= 23)
    /\ (forall mi, n_mi numbers = Some mi -> 0 <= mi <= 59).
Proof.
  unfold build_date.
  destruct (n_y numbers) as [y|]; [|discriminate].
  destruct (n_mo numbers) as [mo|]; [|discriminate].
  destruct (n_d numbers) as [d|]; [|discriminate].
  set (h := match n_h numbers with Some v => v | None => 0 end).
  set (mi := match n_mi numbers with Some v => v | None => 0 end).
  destruct ((mo <? 0) || (mo >? 11) || (d <? 1) || (d >? 31) || (h <? 0) || (h >? 23)
            || (mi <? 0) || (mi >? 59)) eqn:E; [discriminate|].
  intros _. exists y, mo, d.
  repeat (apply orb_false_iff in E; destruct E as [E ?]).
  repeat split; try lia;
    subst h mi;
    match goal with Hx : _ = Some _ |- _ => rewrite Hx in * end; lia.
Qed.

Lemma parseDateFromString_some (str : string) (fmt : DateFormat) (flag : bool)
      (y m d : option Z) (date : JSDate.Date) :
  parseDateFromString str fmt flag y m d = Some date ->
  exists numbers,
    read_numbers fmt flag y m d
      (split dash_or_underscore (trim not_letter_or_number str))
    = Return (Some numbers)
    /\ build_date numbers = Return (Some date).
Proof.
  unfold parseDateFromString.
  destruct (negb (truthy str)); [discriminate|].
  rewrite replace_edge_run_of.
  destruct (read_numbers _ _ _ _ _ _) as [[numbers|]|e]; cbn; try discriminate.
  intros H. exists numbers. split; [reflexivity|].
  destruct (build_date numbers) as [[x|]|]; cbn in H; congruence.
Qed.

Lemma read_time_some (exactly : bool) (token : option string) (h mi : option Z) :
  read_time exactly token = Return (Some (h, mi)) ->
  exists t, token = Some t /\ (4 <= String.length t)%nat
            /\ h = parseInt (substring 0 2 t) /\ mi = parseInt (substring 2 4 t).
Proof.
  unfold read_time. destruct token as [t|]; [|discriminate].
  destruct exactly.
  - destruct (String.length t =? 4)%nat eqn:E; [|discriminate].
    apply Nat.eqb_eq in E. cbn. intros H. injection H as <- <-.
    exists t. repeat split; lia.
  - destruct (String.length t <? 4)%nat eqn:E; [discriminate|].
    apply Nat.ltb_ge in E. cbn. intros H. injection H as <- <-.
    exists t. repeat split; lia.
Qed.

Lemma with_time_some (flag exactly : bool) (y mo d : option Z)
      (token : option string) (numbers : Numbers) :
  (if flag
   then bind (read_time exactly token) (fun hm =>
          match hm with
          | None => Return None
          | Some (h', mi') => Return (Some (mkNumbers y mo d h' mi'))
          end)
   else Return (Some (mkNumbers y mo d (Some 0) (Some 0)))) = Return (Some numbers) ->
  n_y numbers = y /\ n_mo numbers = mo /\ n_d numbers = d
  /\ time_read flag token numbers.
Proof.
  unfold time_read. destruct flag.
  - destruct (read_time exactly token) as [[[h mi]|]|] eqn:T; cbn; try discriminate.
    intros H. injection H as <-. cbn. repeat split.
    apply read_time_some in T. destruct T as (t & ? & ? & ? & ?). exists t. auto.
  - intros H. injection H as <-. cbn. auto.
Qed.

(** The numbers the [switch] leaves, token by token. *)
Lemma read_numbers_some (fmt : DateFormat) (flag : bool) (year month day : option Z)
      (parts : list string) (numbers : Numbers) :
  read_numbers fmt flag year month day parts = Return (Some numbers) ->
  match fmt with
  | YYYY_M_D_HHmm =>
      n_y numbers = parseInt_opt (part parts 0)
      /\ n_mo numbers = minus_one (parseInt_opt (part parts 1))
      /\ n_d numbers = parseInt_opt (part parts 2)
      /\ time_read flag (part parts 3) numbers
  | M_D_HHmm =>
      n_y numbers = year
      /\ n_mo numbers = minus_one (parseInt_opt (part parts 0))
      /\ n_d numbers = parseInt_opt (part parts 1)
      /\ time_read flag (part parts 2) numbers
  | D_HHmm =>
      n_y numbers = year /\ n_mo numbers = month
      /\ n_d numbers = parseInt_opt (part parts 0)
      /\ time_read flag (part parts 1) numbers
  | HHmm =>
      n_y numbers = year /\ n_mo numbers = month /\ n_d numbers = day
      /\ time_read flag (part parts 0) numbers
  end.
Proof.
  unfold read_numbers. destruct fmt.
  - destruct (_ && flag); [discriminate|].
    destruct (_ && negb flag); [discriminate|].
    apply with_time_some.
  - destruct year as [y|]; [|discriminate].
    destruct (_ && flag); [discriminate|].
    destruct (_ && negb flag); [discriminate|].
    apply with_time_some.
  - destruct year as [y|]; [|discriminate].
    destruct month as [m|]; [|discriminate].
    destruct (_ && flag); [discriminate|].
    destruct (_ && negb flag); [discriminate|].
    apply with_time_some.
  - destruct year as [y|]; [|discriminate].
    destruct month as [m|]; [|discriminate].
    destruct day as [d|]; [|discriminate].
    apply with_time_some.
Qed.

Lemma good_field (lo hi : Z) (token : option string) (v : Z) :
  parseInt_opt token = Some v -> lo <= v <= hi -> bad_field lo hi token = false.
Proof.
  unfold bad_field, missing_or_not_numeric, numeric_outside.
  destruct token as [t|]; [|discriminate]. cbn. intros -> H. cbn.
  apply orb_false_iff. split; lia.
Qed.

Lemma good_year (token : option string) (v : Z) :
  parseInt_opt token = Some v -> missing_or_not_numeric token = false.
Proof.
  unfold missing_or_not_numeric. destruct token as [t|]; [|discriminate].
  cbn. now intros ->.
Qed.

Lemma minus_one_some (x : option Z) (v : Z) :
  minus_one x = Some v -> x = Some (v + 1).
Proof.
  destruct x as [w|]; [|discriminate]. cbn. intros H. injection H as <-.
  f_equal. lia.
Qed.

Lemma good_time_read (flag : bool) (token : option string) (numbers : Numbers) :
  time_read flag token numbers ->
  (forall h, n_h numbers = Some h -> 0 <= h <= 23) ->
  (forall mi, n_mi numbers = Some mi -> 0 <= mi <= 59) ->
  flag && bad_time token = false.
Proof.
  unfold time_read. destruct flag; [|reflexivity].
  intros (t & -> & Hl & Hh & Hm) H1 H2. cbn [andb]. unfold bad_time, numeric_outside.
  rewrite <- Hh, <- Hm.
  destruct (String.length t <? 4)%nat eqn:E; [apply Nat.ltb_lt in E; lia|].
  destruct (n_h numbers) as [h|]; destruct (n_mi numbers) as [mi|]; cbn;
    try specialize (H1 _ eq_refl); try specialize (H2 _ eq_refl);
    repeat (apply orb_false_iff; split); try reflexivity; lia.
Qed.

(** The tokens of a string that decodes. *)
Lemma decoded_string_tokens (str : string) (fmt : DateFormat) (flag : bool)
      (year month day : option Z) (date : JSDate.Date) :
  parseDateFromString str fmt flag year month day = Some date ->
  exists numbers y mo d,
    read_numbers fmt flag year month day
      (split dash_or_underscore (trim not_letter_or_number str))
    = Return (Some numbers)
    /\ n_y numbers = Some y /\ n_mo numbers = Some mo /\ n_d numbers = Some d
    /\ 0 <= mo <= 11 /\ 1 <= d <= 31
    /\ forall token, time_read flag token numbers -> flag && bad_time token = false.
Proof.
  intros H. apply parseDateFromString_some in H. destruct H as (numbers & Hr & Hb).
  apply build_date_some in Hb.
  destruct Hb as (y & mo & d & Hy & Hmo & Hd & Rm & Rd & Rh & Rmi).
  exists numbers, y, mo, d. repeat split; try assumption; try lia.
  intros token Ht. now apply (good_time_read flag token numbers).
Qed.

(** A path that decodes to a date has no bad token. *)
Lemma decoded_path_good_tokens (s : FilesystemStructure) (flag : bool)
      (relativePath filename : string) (date : JSDate.Date) :
  parseDateFromFilePath relativePath filename (structure_name s) flag
  = Return (Some date) ->
  bad_tokens bad_time flag (tokens_of s relativePath filename) = false.
Proof.
  unfold parseDateFromFilePath, tokens_of, stem_tokens, stem_of, bad_tokens.
  set (dirs := split Path.is_sep relativePath).
  set (parts := split dash_or_underscore _).
  destruct s; cbn [structure_name String.eqb Ascii.eqb Bool.eqb
                   year_token month_token day_token time_token].
  - intros H. injection H as H. apply decoded_string_tokens in H.
    destruct H as (numbers & y & mo & d & Hr & Hy & Hmo & Hd & Rm & Rd & Rt).
    fold parts in Hr. apply read_numbers_some in Hr. destruct Hr as (Ey & Emo & Ed & Et).
    rewrite Ey in Hy. rewrite Emo in Hmo. rewrite Ed in Hd.
    apply minus_one_some in Hmo. unfold part in *.
    rewrite (good_year _ _ Hy), (good_field 1 12 _ _ Hmo), (good_field 1 31 _ _ Hd) by lia.
    now rewrite (Rt _ Et).
  - destruct (1 <=? List.length dirs)%nat; [|discriminate].
    unfold part.
    destruct (parseInt_opt (nth_error dirs 0)) as [year|] eqn:Y; [|discriminate].
    intros H. injection H as H. apply decoded_string_tokens in H.
    destruct H as (numbers & y & mo & d & Hr & Hy & Hmo & Hd & Rm & Rd & Rt).
    fold parts in Hr. apply read_numbers_some in Hr. destruct Hr as (Ey & Emo & Ed & Et).
    rewrite Emo in Hmo. rewrite Ed in Hd.
    apply minus_one_some in Hmo. unfold part in *.
    rewrite (good_year _ _ Y), (good_field 1 12 _ _ Hmo), (good_field 1 31 _ _ Hd) by lia.
    now rewrite (Rt _ Et).
  - destruct (2 <=? List.length dirs)%nat; [|discriminate].
    unfold part.
    destruct (parseInt_opt (nth_error dirs 0)) as [year|] eqn:Y; [|discriminate].
    destruct (parseInt_opt (nth_error dirs 1)) as [monthDir|] eqn:M; [|discriminate].
    destruct ((1 <=? monthDir) && (monthDir <=? 12)) eqn:R; [|discriminate].
    intros H. injection H as H. apply decoded_string_tokens in H.
    destruct H as (numbers & y & mo & d & Hr & Hy & Hmo & Hd & Rm & Rd & Rt).
    fold parts in Hr. apply read_numbers_some in Hr. destruct Hr as (Ey & Emo & Ed & Et).
    rewrite Ed in Hd. unfold part in *.
    apply andb_true_iff in R.
    rewrite (good_year _ _ Y), (good_field 1 12 _ _ M), (good_field 1 31 _ _ Hd) by lia.
    now rewrite (Rt _ Et).
  - destruct (3 <=? List.length dirs)%nat; [|discriminate].
    unfold part.
    destruct (parseInt_opt (nth_error dirs 0)) as [year|] eqn:Y; [|discriminate].
    destruct (parseInt_opt (nth_error dirs 1)) as [monthDir|] eqn:M; [|discriminate].
    destruct (parseInt_opt (nth_error dirs 2)) as [day|] eqn:D; [|discriminate].
    destruct ((1 <=? monthDir) && (monthDir <=? 12) && (1 <=? day) && (day <=? 31)) eqn:R;
      [|discriminate].
    intros H. injection H as H. apply decoded_string_tokens in H.
    destruct H as (numbers & y & mo & d & Hr & Hy & Hmo & Hd & Rm & Rd & Rt).
    fold parts in Hr. apply read_numbers_some in Hr. destruct Hr as (Ey & Emo & Ed & Et).
    unfold part in *.
    repeat (apply andb_true_iff in R; destruct R as [R ?]).
    rewrite (good_year _ _ Y), (good_field 1 12 _ _ M), (good_field 1 31 _ _ D) by lia.
    now rewrite (Rt _ Et).
Qed.

(** Under each of the four structures the decoder returns; only a
    structure outside them makes it throw. *)
Lemma parseDateFromFilePath_returns (s : FilesystemStructure) (flag : bool)
      (relativePath filename : string) :
  exists r, parseDateFromFilePath relativePath filename (structure_name s) flag
            = Return r.
Proof.
  unfold parseDateFromFilePath.
  destruct s; cbn [structure_name String.eqb Ascii.eqb Bool.eqb];
    repeat match goal with
           | |- exists r, Return _ = Return r => eexists; reflexivity
           | |- context [if ?b then _ else _] => destruct b
           | |- context [match ?x with Some _ => _ | None => _ end] => destruct x
           end.
Qed.

Lemma parseDateFromFilePath_unknown_structure :
  parseDateFromFilePath "2022" "01-15-0830-test.txt" "week" true
  = Throw (GenericError ("Unknown input structure " ++ quote ++ "week" ++ quote
                         ++ " specified.")).
Proof. reflexivity. Qed.

(** A time token of four characters or more with an hour or a minute
    that is not numeric does not make the decoder fail: [h] and [mi] are
    set to 0 when they are NaN, and the date is returned with the time
    00:00. *)
Lemma parseDateFromFilePath_reads_non_numeric_time_as_midnight :
  bad_tokens bad_time_as_specified true
    (tokens_of StructureNone "" "2022-01-15-test.txt") = true
  /\ parseDateFromFilePath "" "2022-01-15-test.txt" "none" true
     = Return (Some (Some 1642204800000)).
Proof. split; vm_compute; reflexivity. Qed.

(** Under every structure and with either value of
    [shouldParseTime], a path and a file name with a bad token decode to
    [null], and nothing is thrown.  A token is bad when it is missing (too
    few tokens for the structure), when the year, the month or the day is
    not numeric, when the month is outside 1..12 or the day outside 1..31,
    and, when the time is parsed, when the time token is shorter than four
    characters or its hour is a number outside 0..23 or its minute a
    number outside 0..59. *)
Theorem parseDateFromFilePath_rejects_bad_tokens (s : FilesystemStructure)
        (flag : bool) (relativePath filename : string) :
  bad_tokens bad_time flag (tokens_of s relativePath filename) = true ->
  parseDateFromFilePath relativePath filename (structure_name s) flag = Return None.
Proof.
  intros Hbad.
  destruct (parseDateFromFilePath_returns s flag relativePath filename) as ([date|] & Hr).
  - apply decoded_path_good_tokens in Hr. congruence.
  - exact Hr.
Qed.

(** A month 13 under the structure [year]. *)
Lemma parseDateFromFilePath_rejects_bad_tokens_witness :
  parseDateFromFilePath "2022" "13-15-0830-test.txt" "year" true = Return None.
Proof.
  apply (parseDateFromFilePath_rejects_bad_tokens
           StructureYear true "2022" "13-15-0830-test.txt").
  vm_compute. reflexivity.
Defined.

(** More of the tokens that are refused, and the scenarios of the
    specification that decode. *)
Example decode_rejects_missing_time :
  parseDateFromFilePath "" "2022-01-15.txt" "none" true = Return None.
Proof. vm_compute. reflexivity. Qed.

Example decode_rejects_hour_24 :
  parseDateFromFilePath "2022/01/15" "2430-test.txt" "day" true = Return None.
Proof. vm_compute. reflexivity. Qed.

Example decode_rejects_word_for_month :
  parseDateFromFilePath "2022/jan" "15-0830-test.txt" "month" true = Return None.
Proof. vm_compute. reflexivity. Qed.

Example decode_day_scenario :
  parseDateFromFilePath "2022/01/15" "0830-test.txt" "day" true
  = Return (Some (Some 1642235400000)).
Proof. vm_compute. reflexivity. Qed.

Example decode_year_scenario :
  parseDateFromFilePath "2022" "01-15-0830-test.txt" "year" true
  = Return (Some (Some 1642235400000)).
Proof. vm_compute. reflexivity. Qed.

End DecodeFailures.

(* ------------------------------------------------------------------ *)
(** ** The round trip of the date-path codec *)
(* ------------------------------------------------------------------ *)

Section DatePathCodec.

Import Structured Output.

(** *** Digits *)


Lemma is_digit_other_classes (c : ascii) :
  is_digit c = true ->
  is_white_space c = false /\ dash_or_underscore c = false
  /\ Path.is_sep c = false /\ Path.is_dot c = false
  /\ not_letter_or_number c = false
  /\ c <> "-"%char /\ c <> "+"%char.
Proof.
  destruct c as [[] [] [] [] [] [] [] []]; intros H; try discriminate H;
    repeat split; try reflexivity; discriminate.
Qed.

Lemma digit_char_digit (d : Z) :
  0 <= d <= 9 -> is_digit (digit_char d) = true /\ digit_value (digit_char d) = d.
Proof.
  intros H.
  assert (C : d = 0 \/ d = 1 \/ d = 2 \/ d = 3 \/ d = 4 \/ d = 5 \/ d = 6
              \/ d = 7 \/ d = 8 \/ d = 9) by lia.
  repeat (destruct C as [-> | C]; [split; reflexivity|]). subst d. split; reflexivity.
Qed.

Lemma digits_value_snoc (a : Z) (s : string) (c : ascii) :
  forall_chars is_digit s = true -> is_digit c = true ->
  digits_value a (s ++ String c EmptyString) = 10 * digits_value a s + digit_value c.
Proof.
  revert a. induction s as [|x r IH]; intros a Hs Hc; simpl.
  - now rewrite Hc.
  - simpl in Hs. apply andb_true_iff in Hs. destruct Hs as [Hx Hr].
    rewrite Hx. now apply IH.
Qed.

(** A non-empty string of decimal digits that reads as [n]. *)
Definition numeral (s : string) (n : Z) : Prop :=
  forall_chars is_digit s = true /\ truthy s = true /\ digits_value 0 s = n.

Lemma decimal_numeral (fuel : nat) (n : Z) (acc : string) :
  0 <= n -> (Z.to_nat n <= fuel)%nat ->
  exists ds, decimal fuel n acc = ds ++ acc /\ numeral ds n.
Proof.
  revert n acc. induction fuel as [|f IH]; intros n acc Hn Hf.
  - assert (n = 0) by lia. subst n.
    exists "0". repeat split.
  - cbn [decimal]. destruct (n <? 10) eqn:E.
    + apply Z.ltb_lt in E. exists (String (digit_char (n mod 10)) EmptyString).
      assert (M : n mod 10 = n) by (apply Z.mod_small; lia).
      rewrite M. destruct (digit_char_digit n ltac:(lia)) as [D1 D2].
      repeat split.
      * simpl. now rewrite D1.
      * simpl. rewrite D1. lia.
    + apply Z.ltb_ge in E.
      destruct (IH (n / 10) (String (digit_char (n mod 10)) acc)) as (ds & Hds & Hall & Ht & Hv).
      * apply Z.div_pos; lia.
      * assert (n / 10 < n) by (apply Z.div_lt; lia). 
        assert (0 <= n / 10) by (apply Z.div_pos; lia). lia.
      * exists (ds ++ String (digit_char (n mod 10)) EmptyString).
        destruct (digit_char_digit (n mod 10)) as [D1 D2].
        { pose proof (Z.mod_pos_bound n 10). lia. }
        repeat split.
        -- rewrite Hds, append_assoc. reflexivity.
        -- rewrite forall_chars_append, Hall. simpl. now rewrite D1.
        -- destruct ds; [discriminate | reflexivity].
        -- rewrite digits_value_snoc, Hv, D2 by assumption.
           pose proof (Z.div_mod n 10). lia.
Qed.

Lemma String_of_number_numeral (n : Z) : 0 <= n -> numeral (String_of_number n) n.
Proof.
  intros H. unfold String_of_number.
  destruct (n <? 0) eqn:E; [apply Z.ltb_lt in E; lia|].
  destruct (decimal_numeral (Z.to_nat n) n EmptyString H (le_n _)) as (ds & Hds & Hnum).
  rewrite Hds, append_empty_r. exact Hnum.
Qed.

Lemma padStart_numeral (w : nat) (s : string) (n : Z) :
  numeral s n -> numeral (padStart w s) n.
Proof.
  intros (Ha & Ht & Hv). unfold padStart.
  induction (w - String.length s)%nat as [|k IH]; simpl; [repeat split; assumption|].
  destruct IH as (Ha' & Ht' & Hv'). repeat split; assumption.
Qed.

Lemma parseInt_numeral (s : string) (n : Z) : numeral s n -> parseInt s = Some n.
Proof.
  intros (Ha & Ht & Hv). unfold parseInt.
  destruct s as [|c r]; [discriminate|].
  simpl in Ha. apply andb_true_iff in Ha. destruct Ha as [Hc Hr].
  destruct (is_digit_other_classes c Hc) as (W & _ & _ & _ & _ & N1 & N2).
  cbn [drop_while]. rewrite W.
  assert (E : (let '(negative, s2) :=
                 match String c r with
                 | String "-"%char r0 => (true, r0)
                 | String "+"%char r0 => (false, r0)
                 | _ => (false, String c r)
                 end in
               match s2 with
               | String c0 _ =>
                   if is_digit c0
                   then Some (if negative : bool then - digits_value 0 s2 else digits_value 0 s2)
                   else None
               | EmptyString => None
               end) = Some (digits_value 0 (String c r))).
  { destruct c as [[] [] [] [] [] [] [] []]; try discriminate Hc; reflexivity. }
  rewrite E, Hv. reflexivity.
Qed.

Lemma two_digits_chars (v : Z) :
  0 <= v <= 99 ->
  padStart 2 (String_of_number v)
  = String (digit_char (v / 10)) (String (digit_char (v mod 10)) EmptyString).
Proof.
  intros H. unfold String_of_number.
  destruct (v <? 0) eqn:E; [apply Z.ltb_lt in E; lia|].
  destruct (v <? 10) eqn:E10.
  - apply Z.ltb_lt in E10.
    assert (D : decimal (Z.to_nat v) v EmptyString = String (digit_char (v mod 10)) EmptyString).
    { destruct (Z.to_nat v); cbn [decimal]; [reflexivity|].
      now rewrite (proj2 (Z.ltb_lt v 10) E10). }
    rewrite D. replace (v / 10) with 0 by (symmetry; apply Z.div_small; lia). reflexivity.
  - apply Z.ltb_ge in E10.
    destruct (Z.to_nat v) as [|f] eqn:F; [lia|].
    cbn [decimal]. rewrite (proj2 (Z.ltb_ge v 10) E10).
    assert (Q : v / 10 < 10) by (apply Z.div_lt_upper_bound; lia).
    assert (Q0 : 0 <= v / 10) by (apply Z.div_pos; lia).
    assert (D : decimal f (v / 10) (String (digit_char (v mod 10)) EmptyString)
                = String (digit_char ((v / 10) mod 10)) (String (digit_char (v mod 10)) EmptyString)).
    { destruct f; cbn [decimal]; [reflexivity|].
      now rewrite (proj2 (Z.ltb_lt (v / 10) 10) Q). }
    rewrite D. rewrite (Z.mod_small (v / 10)) by lia. reflexivity.
Qed.

(** Splitting and joining *)

Lemma split_not_nil p (s : string) : split p s <> [].
Proof.
  destruct s as [|c r]; simpl; [discriminate|].
  destruct (p c); [discriminate|]. destruct (split p r); discriminate.
Qed.

Lemma split_free p (a : string) :
  exists_char p a = false -> split p a = [a].
Proof.
  induction a as [|c r IH]; simpl; [reflexivity|].
  intros H. apply orb_false_iff in H. destruct H as [Hc Hr].
  now rewrite Hc, (IH Hr).
Qed.

Lemma split_app_sep p (a : string) (c : ascii) (x : string) :
  p c = true -> split p (a ++ String c x) = (split p a ++ split p x)%list.
Proof.
  intros Hc. induction a as [|y r IH]; simpl.
  - now rewrite Hc.
  - destruct (p y); [now rewrite IH|].
    rewrite IH. destruct (split p r) as [|t ts] eqn:E; [now apply split_not_nil in E|].
    reflexivity.
Qed.

(** [toks] joined by the separator [c], followed by [rest]. *)
Fixpoint joined (c : ascii) (toks : list string) (rest : string) : string :=
  match toks with
  | [] => rest
  | [t] => t ++ rest
  | t :: ts => t ++ String c (joined c ts rest)
  end.

Lemma joined_cons (c : ascii) (t : string) (ts : list string) (rest : string) :
  ts <> [] -> joined c (t :: ts) rest = t ++ String c (joined c ts rest).
Proof. destruct ts; [congruence | reflexivity]. Qed.

Lemma split_joined p (c : ascii) (toks : list string) (rest : string) :
  p c = true -> toks <> [] ->
  Forall (fun t => exists_char p t = false) toks ->
  rest = EmptyString \/ (exists x, rest = String c x) ->
  exists more, split p (joined c toks rest) = (toks ++ more)%list.
Proof.
  intros Hc Hne Hfree Hrest. induction toks as [|t ts IH]; [congruence|].
  inversion Hfree as [|? ? Ht Hts]; subst.
  destruct ts as [|t' ts'].
  - cbn [joined]. destruct Hrest as [-> | (x & ->)].
    + rewrite append_empty_r, (split_free p t Ht). exists []. reflexivity.
    + rewrite split_app_sep, (split_free p t Ht) by assumption.
      exists (split p x). reflexivity.
  - rewrite joined_cons by discriminate.
    rewrite split_app_sep, (split_free p t Ht) by assumption.
    destruct (IH ltac:(discriminate) Hts) as (more & Hm).
    rewrite Hm. exists more. reflexivity.
Qed.

(** Trimming *)

Lemma drop_while_end_prefix p (s : string) :
  exists z, s = drop_while_end p s ++ z.
Proof.
  induction s as [|c r IH]; simpl; [exists EmptyString; reflexivity|].
  destruct IH as (z & Hz).
  destruct (drop_while_end p r) as [|c' r'] eqn:E.
  - destruct (p c).
    + exists (String c r). reflexivity.
    + exists r. reflexivity.
  - exists z. simpl. f_equal. exact Hz.
Qed.

Lemma drop_while_end_app p (a b : string) :
  drop_while_end p (a ++ b)
  = match drop_while_end p b with
    | EmptyString => drop_while_end p a
    | b' => a ++ b'
    end.
Proof.
  induction a as [|c r IH]; simpl.
  - destruct (drop_while_end p b); reflexivity.
  - rewrite IH. destruct (drop_while_end p b) as [|c' b'] eqn:E.
    + reflexivity.
    + destruct (r ++ String c' b') eqn:F; [destruct r; discriminate|]. reflexivity.
Qed.

Lemma drop_while_end_free p (a : string) :
  exists_char p a = false -> drop_while_end p a = a.
Proof.
  induction a as [|c r IH]; simpl; [reflexivity|].
  intros H. apply orb_false_iff in H. destruct H as [Hc Hr].
  rewrite (IH Hr), Hc. destruct r; reflexivity.
Qed.

(** A string that ends with a character outside [p] keeps its end. *)
Definition ends_outside (p : ascii -> bool) (s : string) : Prop :=
  drop_while_end p s = s /\ truthy s = true.

Lemma ends_outside_free p (a : string) :
  exists_char p a = false -> truthy a = true -> ends_outside p a.
Proof. intros H T. split; [now apply drop_while_end_free | exact T]. Qed.

Lemma ends_outside_app p (a b : string) :
  ends_outside p b -> ends_outside p (a ++ b).
Proof.
  intros [Hb Tb]. split.
  - rewrite drop_while_end_app, Hb. destruct b; [discriminate | reflexivity].
  - destruct a; [exact Tb | reflexivity].
Qed.

Lemma trim_keeps p (f rest : string) (c : ascii) :
  (exists c0 r0, f = String c0 r0 /\ p c0 = false) ->
  ends_outside p f ->
  rest = EmptyString \/ (exists x, rest = String c x) ->
  exists rest', trim p (f ++ rest) = f ++ rest'
                /\ (rest' = EmptyString \/ exists x, rest' = String c x).
Proof.
  intros (c0 & r0 & -> & Hc0) [He Te] Hrest. unfold trim.
  cbn [append drop_while]. rewrite Hc0.
  change (String c0 (r0 ++ rest)) with (String c0 r0 ++ rest).
  rewrite drop_while_end_app, He.
  destruct (drop_while_end_prefix p rest) as (z & Hz).
  destruct (drop_while_end p rest) as [|c' r'] eqn:E.
  - exists EmptyString. rewrite append_empty_r. auto.
  - exists (String c' r'). split; [reflexivity|]. right.
    destruct Hrest as [-> | (x & ->)]; [discriminate|].
    simpl in Hz. injection Hz as <- _. exists r'. reflexivity.
Qed.

(** The stem of a file name *)

Lemma last_segment_free (name : string) :
  exists_char Path.is_sep name = false -> Path.last_segment name = name.
Proof.
  intros H. unfold Path.last_segment. rewrite (split_free _ _ H).
  destruct name; reflexivity.
Qed.

Lemma split_last_dot_app (f r : string) :
  exists_char Path.is_dot f = false ->
  Path.split_last_dot (f ++ r)
  = match Path.split_last_dot r with
    | Some (a, e) => Some (f ++ a, e)
    | None => None
    end.
Proof.
  induction f as [|c f IH]; simpl.
  - intros _. destruct (Path.split_last_dot r) as [[a e]|]; reflexivity.
  - intros H. apply orb_false_iff in H. destruct H as [Hc Hf].
    rewrite (IH Hf). destruct (Path.split_last_dot r) as [[a e]|]; [reflexivity|].
    now rewrite Hc.
Qed.

Lemma split_last_dot_some (s a e : string) :
  Path.split_last_dot s = Some (a, e) -> s = a ++ e /\ truthy e = true.
Proof.
  revert a e. induction s as [|c r IH]; intros a e; simpl; [discriminate|].
  destruct (Path.split_last_dot r) as [[a' e']|].
  - intros H. injection H as <- <-. destruct (IH a' e' eq_refl) as [-> T].
    split; [reflexivity | exact T].
  - destruct (Path.is_dot c); [|discriminate].
    intros H. injection H as <- <-. split; reflexivity.
Qed.

Lemma eqb_app_longer (x e : string) :
  truthy x = true -> String.eqb (x ++ e) e = false.
Proof.
  intros T. apply String.eqb_neq. intros H.
  apply (f_equal String.length) in H. rewrite length_append in H.
  destruct x; [discriminate | simpl in H; lia].
Qed.

Lemma strip_suffix_app (a e : string) : Path.strip_suffix (a ++ e) e = Some a.
Proof.
  induction a as [|c a IH].
  - cbn [append]. destruct e; cbn [Path.strip_suffix]; rewrite String.eqb_refl; reflexivity.
  - cbn [append Path.strip_suffix].
    change (String c (a ++ e)) with (String c a ++ e).
    rewrite eqb_app_longer by reflexivity.
    cbn [append]. now rewrite IH.
Qed.

(** The stem of a name without separator: the name itself, or the name up
    to its last dot, and never empty for a non-empty name. *)
Lemma stem_of_free (name : string) :
  exists_char Path.is_sep name = false ->
  stem_of name = name
  \/ exists a e, Path.split_last_dot name = Some (a, e)
                 /\ truthy a = true /\ stem_of name = a.
Proof.
  intros H. unfold stem_of, Path.extname, Path.basename.
  rewrite (last_segment_free name H).
  destruct (Path.split_last_dot name) as [[a e]|] eqn:S; [|left; reflexivity].
  destruct (negb (truthy a) || String.eqb name "..") eqn:C; [left; reflexivity|].
  apply orb_false_iff in C. destruct C as [Ca _]. apply negb_false_iff in Ca.
  destruct (split_last_dot_some _ _ _ S) as [-> Te].
  right. exists a, e. split; [reflexivity|]. split; [exact Ca|].
  rewrite Te. cbn [negb]. rewrite eqb_app_longer by exact Ca.
  rewrite strip_suffix_app. destruct a; [discriminate | reflexivity].
Qed.

Lemma stem_of_truthy (name : string) :
  exists_char Path.is_sep name = false -> truthy name = true ->
  truthy (stem_of name) = true.
Proof.
  intros H T. destruct (stem_of_free name H) as [-> | (a & e & _ & Ta & ->)]; assumption.
Qed.

Lemma stem_of_keeps (f rest : string) (c : ascii) :
  exists_char Path.is_sep (f ++ rest) = false ->
  exists_char Path.is_dot f = false ->
  rest = EmptyString \/ (exists x, rest = String c x) ->
  exists rest', stem_of (f ++ rest) = f ++ rest'
                /\ (rest' = EmptyString \/ exists x, rest' = String c x).
Proof.
  intros Hs Hd Hrest.
  destruct (stem_of_free _ Hs) as [-> | (a & e & S & Ta & ->)].
  - exists rest. auto.
  - rewrite (split_last_dot_app f rest Hd) in S.
    destruct (Path.split_last_dot rest) as [[a' e']|] eqn:R; [|discriminate].
    injection S as <- <-. exists a'. split; [reflexivity|].
    destruct (split_last_dot_some _ _ _ R) as [Eq Te].
    destruct a' as [|c' r']; [left; reflexivity|]. right.
    destruct Hrest as [-> | (x & ->)]; [discriminate|].
    simpl in Eq. injection Eq as <- _. exists r'. reflexivity.
Qed.

(** Building the date *)

Lemma daysInMonth_le_31 (y m : Z) : JSDate.daysInMonth y m <= 31.
Proof.
  unfold JSDate.daysInMonth.
  destruct (m =? 1); [destruct (JSDate.isLeapYear y); lia|].
  destruct (_ || _); lia.
Qed.

Lemma MakeDay_bounds (y m d : Z) :
  -271820 <= y <= 275759 -> 0 <= m <= 11 -> 1 <= d <= 31 ->
  -100000000 < JSDate.MakeDay y m d < 100000000.
Proof.
  intros Hy Hm Hd. unfold JSDate.MakeDay.
  assert (M: m / 12 = 0) by (Z.div_mod_to_equations; lia).
  assert (M2: m mod 12 = m) by (Z.div_mod_to_equations; lia).
  rewrite M, M2, Z.add_0_r.
  destruct (m <? 2) eqn:E; [apply Z.ltb_lt in E | apply Z.ltb_ge in E];
    Z.div_mod_to_equations; lia.
Qed.

(** The instant with the given calendar fields in UTC. *)
Definition utc_instant (y mo d h mi : Z) : Z :=
  JSDate.MakeDate (JSDate.MakeDay y mo d) (JSDate.MakeTime h mi 0 0).

Definition valid_fields (y mo d h mi : Z) : Prop :=
  valid_day y mo d /\ 0 <= h <= 23 /\ 0 <= mi <= 59.

Lemma UTC_valid (y mo d h mi : Z) :
  valid_fields y mo d h mi -> 100 <= y <= 275759 ->
  JSDate.UTC y mo d h mi = Some (utc_instant y mo d h mi)
  /\ Dayjs.utc_wall (utc_instant y mo d h mi) = Dayjs.mkFields y mo d h mi.
Proof.
  intros ([Hm Hd] & Hh & Hmi) Hy.
  pose proof (daysInMonth_le_31 y mo) as L.
  pose proof (MakeDay_bounds y mo d ltac:(lia) Hm ltac:(lia)) as B.
  destruct (time_of_day (JSDate.MakeDay y mo d) h mi Hh Hmi) as (T1 & T2 & T3).
  split.
  - unfold JSDate.UTC.
    destruct ((0 <=? y) && (y <=? 99)) eqn:E;
      [apply andb_true_iff in E; destruct E as [_ E]; apply Z.leb_le in E; lia|].
    fold (utc_instant y mo d h mi). unfold JSDate.TimeClip.
    destruct (Z.abs (utc_instant y mo d h mi) >? JSDate.maxTime) eqn:C; [|reflexivity].
    apply Z.gtb_lt in C. exfalso. revert C.
    unfold utc_instant, JSDate.MakeDate, JSDate.MakeTime, JSDate.maxTime,
      JSDate.msPerDay, JSDate.msPerHour, JSDate.msPerMinute. lia.
  - unfold Dayjs.utc_wall, JSDate.YearFromTime, JSDate.MonthFromTime, JSDate.DateFromTime.
    unfold utc_instant. rewrite T1, T2, T3.
    rewrite (civil_MakeDay y mo d (conj Hm Hd)). reflexivity.
Qed.

Lemma build_date_valid (y mo d h mi : Z) :
  valid_fields y mo d h mi -> 100 <= y <= 275759 ->
  build_date (mkNumbers (Some y) (Some mo) (Some d) (Some h) (Some mi))
  = Return (Some (Some (utc_instant y mo d h mi))).
Proof.
  intros V Hy. destruct (UTC_valid y mo d h mi V Hy) as [U W].
  destruct V as ([Hm Hd] & Hh & Hmi).
  pose proof (daysInMonth_le_31 y mo) as L.
  unfold build_date. cbn [n_y n_mo n_d n_h n_mi].
  destruct ((mo <? 0) || (mo >? 11) || (d <? 1) || (d >? 31) || (h <? 0) || (h >? 23)
            || (mi <? 0) || (mi >? 59)) eqn:E.
  - exfalso. repeat (apply orb_true_iff in E; destruct E as [E|E]); lia.
  - rewrite U.
    injection W as W1 W2 W3 W4 W5.
    cbn [JSDate.getUTCFullYear JSDate.getUTCMonth JSDate.getUTCDate JSDate.getUTCHours
         JSDate.getUTCMinutes option_map JSDate.strict_neq].
    rewrite W1, W2, W3, W4, W5, !Z.eqb_refl. reflexivity.
Qed.

(** Strings of digits *)

Definition digits (s : string) : Prop :=
  forall_chars is_digit s = true /\ truthy s = true.

Lemma numeral_digits (s : string) (n : Z) : numeral s n -> digits s.
Proof. intros (A & T & _). split; assumption. Qed.

Lemma digits_free (q : ascii -> bool) (s : string) :
  (forall c, is_digit c = true -> q c = false) ->
  forall_chars is_digit s = true -> exists_char q s = false.
Proof.
  intros Hq. induction s as [|c r IH]; simpl; [reflexivity|].
  intros H. apply andb_true_iff in H. destruct H as [Hc Hr].
  now rewrite (Hq c Hc), (IH Hr).
Qed.

Lemma joined_rest (c : ascii) (toks : list string) (rest : string) :
  toks <> [] -> joined c toks rest = joined c toks EmptyString ++ rest.
Proof.
  induction toks as [|t ts IH]; [congruence|]. intros _.
  destruct ts as [|t' ts'].
  - cbn [joined]. now rewrite append_empty_r.
  - rewrite (joined_cons c t (t' :: ts') rest) by discriminate.
    rewrite (joined_cons c t (t' :: ts') EmptyString) by discriminate.
    rewrite IH by discriminate.
    now rewrite append_assoc.
Qed.

Lemma joined_digits_free (q : ascii -> bool) (c : ascii) (toks : list string) :
  (forall x, is_digit x = true -> q x = false) -> q c = false ->
  Forall digits toks ->
  exists_char q (joined c toks EmptyString) = false.
Proof.
  intros Hq Hc Hd. induction Hd as [|t ts [Ht _] Hts IH]; [reflexivity|].
  destruct ts as [|t' ts'].
  - cbn [joined]. rewrite append_empty_r. now apply digits_free.
  - rewrite joined_cons by discriminate.
    rewrite exists_char_append, (digits_free q t Hq Ht). cbn [exists_char orb].
    now rewrite Hc, IH.
Qed.

Lemma joined_digits_head (c : ascii) (toks : list string) :
  toks <> [] -> Forall digits toks ->
  exists c0 r0, joined c toks EmptyString = String c0 r0 /\ is_digit c0 = true.
Proof.
  intros Hne Hd. destruct Hd as [|t ts [Ht Tt] Hts]; [congruence|].
  destruct t as [|c0 r0]; [discriminate|].
  simpl in Ht. apply andb_true_iff in Ht. destruct Ht as [Hc0 _].
  destruct ts as [|t' ts'].
  - exists c0, (r0 ++ EmptyString). split; [reflexivity | exact Hc0].
  - exists c0, (r0 ++ String c (joined c (t' :: ts') EmptyString)).
    split; [reflexivity | exact Hc0].
Qed.

Lemma joined_digits_end (p : ascii -> bool) (c : ascii) (toks : list string) :
  (forall x, is_digit x = true -> p x = false) ->
  toks <> [] -> Forall digits toks ->
  ends_outside p (joined c toks EmptyString).
Proof.
  intros Hp Hne Hd. induction Hd as [|t ts [Ht Tt] Hts IH]; [congruence|].
  destruct ts as [|t' ts'].
  - cbn [joined]. rewrite append_empty_r.
    apply ends_outside_free; [now apply digits_free | exact Tt].
  - rewrite joined_cons by discriminate.
    apply ends_outside_app.
    change (String c (joined c (t' :: ts') EmptyString))
      with (String c EmptyString ++ joined c (t' :: ts') EmptyString).
    apply ends_outside_app. apply IH. discriminate.
Qed.

(** The tokens of a file name that starts with digit tokens joined by a
    hyphen. *)
Lemma stem_tokens_joined (toks : list string) (rest : string) :
  toks <> [] -> Forall digits toks ->
  rest = EmptyString \/ (exists x, rest = String "-"%char x) ->
  exists_char Path.is_sep rest = false ->
  truthy (stem_of (joined "-"%char toks rest)) = true
  /\ exists more, stem_tokens (joined "-"%char toks rest) = (toks ++ more)%list.
Proof.
  intros Hne Hd Hrest Hsep.
  set (f := joined "-"%char toks EmptyString).
  assert (Hf : joined "-"%char toks rest = f ++ rest) by now apply joined_rest.
  destruct (joined_digits_head "-"%char toks Hne Hd) as (c0 & r0 & Hhead & Hc0).
  fold f in Hhead.
  assert (Hsepf : exists_char Path.is_sep f = false).
  { apply joined_digits_free; [|reflexivity|assumption].
    intros x Hx. apply (is_digit_other_classes x Hx). }
  assert (Hdot : exists_char Path.is_dot f = false).
  { apply joined_digits_free; [|reflexivity|assumption].
    intros x Hx. apply (is_digit_other_classes x Hx). }
  assert (Hall : exists_char Path.is_sep (f ++ rest) = false)
    by now rewrite exists_char_append, Hsepf, Hsep.
  split.
  - rewrite Hf. apply stem_of_truthy; [exact Hall|]. rewrite Hhead. reflexivity.
  - unfold stem_tokens. rewrite Hf.
    destruct (stem_of_keeps f rest "-"%char Hall Hdot Hrest) as (r1 & -> & Hr1).
    destruct (trim_keeps not_letter_or_number f r1 "-"%char) as (r2 & -> & Hr2).
    + exists c0, r0. split; [exact Hhead|]. apply (is_digit_other_classes c0 Hc0).
    + apply joined_digits_end; [|assumption|assumption].
      intros x Hx. apply (is_digit_other_classes x Hx).
    + exact Hr1.
    + unfold f. rewrite <- joined_rest by assumption.
      apply split_joined; [reflexivity | assumption | | exact Hr2].
      eapply Forall_impl; [|exact Hd]. intros t [Ht _].
      apply digits_free; [|exact Ht].
      intros x Hx. apply (is_digit_other_classes x Hx).
Qed.

Lemma path_parts_joined (toks : list string) (rest : string) :
  toks <> [] -> Forall digits toks ->
  rest = EmptyString \/ (exists x, rest = String "/"%char x) ->
  exists more, split Path.is_sep (joined "/"%char toks rest) = (toks ++ more)%list.
Proof.
  intros Hne Hd Hrest.
  apply split_joined; [reflexivity | assumption | | exact Hrest].
  eapply Forall_impl; [|exact Hd]. intros t [Ht _].
  apply digits_free; [|exact Ht].
  intros x Hx. apply (is_digit_other_classes x Hx).
Qed.

(** The round trip *)


Definition year_text (f : Dayjs.Fields) : string :=
  padStart 4 (String_of_number (Dayjs.year f)).
Definition month_text (f : Dayjs.Fields) : string :=
  String_of_number (Dayjs.month f + 1).
Definition day_text (f : Dayjs.Fields) : string :=
  String_of_number (Dayjs.date f).

(** The tokens the file name starts with, and the directories. *)
Definition file_tokens (s : FilesystemStructure) (withTime : bool) (f : Dayjs.Fields)
  : list string :=
  (match s with
   | StructureNone => [year_text f; month_text f; day_text f]
   | StructureYear => [month_text f; day_text f]
   | StructureMonth => [day_text f]
   | StructureDay => []
   end ++ if withTime then [time_fragment f] else [])%list.

Definition directory_tokens (s : FilesystemStructure) (f : Dayjs.Fields) : list string :=
  match s with
  | StructureNone => []
  | StructureYear => [year_text f]
  | StructureMonth => [year_text f; month_text f]
  | StructureDay => [year_text f; month_text f; day_text f]
  end.

(** The configuration that writes what a walk with the same structure and
    the same time option reads. *)
Definition codec_config (tz : Dayjs.Timezone) (root : string)
           (s : FilesystemStructure) (withTime : bool) : Config :=
  {| timezone := tz;
     outputDirectory := Some root;
     outputStructure := Some s;
     outputFilenameOptions :=
       Some ((match s with StructureDay => [] | _ => ["date"] end
              ++ if withTime then ["time"] else [])%list) |}.

Lemma constructFilename_joined (tz : Dayjs.Timezone) (root : string) (clock t : Z)
      (s : FilesystemStructure) (withTime : bool) (type hash : string) :
  constructFilename (codec_config tz root s withTime) clock (Some t) type hash None
  = Return (joined "-"%char (file_tokens s withTime (Dayjs.wall tz t))
              (match file_tokens s withTime (Dayjs.wall tz t) with
               | [] => hash ++ "-" ++ type
               | _ => "-" ++ hash ++ "-" ++ type
               end)).
Proof.
  destruct s, withTime;
    cbn -[String_of_number padStart time_fragment];
    unfold year_text, month_text, day_text, time_fragment, two_digits;
    rewrite ?append_assoc; cbn [append]; rewrite ?append_assoc; reflexivity.
Qed.

Lemma nested_directories_tokens (tz : Dayjs.Timezone) (root : string) (clock t : Z)
      (s : FilesystemStructure) (withTime : bool) :
  nested_directories (codec_config tz root s withTime) clock (Some t) s
  = directory_tokens s (Dayjs.wall tz t).
Proof. destruct s; reflexivity. Qed.

Lemma join_joined (c : ascii) (toks extra : list string) :
  toks <> [] ->
  join (String c EmptyString) (toks ++ extra)
  = joined c toks (match extra with
                   | [] => EmptyString
                   | _ => String c (join (String c EmptyString) extra)
                   end).
Proof.
  induction toks as [|t ts IH]; [congruence|]. intros _.
  destruct ts as [|t' ts'].
  - destruct extra as [|e es]; cbn; [now rewrite append_empty_r | reflexivity].
  - rewrite joined_cons by discriminate. rewrite <- IH by discriminate. reflexivity.
Qed.

Lemma two_digits_numeral (v : Z) :
  0 <= v <= 99 ->
  numeral (String (digit_char (v / 10)) (String (digit_char (v mod 10)) EmptyString)) v.
Proof.
  intros H.
  destruct (digit_char_digit (v / 10)) as [A1 A2]; [Z.div_mod_to_equations; lia|].
  destruct (digit_char_digit (v mod 10)) as [B1 B2]; [Z.div_mod_to_equations; lia|].
  repeat split.
  - simpl. now rewrite A1, B1.
  - cbn [digits_value]. rewrite A1. cbn [digits_value]. rewrite B1, A2, B2.
    cbn [digits_value]. Z.div_mod_to_equations; lia.
Qed.

Lemma read_time_fragment (exactly : bool) (f : Dayjs.Fields) :
  0 <= Dayjs.hour f <= 23 -> 0 <= Dayjs.minute f <= 59 ->
  read_time exactly (Some (time_fragment f))
  = Return (Some (Some (Dayjs.hour f), Some (Dayjs.minute f))).
Proof.
  intros Hh Hm. unfold read_time, time_fragment, two_digits.
  rewrite !two_digits_chars by lia.
  cbn [append String.length Nat.eqb Nat.ltb Nat.leb negb].
  unfold substring. cbn [Nat.sub String.substring].
  rewrite (parseInt_numeral _ _ (two_digits_numeral (Dayjs.hour f) ltac:(lia))).
  rewrite (parseInt_numeral _ _ (two_digits_numeral (Dayjs.minute f) ltac:(lia))).
  destruct exactly; reflexivity.
Qed.

Lemma parseDateFromString_numbers (str : string) (fmt : DateFormat) (flag : bool)
      (yr mn dy : option Z) (numbers : Numbers) (r : option JSDate.Date) :
  truthy str = true ->
  read_numbers fmt flag yr mn dy (split dash_or_underscore (trim not_letter_or_number str))
  = Return (Some numbers) ->
  build_date numbers = Return r ->
  parseDateFromString str fmt flag yr mn dy = r.
Proof.
  intros T R B. unfold parseDateFromString. rewrite T. cbn [negb].
  rewrite replace_edge_run_of, R. cbn [bind]. rewrite B. reflexivity.
Qed.

Section RoundTrip.

Variable tz : Dayjs.Timezone.
Variables (clock t : Z) (root type hash extension : string) (extra : list string).
Variables y mo d h mi : Z.

Hypothesis wall_fields : Dayjs.wall tz t = Dayjs.mkFields y mo d h mi.
Hypothesis fields_valid : valid_fields y mo d h mi.
Hypothesis year_range : 100 <= y <= 275759.
Hypothesis hash_free : exists_char Path.is_sep hash = false.
Hypothesis type_free : exists_char Path.is_sep type = false.
Hypothesis extension_free : exists_char Path.is_sep extension = false.

Let f := Dayjs.wall tz t.

Lemma year_text_numeral : numeral (year_text f) y.
Proof.
  unfold year_text, f. rewrite wall_fields. cbn [Dayjs.year].
  apply padStart_numeral, String_of_number_numeral. lia.
Qed.

Lemma month_text_numeral : numeral (month_text f) (mo + 1).
Proof.
  unfold month_text, f. rewrite wall_fields. cbn [Dayjs.month].
  apply String_of_number_numeral. destruct fields_valid as ([? ?] & _). lia.
Qed.

Lemma day_text_numeral : numeral (day_text f) d.
Proof.
  unfold day_text, f. rewrite wall_fields. cbn [Dayjs.date].
  apply String_of_number_numeral. destruct fields_valid as ([? ?] & _). lia.
Qed.

Lemma time_fragment_digits : digits (time_fragment f).
Proof.
  unfold time_fragment, two_digits, f. rewrite wall_fields. cbn [Dayjs.hour Dayjs.minute].
  destruct fields_valid as (_ & Hh & Hm).
  rewrite !two_digits_chars by lia.
  destruct (two_digits_numeral h ltac:(lia)) as (A & _ & _).
  destruct (two_digits_numeral mi ltac:(lia)) as (B & _ & _).
  split; [|reflexivity]. cbn [append]. simpl in A, B |- *.
  apply andb_true_iff in A. destruct A as [A1 A2]. apply andb_true_iff in A2.
  apply andb_true_iff in B. destruct B as [B1 B2]. apply andb_true_iff in B2.
  destruct A2 as [A2 _]. destruct B2 as [B2 _].
  now rewrite A1, A2, B1, B2.
Qed.

Lemma file_tokens_digits (s : FilesystemStructure) (flag : bool) :
  Forall digits (file_tokens s flag f).
Proof.
  pose proof (numeral_digits _ _ year_text_numeral).
  pose proof (numeral_digits _ _ month_text_numeral).
  pose proof (numeral_digits _ _ day_text_numeral).
  pose proof time_fragment_digits.
  destruct s, flag; cbn; repeat (apply Forall_cons; [assumption|]); apply Forall_nil.
Qed.

Lemma directory_tokens_digits (s : FilesystemStructure) :
  Forall digits (directory_tokens s f).
Proof.
  pose proof (numeral_digits _ _ year_text_numeral).
  pose proof (numeral_digits _ _ month_text_numeral).
  pose proof (numeral_digits _ _ day_text_numeral).
  destruct s; cbn; repeat (apply Forall_cons; [assumption|]); apply Forall_nil.
Qed.

Lemma read_time_here (exactly : bool) :
  read_time exactly (Some (time_fragment f)) = Return (Some (Some h, Some mi)).
Proof.
  destruct fields_valid as (_ & Hh & Hm).
  pose proof (read_time_fragment exactly f) as R. unfold f in *.
  rewrite wall_fields in *. cbn [Dayjs.hour Dayjs.minute] in R. now apply R.
Qed.

(** What is decoded from what was encoded, for the fields the date shows
    in the time zone of the configuration. *)
Lemma decode_of_encoded (s : FilesystemStructure) (withTime flag : bool) :
  (flag = true -> withTime = true) ->
  let config := codec_config tz root s withTime in
  exists name,
    constructFilename config clock (Some t) type hash None = Return name
    /\ parseDateFromFilePath
         (join "/" (nested_directories config clock (Some t) s ++ extra))
         (name ++ extension) (structure_name s) flag
       = Return (Some (Some (utc_instant y mo d (if flag then h else 0)
                                         (if flag then mi else 0)))).
Proof.
  intros Hflag config. subst config.
  rewrite constructFilename_joined, nested_directories_tokens. fold f.
  eexists. split; [reflexivity|].
  set (toks := file_tokens s withTime f).
  set (tail := match toks with [] => hash ++ "-" ++ type | _ => "-" ++ hash ++ "-" ++ type end).
  (* the file name *)
  assert (Hname : truthy (stem_of (joined "-"%char toks tail ++ extension)) = true
                  /\ exists more, stem_tokens (joined "-"%char toks tail ++ extension)
                                  = (toks ++ more)%list).
  { destruct toks as [|t0 ts] eqn:Etoks.
    - split.
      + apply stem_of_truthy.
        * cbn [joined]. unfold tail.
          repeat (rewrite exists_char_append || cbn [append exists_char]).
          rewrite hash_free, type_free, extension_free. reflexivity.
        * cbn [joined]. unfold tail. destruct hash; reflexivity.
      + exists (stem_tokens (joined "-"%char [] tail ++ extension)). reflexivity.
    - assert (Hj : joined "-"%char (t0 :: ts) tail ++ extension
                   = joined "-"%char (t0 :: ts) (tail ++ extension)).
      { rewrite (joined_rest _ _ tail), (joined_rest _ _ (tail ++ extension)) by discriminate.
        now rewrite append_assoc. }
      rewrite Hj. apply stem_tokens_joined.
      + discriminate.
      + rewrite <- Etoks. apply file_tokens_digits.
      + right. unfold tail. eexists. reflexivity.
      + unfold tail.
        repeat (rewrite exists_char_append || cbn [append exists_char]).
        rewrite hash_free, type_free, extension_free. reflexivity. }
  destruct Hname as (Htruthy & more & Htokens). unfold stem_tokens, stem_of in *.
  pose proof (parseInt_numeral _ _ year_text_numeral) as PY.
  pose proof (parseInt_numeral _ _ month_text_numeral) as PM.
  pose proof (parseInt_numeral _ _ day_text_numeral) as PD.
  assert (V0 : valid_fields y mo d 0 0)
    by (destruct fields_valid as (Hv & _); split; [exact Hv | lia]).
  pose proof (build_date_valid y mo d h mi fields_valid year_range) as B1.
  pose proof (build_date_valid y mo d 0 0 V0 year_range) as B0.
  destruct fields_valid as ([Hmo Hd] & _).
  pose proof (daysInMonth_le_31 y mo) as L31.
  assert (Rm : (1 <=? mo + 1) && (mo + 1 <=? 12) = true)
    by (apply andb_true_iff; split; apply Z.leb_le; lia).
  assert (Rd : (1 <=? d) && (d <=? 31) = true)
    by (apply andb_true_iff; split; apply Z.leb_le; lia).
  assert (Em : mo + 1 - 1 = mo) by lia.
  unfold parseDateFromFilePath.
  (* the directories *)
  assert (Hdirs : directory_tokens s f = [] \/
                  exists more', split Path.is_sep (join "/" (directory_tokens s f ++ extra))
                                = (directory_tokens s f ++ more')%list).
  { destruct (directory_tokens s f) as [|d0 ds] eqn:Ed; [left; reflexivity|]. right.
    rewrite join_joined by discriminate.
    apply path_parts_joined.
    - discriminate.
    - rewrite <- Ed. apply directory_tokens_digits.
    - destruct extra; [left; reflexivity | right; eexists; reflexivity]. }
  destruct withTime, flag; try (specialize (Hflag eq_refl); discriminate Hflag);
    clear Hflag;
    destruct s; subst toks; cbn [file_tokens directory_tokens app] in *;
    cbn [structure_name String.eqb Ascii.eqb Bool.eqb];
    (destruct Hdirs as [Hdirs | (more' & Hdirs)]; [try discriminate Hdirs|]);
    rewrite ?Hdirs;
    cbn [List.length Nat.leb part nth_error parseInt_opt app];
    rewrite ?PY, ?PM, ?PD, ?Rm; cbn [andb]; rewrite ?Rd;
    f_equal;
    (eapply parseDateFromString_numbers; [exact Htruthy | | first [exact B1 | exact B0]]);
    rewrite Htokens; unfold read_numbers;
    cbn [List.length Nat.ltb Nat.leb andb negb part nth_error parseInt_opt app];
    rewrite ?andb_false_r;
    rewrite ?PY, ?PM, ?PD, ?read_time_here; cbn [bind minus_one option_map];
    rewrite ?Em, ?Z.add_simpl_r; reflexivity.
Qed.

End RoundTrip.




(** A year from 0 to 99 does not come back: [Date.UTC] reads it as
    1900 + year, the year of the date it builds differs from the year that
    was read, and the decoder returns [null].  The date is
    0050-01-15T08:30Z. *)
Lemma codec_loses_two_digit_years :
  Dayjs.wall Dayjs.UTC (utc_instant 50 0 15 8 30) = Dayjs.mkFields 50 0 15 8 30
  /\ valid_fields 50 0 15 8 30
  /\ constructFilename (codec_config Dayjs.UTC "/out" StructureNone true) 0
                       (Some (utc_instant 50 0 15 8 30)) "note" "abc123" None
     = Return "0050-1-15-0830-abc123-note"
  /\ parseDateFromFilePath
       (join "/" (nested_directories (codec_config Dayjs.UTC "/out" StructureNone true)
                                     0 (Some (utc_instant 50 0 15 8 30)) StructureNone))
       "0050-1-15-0830-abc123-note.txt" "none" true
     = Return None.
Proof.
  split; [vm_compute; reflexivity|].
  split; [unfold valid_fields, valid_day; vm_compute; intuition discriminate|].
  split; vm_compute; reflexivity.
Qed.

(** The file names and directories of a date under the four structures. *)
Example encoded_under_month :
  constructFilename (codec_config Dayjs.UTC "/out" StructureMonth true) 0
                    (Some 1642235400000) "note" "abc123" None
  = Return "15-0830-abc123-note"
  /\ nested_directories (codec_config Dayjs.UTC "/out" StructureMonth true) 0
                        (Some 1642235400000) StructureMonth
     = ["2022"; "1"].
Proof. split; vm_compute; reflexivity. Qed.

Example encoded_under_day :
  constructFilename (codec_config Dayjs.UTC "/out" StructureDay false) 0
                    (Some 1642235400000) "note" "abc123" None
  = Return "abc123-note"
  /\ nested_directories (codec_config Dayjs.UTC "/out" StructureDay false) 0
                        (Some 1642235400000) StructureDay
     = ["2022"; "1"; "15"].
Proof. split; vm_compute; reflexivity. Qed.

End DatePathCodec.

(* ------------------------------------------------------------------ *)
(** ** What a decoded date is *)
(* ------------------------------------------------------------------ *)

Section DecodedDates.

Import Structured.

(** [h] and [mi] after [if (isNaN(h)) h = 0]. *)
Definition or_zero (x : option Z) : Z :=
  match x with
  | Some v => v
  | None => 0
  end.

(** A year from 0 to 99 and the year [Date.UTC] makes of it are
    different days. *)
Lemma MakeDay_two_digit_year (y mo d : Z) :
  0 <= y <= 99 -> JSDate.MakeDay (1900 + y) mo d <> JSDate.MakeDay y mo d.
Proof.
  intros Hy. unfold JSDate.MakeDay.
  set (mn := mo mod 12). set (q := mo / 12).
  destruct (mn <? 2); Z.div_mod_to_equations; lia.
Qed.

(** The date that [build_date] returns: never an Invalid Date, the
    instant of the numbers read, which are the fields it shows in UTC. *)
Lemma build_date_sound (numbers : Numbers) (date : JSDate.Date) :
  build_date numbers = Return (Some date) ->
  exists y mo d,
    n_y numbers = Some y /\ n_mo numbers = Some mo /\ n_d numbers = Some d
    /\ ~ (0 <= y <= 99)
    /\ 0 <= or_zero (n_h numbers) <= 23 /\ 0 <= or_zero (n_mi numbers) <= 59
    /\ date = Some (utc_instant y mo d (or_zero (n_h numbers)) (or_zero (n_mi numbers)))
    /\ Dayjs.utc_wall (utc_instant y mo d (or_zero (n_h numbers)) (or_zero (n_mi numbers)))
       = Dayjs.mkFields y mo d (or_zero (n_h numbers)) (or_zero (n_mi numbers)).
Proof.
  unfold build_date.
  destruct (n_y numbers) as [y|]; [|discriminate].
  destruct (n_mo numbers) as [mo|]; [|discriminate].
  destruct (n_d numbers) as [d|]; [|discriminate].
  fold (or_zero (n_h numbers)). fold (or_zero (n_mi numbers)).
  set (h := or_zero (n_h numbers)). set (mi := or_zero (n_mi numbers)).
  destruct ((mo <? 0) || (mo >? 11) || (d <? 1) || (d >? 31) || (h <? 0) || (h >? 23)
            || (mi <? 0) || (mi >? 59)) eqn:E; [discriminate|].
  repeat (apply orb_false_iff in E; destruct E as [E ?]).
  assert (Hh : 0 <= h <= 23) by lia.
  assert (Hmi : 0 <= mi <= 59) by lia.
  destruct (JSDate.UTC y mo d h mi) as [t|] eqn:U; [|discriminate].
  cbn [JSDate.getUTCFullYear JSDate.getUTCMonth JSDate.getUTCDate JSDate.getUTCHours
       JSDate.getUTCMinutes option_map JSDate.strict_neq].
  destruct (negb (JSDate.YearFromTime t =? y) || negb (JSDate.MonthFromTime t =? mo)
            || negb (JSDate.DateFromTime t =? d) || negb (JSDate.HourFromTime t =? h)
            || negb (JSDate.MinFromTime t =? mi)) eqn:G; [discriminate|].
  repeat (apply orb_false_iff in G; destruct G as [G ?]).
  repeat match goal with
         | Hx : negb (_ =? _) = false |- _ =>
             apply negb_false_iff in Hx; apply Z.eqb_eq in Hx
         end.
  intros Hdate. injection Hdate as <-.
  unfold JSDate.UTC, JSDate.TimeClip in U.
  set (yr := if (0 <=? y) && (y <=? 99) then 1900 + y else y) in U.
  destruct (Z.abs _ >? JSDate.maxTime); [discriminate|].
  injection U as U.
  destruct (time_of_day (JSDate.MakeDay yr mo d) h mi Hh Hmi) as (T1 & _ & _).
  rewrite U in T1.
  assert (Hyr : yr = y).
  { subst yr. destruct ((0 <=? y) && (y <=? 99)) eqn:R; [|reflexivity].
    apply andb_true_iff in R. destruct R as [R1 R2].
    apply Z.leb_le in R1. apply Z.leb_le in R2. exfalso.
    apply (MakeDay_two_digit_year y mo d (conj R1 R2)).
    rewrite <- T1.
    pose proof (MakeDay_civil (JSDate.Day t)) as C.
    unfold JSDate.YearFromTime, JSDate.MonthFromTime, JSDate.DateFromTime in *.
    congruence. }
  exists y, mo, d. repeat split; try lia.
  - subst yr. destruct ((0 <=? y) && (y <=? 99)) eqn:R; [|intros [A B]].
    + lia.
    + apply andb_false_iff in R. destruct R as [R|R]; apply Z.leb_gt in R; lia.
  - unfold utc_instant. rewrite <- Hyr, U. reflexivity.
  - unfold utc_instant. rewrite <- Hyr, U. unfold Dayjs.utc_wall. congruence.
Qed.

(** Without the time the [switch] leaves [h] and [mi] at 0. *)
Lemma read_numbers_midnight (fmt : DateFormat) (year month day : option Z)
      (parts : list string) (numbers : Numbers) :
  read_numbers fmt false year month day parts = Return (Some numbers) ->
  n_h numbers = Some 0 /\ n_mi numbers = Some 0.
Proof.
  unfold read_numbers. destruct fmt.
  - rewrite andb_false_r. cbn [negb]. destruct (_ && true); [discriminate|].
    intros H. injection H as <-. split; reflexivity.
  - destruct year; [|discriminate].
    rewrite andb_false_r. cbn [negb]. destruct (_ && true); [discriminate|].
    intros H. injection H as <-. split; reflexivity.
  - destruct year; [|discriminate]. destruct month; [|discriminate].
    rewrite andb_false_r. cbn [negb]. destruct (_ && true); [discriminate|].
    intros H. injection H as <-. split; reflexivity.
  - destruct year; [|discriminate]. destruct month; [|discriminate].
    destruct day; [|discriminate].
    intros H. injection H as <-. split; reflexivity.
Qed.

(** The hour and the minute the decoder takes from the time token: the
    numbers its first two and its next two characters read as, and 0 for
    a pair that reads as NaN; 00:00 when the time is not parsed. *)
Definition time_of_token (flag : bool) (token : option string) (h mi : Z) : Prop :=
  if flag
  then exists t, token = Some t /\ (4 <= String.length t)%nat
                 /\ h = or_zero (parseInt (substring 0 2 t))
                 /\ mi = or_zero (parseInt (substring 2 4 t))
  else h = 0 /\ mi = 0.

Lemma time_read_of_token (fmt : DateFormat) (flag : bool) (year month day : option Z)
      (parts : list string) (token : option string) (numbers : Numbers) :
  read_numbers fmt flag year month day parts = Return (Some numbers) ->
  time_read flag token numbers ->
  time_of_token flag token (or_zero (n_h numbers)) (or_zero (n_mi numbers)).
Proof.
  unfold time_read, time_of_token. destruct flag.
  - intros _ (t & Ht & Hl & Hh & Hm). exists t. now rewrite Hh, Hm.
  - intros H _. apply read_numbers_midnight in H. destruct H as [-> ->].
    split; reflexivity.
Qed.

(** The numbers behind a decoded path, token by token. *)
Lemma decoded_path_numbers (s : FilesystemStructure) (flag : bool)
      (relativePath filename : string) (date : JSDate.Date) :
  parseDateFromFilePath relativePath filename (structure_name s) flag
  = Return (Some date) ->
  let tokens := tokens_of s relativePath filename in
  exists numbers,
    build_date numbers = Return (Some date)
    /\ n_y numbers = parseInt_opt (year_token tokens)
    /\ n_mo numbers = minus_one (parseInt_opt (month_token tokens))
    /\ n_d numbers = parseInt_opt (day_token tokens)
    /\ time_of_token flag (time_token tokens)
                     (or_zero (n_h numbers)) (or_zero (n_mi numbers)).
Proof.
  unfold parseDateFromFilePath, tokens_of, stem_tokens, stem_of.
  set (dirs := split Path.is_sep relativePath).
  set (parts := split dash_or_underscore _).
  destruct s; cbn [structure_name String.eqb Ascii.eqb Bool.eqb
                   year_token month_token day_token time_token].
  - intros H. injection H as H. apply parseDateFromString_some in H.
    destruct H as (numbers & Hr & Hb). fold parts in Hr.
    pose proof (read_numbers_some _ _ _ _ _ _ _ Hr) as (Ey & Emo & Ed & Et).
    exists numbers. unfold part in *. repeat split; try assumption.
    exact (time_read_of_token _ _ _ _ _ _ _ _ Hr Et).
  - destruct (1 <=? List.length dirs)%nat; [|discriminate].
    unfold part.
    destruct (parseInt_opt (nth_error dirs 0)) as [year|] eqn:Y; [|discriminate].
    intros H. injection H as H. apply parseDateFromString_some in H.
    destruct H as (numbers & Hr & Hb). fold parts in Hr.
    pose proof (read_numbers_some _ _ _ _ _ _ _ Hr) as (Ey & Emo & Ed & Et).
    exists numbers. unfold part in *. repeat split; try assumption.
    exact (time_read_of_token _ _ _ _ _ _ _ _ Hr Et).
  - destruct (2 <=? List.length dirs)%nat; [|discriminate].
    unfold part.
    destruct (parseInt_opt (nth_error dirs 0)) as [year|] eqn:Y; [|discriminate].
    destruct (parseInt_opt (nth_error dirs 1)) as [monthDir|] eqn:M; [|discriminate].
    destruct ((1 <=? monthDir) && (monthDir <=? 12)) eqn:R; [|discriminate].
    intros H. injection H as H. apply parseDateFromString_some in H.
    destruct H as (numbers & Hr & Hb). fold parts in Hr.
    pose proof (read_numbers_some _ _ _ _ _ _ _ Hr) as (Ey & Emo & Ed & Et).
    exists numbers. unfold part in *. repeat split; try assumption.
    exact (time_read_of_token _ _ _ _ _ _ _ _ Hr Et).
  - destruct (3 <=? List.length dirs)%nat; [|discriminate].
    unfold part.
    destruct (parseInt_opt (nth_error dirs 0)) as [year|] eqn:Y; [|discriminate].
    destruct (parseInt_opt (nth_error dirs 1)) as [monthDir|] eqn:M; [|discriminate].
    destruct (parseInt_opt (nth_error dirs 2)) as [day|] eqn:D; [|discriminate].
    destruct ((1 <=? monthDir) && (monthDir <=? 12) && (1 <=? day) && (day <=? 31)) eqn:R;
      [|discriminate].
    intros H. injection H as H. apply parseDateFromString_some in H.
    destruct H as (numbers & Hr & Hb). fold parts in Hr.
    pose proof (read_numbers_some _ _ _ _ _ _ _ Hr) as (Ey & Emo & Ed & Et).
    exists numbers. unfold part in *. repeat split; try assumption.
    exact (time_read_of_token _ _ _ _ _ _ _ _ Hr Et).
Qed.

(** A date the decoder returns is never an Invalid Date, and read in UTC
    it shows the numbers of the tokens: the year, the month and the day as
    [parseInt] reads their tokens, and the time of the time token (0 for
    an hour or a minute that is not a number), or 00:00 when the time is
    not parsed. *)
Theorem decoded_date_shows_tokens (s : FilesystemStructure) (flag : bool)
        (relativePath filename : string) (date : JSDate.Date) :
  parseDateFromFilePath relativePath filename (structure_name s) flag
  = Return (Some date) ->
  exists t,
    date = Some t
    /\ parseInt_opt (year_token (tokens_of s relativePath filename))
       = Some (JSDate.YearFromTime t)
    /\ parseInt_opt (month_token (tokens_of s relativePath filename))
       = Some (JSDate.MonthFromTime t + 1)
    /\ parseInt_opt (day_token (tokens_of s relativePath filename))
       = Some (JSDate.DateFromTime t)
    /\ time_of_token flag (time_token (tokens_of s relativePath filename))
                     (JSDate.HourFromTime t) (JSDate.MinFromTime t).
Proof.
  intros H. apply decoded_path_numbers in H. cbv zeta in H.
  destruct H as (numbers & Hb & Ey & Emo & Ed & Et).
  apply build_date_sound in Hb.
  destruct Hb as (y & mo & d & Hy & Hmo & Hd & _ & _ & _ & Hdate & Hwall).
  unfold Dayjs.utc_wall in Hwall. injection Hwall as W1 W2 W3 W4 W5.
  eexists. split; [exact Hdate|].
  rewrite W1, W2, W3, W4, W5, <- Ey, <- Ed.
  repeat split; try assumption.
  rewrite Emo in Hmo. apply minus_one_some in Hmo. exact Hmo.
Qed.

Lemma decoded_date_shows_tokens_witness :
  exists t,
    Some 1642235400000 = Some t
    /\ parseInt_opt (year_token (tokens_of StructureYear "2022" "01-15-0830-test.txt"))
       = Some (JSDate.YearFromTime t)
    /\ parseInt_opt (month_token (tokens_of StructureYear "2022" "01-15-0830-test.txt"))
       = Some (JSDate.MonthFromTime t + 1)
    /\ parseInt_opt (day_token (tokens_of StructureYear "2022" "01-15-0830-test.txt"))
       = Some (JSDate.DateFromTime t)
    /\ time_of_token true
         (time_token (tokens_of StructureYear "2022" "01-15-0830-test.txt"))
         (JSDate.HourFromTime t) (JSDate.MinFromTime t).
Proof.
  apply (decoded_date_shows_tokens StructureYear true "2022" "01-15-0830-test.txt"
           (Some 1642235400000)).
  vm_compute. reflexivity.
Defined.

(** A date the decoder returns lies on a whole minute, and at midnight
    UTC when the time is not parsed. *)
Theorem decoded_date_precision (s : FilesystemStructure) (flag : bool)
        (relativePath filename : string) (date : JSDate.Date) :
  parseDateFromFilePath relativePath filename (structure_name s) flag
  = Return (Some date) ->
  exists t,
    date = Some t
    /\ t mod JSDate.msPerMinute = 0
    /\ (flag = false -> t mod JSDate.msPerDay = 0).
Proof.
  intros H. apply decoded_path_numbers in H. cbv zeta in H.
  destruct H as (numbers & Hb & _ & _ & _ & Et).
  apply build_date_sound in Hb.
  destruct Hb as (y & mo & d & _ & _ & _ & _ & _ & _ & Hdate & _).
  eexists. split; [exact Hdate|].
  unfold utc_instant, JSDate.MakeDate, JSDate.MakeTime, JSDate.msPerDay,
    JSDate.msPerHour, JSDate.msPerMinute.
  generalize (JSDate.MakeDay y mo d). intros day. split.
  - Z.div_mod_to_equations. lia.
  - intros ->. destruct Et as [-> ->]. Z.div_mod_to_equations. lia.
Qed.

Lemma decoded_date_precision_witness :
  exists t,
    Some 1642204800000 = Some t
    /\ t mod JSDate.msPerMinute = 0
    /\ (false = false -> t mod JSDate.msPerDay = 0).
Proof.
  apply (decoded_date_precision StructureNone false "" "2022-01-15-test.txt"
           (Some 1642204800000)).
  vm_compute. reflexivity.
Defined.

(** The decoder returns no date of the years 0 to 99: [Date.UTC] reads
    such a year as 1900 + year, and the date it builds fails the second
    look at its components. *)
Theorem decoded_date_not_in_first_century (s : FilesystemStructure) (flag : bool)
        (relativePath filename : string) (t : Z) :
  parseDateFromFilePath relativePath filename (structure_name s) flag
  = Return (Some (Some t)) ->
  JSDate.YearFromTime t < 0 \/ 99 < JSDate.YearFromTime t.
Proof.
  intros H. apply decoded_path_numbers in H. cbv zeta in H.
  destruct H as (numbers & Hb & _).
  apply build_date_sound in Hb.
  destruct Hb as (y & mo & d & _ & _ & _ & Hy & _ & _ & Hdate & Hwall).
  injection Hdate as ->.
  unfold Dayjs.utc_wall in Hwall. injection Hwall as W1 _ _ _ _.
  rewrite W1. lia.
Qed.

Lemma decoded_date_not_in_first_century_witness :
  JSDate.YearFromTime 1642235400000 < 0 \/ 99 < JSDate.YearFromTime 1642235400000.
Proof.
  apply (decoded_date_not_in_first_century StructureDay true "2022/01/15"
           "0830-test.txt" 1642235400000).
  vm_compute. reflexivity.
Defined.

(** The decoder throws exactly for a structure that is none of the four
    names. *)
Theorem parseDateFromFilePath_throws_iff (relativePath filename structure : string)
        (flag : bool) :
  (exists e, parseDateFromFilePath relativePath filename structure flag = Throw e)
  <-> ~ In structure ["none"; "year"; "month"; "day"].
Proof.
  split.
  - intros (e & H) Hin.
    assert (S : exists s, structure = structure_name s).
    { destruct Hin as [<- | [<- | [<- | [<- | []]]]];
        [exists StructureNone | exists StructureYear
         | exists StructureMonth | exists StructureDay]; reflexivity. }
    destruct S as (s & ->).
    destruct (parseDateFromFilePath_returns s flag relativePath filename) as (r & Hr).
    congruence.
  - intros Hn. unfold parseDateFromFilePath.
    destruct (String.eqb_spec structure "none") as [->|_]; [exfalso; apply Hn; simpl; auto|].
    destruct (String.eqb_spec structure "year") as [->|_]; [exfalso; apply Hn; simpl; auto|].
    destruct (String.eqb_spec structure "month") as [->|_]; [exfalso; apply Hn; simpl; auto|].
    destruct (String.eqb_spec structure "day") as [->|_]; [exfalso; apply Hn; simpl; auto|].
    eexists. reflexivity.
Qed.

End DecodedDates.

(* ------------------------------------------------------------------ *)
(** ** More on the date range *)
(* ------------------------------------------------------------------ *)

Section DateRangeFacts.

Import Structured.

(** The time value of a bound that is set to a valid date. *)
Definition bound_time (bound : option JSDate.Date) : option Z :=
  match bound with
  | Some (Some t) => Some t
  | _ => None
  end.

(** Membership for every range: a bound that is not set, or set to an
    Invalid Date, does not restrict; a valid start admits the dates from
    it on, a valid end the dates before it. *)
Theorem isDateInRange_bounds (date : Z) (range : DateRange) :
  isDateInRange (Some date) (Some range)
  = match bound_time (range_start range) with
    | Some s => s <=? date
    | None => true
    end
    && match bound_time (range_end range) with
       | Some e => date <? e
       | None => true
       end.
Proof.
  unfold isDateInRange.
  destruct range as [[[s|]|] [[e|]|]]; cbn;
    repeat match goal with
           | |- context [?a <? ?b] => destruct (Z.ltb_spec a b)
           | |- context [?a <=? ?b] => destruct (Z.leb_spec a b)
           end; try reflexivity; lia.
Qed.

(** An Invalid Date is in every range: both comparisons with it are
    false. *)
Theorem isDateInRange_invalid_date (range : option DateRange) :
  isDateInRange None range = true.
Proof.
  destruct range as [[[[s|]|] [[e|]|]]|]; reflexivity.
Qed.



(** An explicit bound that is an Invalid Date makes
    [calculateDateRange] throw the error of [dates.parse]. *)
Theorem calculateDateRange_invalid_bound (timezone : Dayjs.Timezone) (clock : Z)
        (startDate endDate : option JSDate.Date) :
  startDate = Some None \/ endDate = Some None ->
  exists message,
    calculateDateRange timezone clock startDate endDate = Throw (GenericError message).
Proof.
  intros [-> | ->]; unfold calculateDateRange;
    cbn [Dates.create Dates.now Dates.parse].
  - destruct endDate as [[e|]|]; cbn [Dates.to_date bind];
      try destruct (Dayjs.to_date timezone e); cbn [bind]; eexists; reflexivity.
  - destruct startDate as [[s|]|]; cbn [Dates.to_date bind]; eexists; reflexivity.
Qed.

Lemma calculateDateRange_invalid_bound_witness :
  exists message,
    calculateDateRange Dayjs.UTC 1672531200000 (Some None) (Some (Some 1646092800000))
    = Throw (GenericError message).
Proof.
  apply (calculateDateRange_invalid_bound Dayjs.UTC 1672531200000
           (Some None) (Some (Some 1646092800000))).
  left. reflexivity.
Defined.

(** The message of [dates.parse] for an Invalid Date. *)
Example calculateDateRange_invalid_end_message :
  calculateDateRange Dayjs.UTC 1672531200000 None (Some None)
  = Throw (GenericError "Invalid date: Invalid Date, expected format: YYYY-M-D").
Proof. reflexivity. Qed.

(** The end before the start: 2022-03-01 as the start, 2022-01-01 as the
    end. *)
Lemma calculateDateRange_end_before_start_witness :
  exists message,
    calculateDateRange Dayjs.UTC 1672531200000
      (Some (Some 1646092800000)) (Some (Some 1640995200000))
    = Throw (ArgumentError "--start" message).
Proof.
  apply (calculateDateRange_end_before_start Dayjs.UTC 1672531200000
           1646092800000 1640995200000 1646092800000 1640995200000).
  - reflexivity.
  - reflexivity.
  - reflexivity.
Defined.



Lemma calculateDateRange_explicit_start_witness :
  calculateDateRange Dayjs.UTC 1672531200000 (Some (Some 1640995200000)) None
  = Return {| range_start := Some (Some 1640995200000);
              range_end := Some (Some 1672531200000) |}.
Proof.
  apply (calculateDateRange_explicit_start Dayjs.UTC 1672531200000 1672531200000
           1640995200000 1640995200000).
  - reflexivity.
  - reflexivity.
  - reflexivity.
Defined.

End DateRangeFacts.

(* ------------------------------------------------------------------ *)
(** ** The errors of a structured walk *)
(* ------------------------------------------------------------------ *)

Section ErrorsOfProcess.

Import Structured.

Variable glob : string -> string -> list string.
Variable path_join path_relative : string -> string -> string.

(** [process] throws only what [calculateDateRange] or [getFilePattern]
    throws, before any file is looked at: no file and no callback makes
    it throw, under any schedule of the workers. *)
Theorem process_throws_iff (inputStructure : option FilesystemStructure)
        (inputFilenameOptions extensions : option (list string))
        (timezone : Dayjs.Timezone) (clock : Z)
        (start end_ : option JSDate.Date) (limit : option nat)
        (features : list string) (inputDirectory : string)
        (callback : Callback) (concurrency : option nat) (schedule : list nat) :
  (exists e,
     process glob path_join path_relative inputStructure inputFilenameOptions
       extensions timezone clock start end_ limit features inputDirectory
       callback concurrency schedule = Throw e)
  <-> (exists e, calculateDateRange timezone clock start end_ = Throw e)
      \/ (exists e, getFilePattern features
                      (match extensions with Some l => l | None => [] end) = Throw e).
Proof.
  unfold process, process_walk.
  destruct (calculateDateRange timezone clock start end_) as [range|e1]; cbn [bind].
  - destruct (getFilePattern features _) as [p|e2]; cbn [bind].
    + split.
      * intros (e & H). discriminate H.
      * intros [(e & H) | (e & H)]; discriminate H.
    + split; [intros _; right | intros _]; eexists; reflexivity.
  - split; [intros _; left | intros _]; eexists; reflexivity.
Qed.

End ErrorsOfProcess.
(* ------------------------------------------------------------------ *)
(** ** More on the worker pool of [forEachFileIn] *)
(* ------------------------------------------------------------------ *)

Section WalkFacts.

Import Storage.

Variable glob : string -> string -> list string.
Variable path_join : string -> string -> string.
Context {State Pending : Type}.
Variable call : string -> State -> State * Pending.
Variable settle : Pending -> State -> State.
Variable directory : string.
Variable options : Options.

(** The pool of a walk after the moves of [schedule]. *)
Definition pool_after (schedule : list nat) (s : State) : @Pool State Pending :=
  run path_join call settle directory (limit_of glob directory options) schedule
      (start glob directory options s).

(** Every move of the schedule is the move of a worker that has not
    finished. *)
Fixpoint productive (lim : nat) (schedule : list nat) (pool : @Pool State Pending)
  : Prop :=
  match schedule with
  | [] => True
  | i :: rest =>
      (exists w, nth_error (workers pool) i = Some w /\ is_finished w = false)
      /\ productive lim rest (step path_join call settle directory lim pool i)
  end.

Lemma run_app (lim : nat) (a b : list nat) (pool : @Pool State Pending) :
  run path_join call settle directory lim (a ++ b) pool
  = run path_join call settle directory lim b
        (run path_join call settle directory lim a pool).
Proof. unfold run. apply fold_left_app. Qed.

Lemma awaiting_count_le (ws : list (@Worker Pending)) :
  (awaiting_count ws <= List.length ws)%nat.
Proof. unfold awaiting_count. apply filter_length_le. Qed.

Lemma productive_length (lim : nat) (schedule : list nat) (pool : @Pool State Pending) :
  productive lim schedule pool -> (List.length schedule <= work_left pool)%nat.
Proof.
  revert pool. induction schedule as [|i rest IH]; intros pool H; simpl; [lia|].
  destruct H as [(w & Hw & Hf) Hrest].
  pose proof (step_decreases path_join call settle directory lim pool i w Hw Hf).
  specialize (IH _ Hrest). lia.
Qed.

Lemma weight_of_new_workers (n : nat) :
  list_sum (map weight (repeat (@AtLoop Pending) n)) = n.
Proof. induction n as [|n IH]; simpl; [reflexivity | now rewrite IH]. Qed.

(** At any moment at most [concurrency] callbacks are awaited, one when
    no concurrency (or 0) is given. *)
Theorem forEachFileIn_in_flight (schedule : list nat) (s : State) :
  (awaiting_count (workers (pool_after schedule s))
   <= or_default (concurrency options) 1)%nat.
Proof.
  unfold pool_after.
  pose proof (awaiting_count_le
                (workers (run path_join call settle directory
                              (limit_of glob directory options) schedule
                              (start glob directory options s)))) as H.
  rewrite workers_length_run in H. cbn [start workers] in H.
  now rewrite repeat_length in H.
Qed.

(** A walk ends: the workers that have not finished can make no more
    than three moves for each file of the queue and one more each. *)
Theorem forEachFileIn_moves_bounded (schedule : list nat) (s : State) :
  productive (limit_of glob directory options) schedule
             (start glob directory options s) ->
  (List.length schedule
   <= 3 * Nat.min (limit_of glob directory options)
                  (List.length (files_of glob directory options))
      + or_default (concurrency options) 1)%nat.
Proof.
  intros H. apply productive_length in H.
  unfold work_left in H. cbn [start fileQueue workers] in H.
  now rewrite length_firstn, weight_of_new_workers in H.
Qed.

(** From every point of every run the walk can be brought to its end:
    no order of the moves leaves the workers stuck. *)
Theorem forEachFileIn_can_finish (schedule : list nat) (s : State) :
  exists rest final,
    forEachFileIn glob path_join call settle directory options (schedule ++ rest) s
    = Some final.
Proof.
  set (pool := pool_after schedule s).
  exists (drive path_join call settle directory (limit_of glob directory options)
                (work_left pool) pool).
  unfold forEachFileIn. rewrite run_app. fold (pool_after schedule s). fold pool.
  rewrite drive_finishes by lia. eexists. reflexivity.
Qed.

(** Without a limit, and with the limit 0, a walk that has ended has
    handed every file to the callback, in the order of the enumeration. *)
Theorem forEachFileIn_no_limit (schedule : list nat) (s : State) :
  limit options = None \/ limit options = Some O ->
  all_finished (pool_after schedule s) = true ->
  forallb truthy (files_of glob directory options) = true ->
  considered (pool_after schedule s) = files_of glob directory options.
Proof.
  intros Hlim Hfin Ht. unfold pool_after in *.
  set (files := files_of glob directory options) in *.
  assert (Hl : limit_of glob directory options = List.length files)
    by (unfold limit_of; destruct Hlim as [-> | ->]; reflexivity).
  pose proof (pool_invariant_run path_join call settle directory _ _ schedule _
                (pool_invariant_start glob directory options s)) as Hinv.
  rewrite Hl in *. fold files in Hinv. rewrite firstn_all in Hinv.
  apply (finished_pool_considered_all directory (List.length files) files _ Hinv);
    auto.
  intros E. apply (f_equal (@List.length _)) in E.
  rewrite workers_length_run in E. cbn [start workers] in E.
  rewrite repeat_length in E. simpl in E.
  destruct (concurrency options) as [[|c]|]; simpl in E; discriminate.
Qed.

End WalkFacts.

Lemma forEachFileIn_moves_bounded_witness :
  (List.length [0; 1; 0; 1]%nat
   <= 3 * Nat.min (Storage.limit_of (fun _ _ => ["a.txt"; "b.txt"; "c.txt"]) "/in"
                     (Storage.mkOptions "**/*.*" (Some 2%nat) (Some 2%nat)))
                  (List.length
                     (Storage.files_of (fun _ _ => ["a.txt"; "b.txt"; "c.txt"]) "/in"
                        (Storage.mkOptions "**/*.*" (Some 2%nat) (Some 2%nat))))
      + Storage.or_default
          (Storage.concurrency (Storage.mkOptions "**/*.*" (Some 2%nat) (Some 2%nat))) 1)%nat.
Proof.
  apply (forEachFileIn_moves_bounded
           (fun _ _ => ["a.txt"; "b.txt"; "c.txt"]) (fun d f => d ++ "/" ++ f)
           (fun f (n : nat) => (S n, tt)) (fun _ n => n)
           "/in" (Storage.mkOptions "**/*.*" (Some 2%nat) (Some 2%nat))
           [0; 1; 0; 1]%nat O).
  simpl. repeat split; eexists; split; reflexivity.
Defined.

Lemma forEachFileIn_no_limit_witness :
  Storage.considered
    (pool_after (fun _ _ => ["a.txt"; "b.txt"; "c.txt"]) (fun d f => d ++ "/" ++ f)
       (fun f (n : nat) => (S n, tt)) (fun _ n => n)
       "/in" (Storage.mkOptions "**/*.*" (Some 0%nat) None)
       [0; 0; 0; 0; 0; 0; 0]%nat O)
  = Storage.files_of (fun _ _ => ["a.txt"; "b.txt"; "c.txt"]) "/in"
      (Storage.mkOptions "**/*.*" (Some 0%nat) None).
Proof.
  apply (forEachFileIn_no_limit
           (fun _ _ => ["a.txt"; "b.txt"; "c.txt"]) (fun d f => d ++ "/" ++ f)
           (fun f (n : nat) => (S n, tt)) (fun _ n => n)
           "/in" (Storage.mkOptions "**/*.*" (Some 0%nat) None)
           [0; 0; 0; 0; 0; 0; 0]%nat O).
  - right. reflexivity.
  - reflexivity.
  - reflexivity.
Defined.
(* ------------------------------------------------------------------ *)
(** ** What a sanitized subject and a file name are made of *)
(* ------------------------------------------------------------------ *)

Section FileNameFacts.

Import Output.

(** No two neighbours both satisfy [p]. *)
Fixpoint no_runs (p : ascii -> bool) (s : string) : bool :=
  match s with
  | EmptyString => true
  | String c r =>
      negb (p c && match r with String c' _ => p c' | EmptyString => false end)
      && no_runs p r
  end.

(** The first character satisfies [p]. *)
Definition head_is (p : ascii -> bool) (s : string) : bool :=
  match s with
  | String c _ => p c
  | EmptyString => false
  end.

Lemma collapse_runs_head_is p (s : string) :
  head_is p (collapse_runs p s) = head_is p s.
Proof.
  induction s as [|c r IH]; [reflexivity|].
  cbn [collapse_runs]. fold (head_is p r).
  destruct (p c) eqn:C, (head_is p r) eqn:H; cbn [andb head_is];
    try rewrite IH; congruence.
Qed.

Lemma collapse_runs_no_runs p (s : string) : no_runs p (collapse_runs p s) = true.
Proof.
  induction s as [|c r IH]; [reflexivity|].
  cbn [collapse_runs]. fold (head_is p r).
  destruct (p c && head_is p r) eqn:E; [exact IH|].
  cbn [no_runs]. fold (head_is p (collapse_runs p r)).
  now rewrite collapse_runs_head_is, E, IH.
Qed.

Lemma collapse_runs_fixed p (s : string) :
  no_runs p s = true -> collapse_runs p s = s.
Proof.
  induction s as [|c r IH]; [reflexivity|].
  cbn [no_runs collapse_runs]. intros H. apply andb_true_iff in H.
  destruct H as [H1 H2]. apply negb_true_iff in H1. now rewrite H1, IH.
Qed.

Lemma no_runs_drop_while p q (s : string) :
  no_runs p s = true -> no_runs p (drop_while q s) = true.
Proof.
  induction s as [|c r IH]; [trivial|].
  intros H. cbn [drop_while]. destruct (q c); [|exact H].
  apply IH. cbn [no_runs] in H. apply andb_true_iff in H. tauto.
Qed.

Lemma head_is_drop_while_end p q (s : string) :
  head_is p (drop_while_end q s) = true -> head_is p s = true.
Proof.
  destruct s as [|c r]; [trivial|]. cbn [drop_while_end].
  destruct (drop_while_end q r); [destruct (q c)|]; trivial. discriminate.
Qed.

Lemma no_runs_drop_while_end p q (s : string) :
  no_runs p s = true -> no_runs p (drop_while_end q s) = true.
Proof.
  induction s as [|c r IH]; [trivial|].
  intros H. cbn [no_runs] in H. apply andb_true_iff in H. destruct H as [H1 H2].
  specialize (IH H2). cbn [drop_while_end].
  destruct (drop_while_end q r) as [|c' r'] eqn:E.
  - destruct (q c); [reflexivity|]. cbn. now rewrite andb_false_r.
  - change (no_runs p (String c (String c' r')))
      with (negb (p c && p c') && no_runs p (String c' r')).
    rewrite IH, andb_true_r.
    apply negb_true_iff. apply negb_true_iff in H1.
    destruct (p c) eqn:C; [|reflexivity]. cbn [andb] in *.
    pose proof (head_is_drop_while_end p q r) as Hh. rewrite E in Hh.
    cbn [head_is] in Hh. fold (head_is p r) in H1.
    destruct (p c') eqn:C'; [|reflexivity]. rewrite (Hh eq_refl) in H1. discriminate.
Qed.

Lemma forall_chars_drop_while p q (s : string) :
  forall_chars p s = true -> forall_chars p (drop_while q s) = true.
Proof.
  induction s as [|c r IH]; [trivial|].
  intros H. cbn [drop_while]. destruct (q c); [|exact H].
  apply IH. cbn in H. apply andb_true_iff in H. tauto.
Qed.

Lemma forall_chars_drop_while_end p q (s : string) :
  forall_chars p s = true -> forall_chars p (drop_while_end q s) = true.
Proof.
  induction s as [|c r IH]; [trivial|].
  intros H. cbn in H. apply andb_true_iff in H. destruct H as [H1 H2].
  specialize (IH H2). cbn [drop_while_end].
  destruct (drop_while_end q r) as [|c' r'].
  - destruct (q c); [reflexivity|]. cbn. now rewrite H1.
  - cbn [forall_chars] in *. now rewrite H1, IH.
Qed.

Lemma drop_while_head p (s : string) : head_is p (drop_while p s) = false.
Proof.
  induction s as [|c r IH]; [reflexivity|].
  cbn [drop_while]. destruct (p c) eqn:C; [exact IH | exact C].
Qed.

Lemma drop_while_fixed p (s : string) : head_is p s = false -> drop_while p s = s.
Proof. destruct s as [|c r]; [reflexivity|]. cbn. now intros ->. Qed.

Lemma drop_while_end_idempotent p (s : string) :
  drop_while_end p (drop_while_end p s) = drop_while_end p s.
Proof.
  induction s as [|c r IH]; [reflexivity|].
  cbn [drop_while_end].
  destruct (drop_while_end p r) as [|c' r'] eqn:E.
  - destruct (p c) eqn:C; [reflexivity|]. cbn. now rewrite C.
  - change (drop_while_end p (String c (String c' r')))
      with (match drop_while_end p (String c' r') with
            | EmptyString => if p c then EmptyString else String c EmptyString
            | String a b => String c (String a b)
            end).
    now rewrite IH.
Qed.

Lemma trim_idempotent p (s : string) : trim p (trim p s) = trim p s.
Proof.
  unfold trim.
  assert (H : head_is p (drop_while_end p (drop_while p s)) = false).
  { destruct (head_is p (drop_while_end p (drop_while p s))) eqn:E; [|reflexivity].
    apply head_is_drop_while_end in E. now rewrite drop_while_head in E. }
  rewrite (drop_while_fixed _ _ H). apply drop_while_end_idempotent.
Qed.

Lemma trim_head p (s : string) : head_is p (trim p s) = false.
Proof.
  unfold trim.
  destruct (head_is p (drop_while_end p (drop_while p s))) eqn:E; [|reflexivity].
  apply head_is_drop_while_end in E. now rewrite drop_while_head in E.
Qed.

(** A string that [drop_while_end] leaves as it is does not end with a
    character satisfying [p]. *)
Lemma endsWith_kept_end p (c : ascii) (s : string) :
  p c = true -> drop_while_end p s = s ->
  endsWith s (String c EmptyString) = false.
Proof.
  intros Hc. induction s as [|x r IH]; [reflexivity|].
  cbn [drop_while_end endsWith]. intros H.
  destruct (drop_while_end p r) as [|c' r'] eqn:E.
  - destruct (p x) eqn:X; [discriminate|].
    injection H as <-. cbn.
    destruct (Ascii.eqb_spec x c) as [->|N]; [congruence | reflexivity].
  - injection H as H. rewrite (IH H), orb_false_r. rewrite <- H. cbn.
    destruct (Ascii.eqb x c); reflexivity.
Qed.

Lemma startsWith_head p (c : ascii) (s : string) :
  p c = true -> head_is p s = false -> startsWith s (String c EmptyString) = false.
Proof.
  intros Hc. destruct s as [|x r]; [reflexivity|].
  unfold startsWith. cbn [String.prefix head_is].
  intros Hx. destruct (ascii_dec c x) as [->|N]; [congruence | reflexivity].
Qed.

Lemma map_chars_fixed (f : ascii -> ascii) (p : ascii -> bool) (s : string) :
  (forall c, p c = true -> f c = c) ->
  forall_chars p s = true -> map_chars f s = s.
Proof.
  intros Hf. induction s as [|c r IH]; [reflexivity|].
  cbn. intros H. apply andb_true_iff in H. destruct H as [H1 H2].
  now rewrite (Hf c H1), (IH H2).
Qed.

Lemma forall_chars_map_chars (f : ascii -> ascii) (p : ascii -> bool) (s : string) :
  (forall c, p (f c) = true) -> forall_chars p (map_chars f s) = true.
Proof.
  intros Hf. induction s as [|c r IH]; [reflexivity|].
  cbn. now rewrite Hf, IH.
Qed.

(** The three replacements before the placeholder. *)
Definition sanitized_core (str : string) : string :=
  trim (Ascii.eqb "_"%char)
    (collapse_runs (Ascii.eqb "_"%char)
       (map_chars (fun c => if keeps c then c else "_"%char) str)).

Lemma sanitized_core_facts (str : string) :
  forall_chars keeps (sanitized_core str) = true
  /\ no_runs (Ascii.eqb "_"%char) (sanitized_core str) = true
  /\ head_is (Ascii.eqb "_"%char) (sanitized_core str) = false
  /\ trim (Ascii.eqb "_"%char) (sanitized_core str) = sanitized_core str.
Proof.
  unfold sanitized_core. repeat split.
  - unfold trim. apply forall_chars_drop_while_end, forall_chars_drop_while,
      forall_chars_collapse_runs, forall_chars_map_chars.
    intros c. destruct (keeps c) eqn:K; [exact K | reflexivity].
  - unfold trim. apply no_runs_drop_while_end, no_runs_drop_while,
      collapse_runs_no_runs.
  - apply trim_head.
  - apply trim_idempotent.
Qed.

Lemma sanitized_as_specified_core (str : string) :
  sanitized_as_specified str
  = if truthy (sanitized_core str) then sanitized_core str else "untitled".
Proof. reflexivity. Qed.

Lemma sanitizeFilenameString_chars (str : string) :
  forall_chars keeps (sanitizeFilenameString str) = true.
Proof.
  rewrite sanitizeFilenameString_as_specified, sanitized_as_specified_core.
  destruct (sanitized_core_facts str) as (A & _).
  destruct (truthy (sanitized_core str)); [exact A | reflexivity].
Qed.

(** The sanitized subject is a name that can stand in a file name: it
    is not empty, it holds letters, digits, dots, hyphens and underscores
    only, and it neither starts nor ends with an underscore. *)
Theorem sanitizeFilenameString_safe (str : string) :
  truthy (sanitizeFilenameString str) = true
  /\ forall_chars keeps (sanitizeFilenameString str) = true
  /\ startsWith (sanitizeFilenameString str) "_" = false
  /\ endsWith (sanitizeFilenameString str) "_" = false.
Proof.
  rewrite sanitizeFilenameString_as_specified, sanitized_as_specified_core.
  destruct (sanitized_core_facts str) as (A & _ & H & T).
  destruct (truthy (sanitized_core str)) eqn:E; [|repeat split].
  repeat split; try assumption.
  - now apply (startsWith_head (Ascii.eqb "_"%char)).
  - apply (endsWith_kept_end (Ascii.eqb "_"%char)); [reflexivity|].
    unfold trim in T. rewrite (drop_while_fixed _ _ H) in T. exact T.
Qed.

(** Sanitizing twice changes nothing more. *)
Theorem sanitizeFilenameString_idempotent (str : string) :
  sanitizeFilenameString (sanitizeFilenameString str) = sanitizeFilenameString str.
Proof.
  rewrite !sanitizeFilenameString_as_specified.
  rewrite (sanitized_as_specified_core str).
  destruct (sanitized_core_facts str) as (A & N & H & T).
  destruct (truthy (sanitized_core str)) eqn:E; [|reflexivity].
  rewrite sanitized_as_specified_core.
  assert (C : sanitized_core (sanitized_core str) = sanitized_core str).
  { unfold sanitized_core at 1.
    rewrite (map_chars_fixed _ keeps) by
      (assumption || (intros c K; now rewrite K)).
    now rewrite collapse_runs_fixed by exact N. }
  now rewrite C, E.
Qed.

(** A subject that is already such a name is left as it is. *)
Theorem sanitizeFilenameString_fixed (str : string) :
  truthy str = true ->
  forall_chars keeps str = true ->
  no_runs (Ascii.eqb "_"%char) str = true ->
  startsWith str "_" = false ->
  endsWith str "_" = false ->
  sanitizeFilenameString str = str.
Proof.
  intros T A N S E.
  rewrite sanitizeFilenameString_as_specified, sanitized_as_specified_core.
  assert (C : sanitized_core str = str).
  { unfold sanitized_core.
    rewrite (map_chars_fixed _ keeps) by (assumption || (intros c K; now rewrite K)).
    rewrite collapse_runs_fixed by exact N.
    unfold trim.
    assert (H : head_is (Ascii.eqb "_"%char) str = false).
    { destruct str as [|c r]; [reflexivity|].
      unfold startsWith in S. cbn [String.prefix head_is] in S |- *.
      destruct (ascii_dec "_" c) as [<-|D]; [destruct r; simpl in S; discriminate S|].
      apply Ascii.eqb_neq. exact D. }
    rewrite (drop_while_fixed _ _ H).
    clear - E. induction str as [|c r IH]; [reflexivity|].
    cbn [endsWith] in E. apply orb_false_iff in E. destruct E as [E1 E2].
    specialize (IH E2). cbn [drop_while_end]. rewrite IH.
    destruct r as [|c' r']; [|reflexivity].
    destruct (Ascii.eqb_spec "_"%char c) as [<-|D]; [discriminate E1 | reflexivity]. }
  now rewrite C, T.
Qed.

Lemma sanitizeFilenameString_fixed_witness :
  sanitizeFilenameString "Final_Report-v1.2" = "Final_Report-v1.2".
Proof.
  apply (sanitizeFilenameString_fixed "Final_Report-v1.2"); reflexivity.
Defined.

(** *** A file name is one path component *)

(** Without a path separator. *)
Definition separator_free (s : string) : Prop :=
  exists_char Path.is_sep s = false.

Definition digit_or_hyphen (c : ascii) : bool :=
  is_digit c || Ascii.eqb c "-"%char.

Lemma forall_chars_separator_free (p : ascii -> bool) (s : string) :
  (forall c, p c = true -> Path.is_sep c = false) ->
  forall_chars p s = true -> separator_free s.
Proof.
  intros Hp. unfold separator_free. induction s as [|c r IH]; [reflexivity|].
  cbn. intros H. apply andb_true_iff in H. destruct H as [H1 H2].
  now rewrite (Hp c H1), (IH H2).
Qed.

Lemma separator_free_append (a b : string) :
  separator_free a -> separator_free b -> separator_free (a ++ b).
Proof.
  unfold separator_free. intros Ha Hb. now rewrite exists_char_append, Ha, Hb.
Qed.

Lemma separator_free_join (sep : string) (parts : list string) :
  separator_free sep -> Forall separator_free parts ->
  separator_free (join sep parts).
Proof.
  intros Hsep H. unfold join. induction H as [|x xs Hx Hxs IH]; [reflexivity|].
  destruct xs as [|y ys]; [exact Hx|].
  change (String.concat sep (x :: y :: ys))
    with (x ++ sep ++ String.concat sep (y :: ys)).
  now repeat apply separator_free_append.
Qed.

Lemma decimal_chars (fuel : nat) (n : Z) (acc : string) :
  forall_chars digit_or_hyphen acc = true ->
  forall_chars digit_or_hyphen (decimal fuel n acc) = true.
Proof.
  revert n acc. induction fuel as [|f IH]; intros n acc H;
    assert (D : digit_or_hyphen (digit_char (n mod 10)) = true)
      by (unfold digit_or_hyphen;
          destruct (digit_char_digit (n mod 10)) as [-> _];
          [pose proof (Z.mod_pos_bound n 10); lia | reflexivity]).
  - cbn. now rewrite D.
  - cbn [decimal]. destruct (n <? 10).
    + cbn. now rewrite D.
    + apply IH. cbn. now rewrite D.
Qed.

Lemma String_of_number_chars (n : Z) :
  forall_chars digit_or_hyphen (String_of_number n) = true.
Proof.
  unfold String_of_number. destruct (n <? 0).
  - cbn [forall_chars]. rewrite decimal_chars by reflexivity. reflexivity.
  - now apply decimal_chars.
Qed.

Lemma padStart_chars (w : nat) (s : string) :
  forall_chars digit_or_hyphen s = true ->
  forall_chars digit_or_hyphen (padStart w s) = true.
Proof.
  intros H. unfold padStart.
  induction (w - String.length s)%nat as [|k IH]; [exact H|].
  cbn. exact IH.
Qed.

Lemma digit_or_hyphen_no_separator (c : ascii) :
  digit_or_hyphen c = true -> Path.is_sep c = false.
Proof.
  destruct c as [[] [] [] [] [] [] [] []]; intros H; try discriminate H; reflexivity.
Qed.

Lemma keeps_no_separator (c : ascii) : keeps c = true -> Path.is_sep c = false.
Proof.
  destruct c as [[] [] [] [] [] [] [] []]; intros H; try discriminate H; reflexivity.
Qed.

(** What dayjs prints for the formats of the code holds digits and
    hyphens only. *)
Lemma format_token_chars (f : Dayjs.Fields) (t : Dayjs.Token) :
  match t with Dayjs.Lit s => forall_chars digit_or_hyphen s = true | _ => True end ->
  forall_chars digit_or_hyphen (Dayjs.format_token f t) = true.
Proof.
  destruct t; cbn [Dayjs.format_token]; intros H;
    try exact H; try apply padStart_chars; apply String_of_number_chars.
Qed.

Lemma forall_chars_join_empty (p : ascii -> bool) (parts : list string) :
  Forall (fun s => forall_chars p s = true) parts ->
  forall_chars p (join EmptyString parts) = true.
Proof.
  intros H. unfold join. induction H as [|x xs Hx Hxs IH]; [reflexivity|].
  destruct xs as [|y ys]; [exact Hx|].
  change (String.concat EmptyString (x :: y :: ys))
    with (x ++ EmptyString ++ String.concat EmptyString (y :: ys)).
  cbn [append]. now rewrite forall_chars_append, Hx, IH.
Qed.

Lemma format_fields_chars (f : Dayjs.Fields) (fmt : Dayjs.Format) :
  Forall (fun t => match t with
                   | Dayjs.Lit s => forall_chars digit_or_hyphen s = true
                   | _ => True
                   end) fmt ->
  forall_chars digit_or_hyphen (Dayjs.format_fields f fmt) = true.
Proof.
  intros H. unfold Dayjs.format_fields. apply forall_chars_join_empty.
  induction H as [|t ts Ht Hts IH]; constructor; [|exact IH].
  now apply format_token_chars.
Qed.

(** A file name that [constructFilename] returns holds no path
    separator when the identifier and the type hold none, whatever the
    date, the options and the subject: the name is one path component. *)
Theorem constructFilename_single_component (config : Config) (clock : Z)
        (date : JSDate.Date) (type hash : string) (subject : option string)
        (name : string) :
  separator_free hash -> separator_free type ->
  constructFilename config clock date type hash subject = Return name ->
  separator_free name.
Proof.
  intros Hhash Htype. unfold constructFilename.
  assert (Hdate : forall parts,
             (if requested config "date"
              then bind (formatDate config clock date (outputStructure config))
                        (fun dateStr => Return [dateStr])
              else Return []) = Return parts ->
             Forall separator_free parts).
  { intros parts. destruct (requested config "date"); [|intros H; injection H as <-; constructor].
    unfold formatDate.
    destruct (outputStructure config) as [[| | |]|]; cbn [bind]; intros H;
      try discriminate H;
      injection H as <-; (constructor; [|constructor]);
      (destruct date as [t|]; [|reflexivity]);
      (apply (forall_chars_separator_free digit_or_hyphen);
       [exact digit_or_hyphen_no_separator|]);
      apply format_fields_chars; repeat constructor. }
  destruct (if requested config "date" then _ else _) as [parts|e]; [|discriminate].
  specialize (Hdate parts eq_refl). cbn [bind]. intros H. injection H as <-.
  apply separator_free_join; [reflexivity|].
  apply Forall_app. split; [exact Hdate|].
  apply Forall_app. split.
  { destruct (requested config "time"); constructor; [|constructor].
    cbn [Dates.create Dates.format].
    destruct date as [t|]; [|reflexivity].
    apply (forall_chars_separator_free digit_or_hyphen);
      [exact digit_or_hyphen_no_separator|].
    apply format_fields_chars. repeat constructor. }
  constructor; [exact Hhash|]. constructor; [exact Htype|].
  destruct (requested config "subject"); constructor; [|constructor].
  apply (forall_chars_separator_free keeps); [exact keeps_no_separator|].
  apply sanitizeFilenameString_chars.
Qed.

Lemma constructFilename_single_component_witness :
  separator_free "2024-6-15-1030-abc123-eml-a_b_c".
Proof.
  apply (constructFilename_single_component
           {| timezone := Dayjs.UTC; outputDirectory := Some "/out";
              outputStructure := Some StructureNone;
              outputFilenameOptions := Some ["date"; "time"; "subject"] |}
           0 (Some 1718447400000) "eml" "abc123" (Some "a/b/c")).
  - reflexivity.
  - reflexivity.
  - vm_compute. reflexivity.
Defined.

End FileNameFacts.

(* ------------------------------------------------------------------ *)
(** ** The validation of a configuration *)
(* ------------------------------------------------------------------ *)

Section ValidationFacts.

Import Validation.

Variable ALLOWED_EXTENSIONS : list string.
Variable ALLOWED_INPUT_FILENAME_OPTIONS : list string.
Variable ALLOWED_INPUT_STRUCTURES : list string.
Variable ALLOWED_OUTPUT_STRUCTURES : list string.
Variable validTimezones : list string.

(** [validate] with the constants above. *)
Definition validate_with (isDirectoryReadable : string -> Promise bool)
           (isDirectoryWritable : string -> bool) (options : Options)
           (config : Config) : Result unit :=
  validate ALLOWED_EXTENSIONS ALLOWED_INPUT_FILENAME_OPTIONS ALLOWED_INPUT_STRUCTURES
           ALLOWED_OUTPUT_STRUCTURES validTimezones isDirectoryReadable
           isDirectoryWritable options config.

(** The input directory is never refused: [validateInputDirectory] tests
    the promise of [isDirectoryReadable], not its value, so the outcome of
    [validate] does not depend on what the file system says about the
    input directory. *)
Theorem validate_ignores_input_directory
        (readable readable' : string -> Promise bool)
        (isDirectoryWritable : string -> bool) (options : Options) (config : Config) :
  validate_with readable isDirectoryWritable options config
  = validate_with readable' isDirectoryWritable options config.
Proof. reflexivity. Qed.

(** The time zone is checked first: with a time zone that is not in the
    list, the error is the one on [--timezone], whatever else the
    configuration holds. *)
Theorem validate_timezone_first (isDirectoryReadable : string -> Promise bool)
        (isDirectoryWritable : string -> bool) (options : Options) (config : Config) :
  includes validTimezones (timezone config) = false ->
  validate_with isDirectoryReadable isDirectoryWritable options config
  = Throw (ArgumentError "--timezone"
             ("Invalid timezone: " ++ timezone config ++ ". Valid options are: "
              ++ join ", " validTimezones)).
Proof.
  intros H. unfold validate_with, validate, validateTimezone. now rewrite H.
Qed.

(** With the feature 'input', a limit below 0 is refused with the error
    on [--limit] ... *)
Theorem validate_negative_limit (isDirectoryReadable : string -> Promise bool)
        (isDirectoryWritable : string -> bool) (options : Options) (config : Config)
        (l : Z) :
  includes validTimezones (timezone config) = true ->
  includes (features options) "input" = true ->
  limit config = Some l -> l < 0 ->
  validate_with isDirectoryReadable isDirectoryWritable options config
  = Throw (ArgumentError "--limit" "Limit must be greater than 0").
Proof.
  intros Htz Hin Hl Hneg. unfold validate_with, validate, validateTimezone.
  rewrite Htz, Hin, Hl. cbn [bind when andb].
  assert (E : negb (l =? 0) && (l <? 1) = true).
  { apply andb_true_iff. split; [apply negb_true_iff, Z.eqb_neq | apply Z.ltb_lt]; lia. }
  rewrite E.
  destruct (given (inputDirectory config)); reflexivity.
Qed.

(** ... and the limit 0 is not: it is validated like no limit at all. *)
Theorem validate_zero_limit (isDirectoryReadable : string -> Promise bool)
        (isDirectoryWritable : string -> bool) (options : Options)
        (timezone : string) (inputDirectory outputDirectory outputStructure : option string)
        (outputFilenameOptions extensions : option (list string))
        (inputStructure : option string) (inputFilenameOptions : option (list string)) :
  validate_with isDirectoryReadable isDirectoryWritable options
    (mkConfig timezone inputDirectory (Some 0) outputDirectory outputStructure
              outputFilenameOptions extensions inputStructure inputFilenameOptions)
  = validate_with isDirectoryReadable isDirectoryWritable options
      (mkConfig timezone inputDirectory None outputDirectory outputStructure
                outputFilenameOptions extensions inputStructure inputFilenameOptions).
Proof.
  unfold validate_with, validate. cbn [limit Z.eqb negb andb].
  reflexivity.
Qed.

(** The settings of a feature that is not enabled are not looked at:
    without any of the five features only the time zone is validated. *)
Theorem validate_without_features (isDirectoryReadable : string -> Promise bool)
        (isDirectoryWritable : string -> bool) (options : Options) (config : Config) :
  Forall (fun feature => includes (features options) feature = false)
         ["input"; "output"; "structured-output"; "extensions"; "structured-input"] ->
  validate_with isDirectoryReadable isDirectoryWritable options config
  = validateTimezone validTimezones (timezone config).
Proof.
  intros H.
  inversion_clear H as [|? ? H1 Ha]. inversion_clear Ha as [|? ? H2 Hb].
  inversion_clear Hb as [|? ? H3 Hc]. inversion_clear Hc as [|? ? H4 Hd].
  inversion_clear Hd as [|? ? H5 _].
  unfold validate_with, validate. rewrite H1, H2, H3, H4, H5. cbn [andb when bind].
  destruct (validateTimezone validTimezones (timezone config)) as [[]|e]; reflexivity.
Qed.

End ValidationFacts.

Section FilenameOptionFacts.

Import Validate.

Lemma filter_none_forall {A : Type} (p : A -> bool) (l : list A) :
  (0 <? List.length (filter p l))%nat = false <-> Forall (fun x => p x = false) l.
Proof.
  induction l as [|x r IH]; simpl.
  - split; [constructor | reflexivity].
  - destruct (p x) eqn:E; simpl.
    + split; [discriminate|]. intros H. inversion H. congruence.
    + rewrite IH. split; [now constructor|]. intros H. now inversion H.
Qed.

(** The option lists [validateOutputFilenameOptions] accepts: the empty
    list, and every list whose first option holds no comma, that is not a
    single option with a space in it, whose options are all valid ones,
    and that does not ask for 'date' under the structure 'day'. *)
Theorem validateOutputFilenameOptions_accepts (allowed : option (list string))
        (first : string) (rest : list string)
        (outputStructure : option FilesystemStructure) :
  validateOutputFilenameOptions allowed (Some (first :: rest)) outputStructure
  = Return tt
  <-> includes_char first ","%char = false
      /\ (rest = [] -> List.length (split is_space first) = 1%nat)
      /\ Forall (fun opt =>
                   includes (match allowed with
                             | Some a => a
                             | None => ALLOWED_OUTPUT_FILENAME_OPTIONS
                             end) opt = true) (first :: rest)
      /\ (includes (first :: rest) "date" = true ->
          outputStructure <> Some StructureDay).
Proof.
  unfold validateOutputFilenameOptions.
  set (valid := match allowed with Some a => a | None => _ end).
  destruct (includes_char first ",") eqn:C.
  { split; [discriminate | intros (H & _); discriminate H]. }
  assert (L : (1 <? List.length (split is_space first))%nat = false
              <-> List.length (split is_space first) = 1%nat).
  { destruct (split is_space first) as [|a [|b l]] eqn:S.
    - destruct first; simpl in S; [discriminate|].
      destruct (is_space a); [discriminate | destruct (split is_space first); discriminate].
    - split; reflexivity.
    - split; discriminate. }
  destruct ((List.length (first :: rest) =? 1)%nat
            && (1 <? List.length (split is_space first))%nat) eqn:Q.
  { split; [discriminate|]. intros (_ & H & _). exfalso.
    apply andb_true_iff in Q. destruct Q as [Q1 Q2].
    destruct rest; [|discriminate Q1].
    apply L in H; [congruence | reflexivity]. }
  assert (Q' : rest = [] -> List.length (split is_space first) = 1%nat).
  { intros ->. cbn in Q. now apply L. }
  destruct (0 <? List.length (filter (fun opt => negb (includes valid opt))
                                      (first :: rest)))%nat eqn:F.
  { split; [discriminate|]. intros (_ & _ & H & _). exfalso.
    apply Bool.not_false_iff_true in F. apply F. apply filter_none_forall.
    eapply Forall_impl; [|exact H]. cbn. now intros a ->. }
  apply filter_none_forall in F.
  assert (F' : Forall (fun opt => includes valid opt = true) (first :: rest)).
  { eapply Forall_impl; [|exact F]. cbn. intros a H. now apply negb_false_iff in H. }
  destruct (includes (first :: rest) "date") eqn:D.
  - assert (Day : outputStructure = Some StructureDay
                  \/ outputStructure <> Some StructureDay)
      by (destruct outputStructure as [[| | |]|];
          (left; reflexivity) || (right; discriminate)).
    destruct Day as [-> | N].
    + split; [discriminate|]. intros (_ & _ & _ & H). exfalso. now apply H.
    + split.
      * intros _. repeat split; try assumption. intros _. exact N.
      * intros _. destruct outputStructure as [[| | |]|]; congruence.
  - split; [|reflexivity]. intros _. repeat split; try assumption. discriminate.
Qed.

End FilenameOptionFacts.

Lemma validate_timezone_first_witness :
  validate_with [] [] [] [] ["UTC"] (fun _ => Validation.resolves_to false)
    (fun _ => true) (Validation.mkOptions ["input"] None)
    (Validation.mkConfig "Mars/Olympus" None None None None None None None None)
  = Throw (ArgumentError "--timezone"
             ("Invalid timezone: " ++ "Mars/Olympus" ++ ". Valid options are: "
              ++ join ", " ["UTC"])).
Proof.
  apply (validate_timezone_first [] [] [] [] ["UTC"]
           (fun _ => Validation.resolves_to false) (fun _ => true)
           (Validation.mkOptions ["input"] None)
           (Validation.mkConfig "Mars/Olympus" None None None None None None None None)).
  reflexivity.
Defined.

Lemma validate_negative_limit_witness :
  validate_with [] [] [] [] ["UTC"] (fun _ => Validation.resolves_to false)
    (fun _ => true) (Validation.mkOptions ["input"] None)
    (Validation.mkConfig "UTC" (Some "/in") (Some (-5)) None None None None None None)
  = Throw (ArgumentError "--limit" "Limit must be greater than 0").
Proof.
  apply (validate_negative_limit [] [] [] [] ["UTC"]
           (fun _ => Validation.resolves_to false) (fun _ => true)
           (Validation.mkOptions ["input"] None)
           (Validation.mkConfig "UTC" (Some "/in") (Some (-5)) None None None None None None)
           (-5)).
  - reflexivity.
  - reflexivity.
  - reflexivity.
  - lia.
Defined.

Lemma validate_without_features_witness :
  validate_with [] [] [] [] ["UTC"] (fun _ => Validation.resolves_to false)
    (fun _ => false) (Validation.mkOptions [] None)
    (Validation.mkConfig "UTC" (Some "/in") (Some (-5)) (Some "/out") (Some "week")
       (Some ["date,time"]) (Some [".md"]) (Some "week") (Some ["date time"]))
  = Validation.validateTimezone ["UTC"] "UTC".
Proof.
  apply (validate_without_features [] [] [] [] ["UTC"]
           (fun _ => Validation.resolves_to false) (fun _ => false)
           (Validation.mkOptions [] None)).
  repeat constructor.
Defined.

(* ------------------------------------------------------------------ *)
(** ** The unstructured walk *)
(* ------------------------------------------------------------------ *)

Section UnstructuredFacts.

Import Unstructured.

(** The characters of [s] that satisfy [p], in order. *)
Fixpoint keep_chars (p : ascii -> bool) (s : string) : string :=
  match s with
  | EmptyString => EmptyString
  | String c r => if p c then String c (keep_chars p r) else keep_chars p r
  end.

(** [/[a-zA-Z0-9]/] *)
Definition alphanumeric (c : ascii) : bool := is_lower c || is_upper c || is_digit c.

(** [s.replace(/[C]/g, '')] removes each character of the class. *)
Lemma replace_one_of_by_nothing p (s : string) :
  RegExp.replace (RegExp.one_of p) true EmptyString s
  = keep_chars (fun c => negb (p c)) s.
Proof.
  unfold RegExp.replace. generalize true at 2. induction s as [|c r IH]; intros b.
  - reflexivity.
  - simpl. destruct (p c); simpl; now rewrite IH.
Qed.

Lemma sanitizeExtension_keeps (ext : string) :
  sanitizeExtension ext = keep_chars alphanumeric ext.
Proof.
  unfold sanitizeExtension. rewrite replace_one_of_by_nothing.
  induction ext as [|c r IH]; [reflexivity|].
  cbn [keep_chars]. unfold not_alphanumeric at 1. fold (alphanumeric c).
  rewrite negb_involutive, IH. reflexivity.
Qed.

Lemma keep_chars_all p (s : string) : forall_chars p (keep_chars p s) = true.
Proof.
  induction s as [|c r IH]; [reflexivity|].
  cbn [keep_chars]. destruct (p c) eqn:E; [cbn; now rewrite E | exact IH].
Qed.

Lemma keep_chars_length p (s : string) :
  (String.length (keep_chars p s) <= String.length s)%nat.
Proof.
  induction s as [|c r IH]; [reflexivity|].
  cbn [keep_chars]. destruct (p c); simpl; lia.
Qed.

Lemma keep_chars_fixed p (s : string) :
  keep_chars p s = s <-> forall_chars p s = true.
Proof.
  induction s as [|c r IH]; [now split|].
  cbn [keep_chars forall_chars]. destruct (p c) eqn:E; cbn [andb].
  - rewrite <- IH. split; [intros H; now injection H | now intros ->].
  - split; [|discriminate]. intros H. exfalso.
    pose proof (keep_chars_length p r) as L. rewrite H in L. simpl in L. lia.
Qed.

Lemma keep_chars_empty p (s : string) :
  keep_chars p s = EmptyString <-> forall_chars (fun c => negb (p c)) s = true.
Proof.
  induction s as [|c r IH]; [now split|].
  cbn [keep_chars forall_chars]. destruct (p c); cbn [negb andb]; [|exact IH].
  split; discriminate.
Qed.

(** [sanitizeExtension] returns letters and digits only, and it leaves
    unchanged exactly the extensions made of letters and digits. *)
Theorem sanitizeExtension_alphanumeric (ext : string) :
  forall_chars alphanumeric (sanitizeExtension ext) = true
  /\ (sanitizeExtension ext = ext <-> forall_chars alphanumeric ext = true)
  /\ sanitizeExtension (sanitizeExtension ext) = sanitizeExtension ext.
Proof.
  rewrite !sanitizeExtension_keeps. split; [apply keep_chars_all|]. split.
  - apply keep_chars_fixed.
  - apply keep_chars_fixed, keep_chars_all.
Qed.

(** The extensions that go into the pattern. *)
Definition safe_extensions (extensions : list string) : list string :=
  filter (fun ext => (0 <? String.length ext)%nat) (map sanitizeExtension extensions).

Lemma safe_extensions_safe (extensions : list string) :
  Forall (fun ext => truthy ext = true /\ forall_chars alphanumeric ext = true)
         (safe_extensions extensions).
Proof.
  unfold safe_extensions. induction extensions as [|e r IH]; [constructor|].
  cbn [map filter].
  destruct (0 <? String.length (sanitizeExtension e))%nat eqn:E; [|exact IH].
  constructor; [|exact IH]. split.
  - destruct (sanitizeExtension e); [discriminate E | reflexivity].
  - rewrite sanitizeExtension_keeps. apply keep_chars_all.
Qed.

(** With extensions given, the pattern that [process] walks with is
    [*.{...}] (after [**/] when recursive) around extensions that are not
    empty and hold letters and digits only: no character of an extension
    that means something to glob reaches the pattern. *)
Theorem filePattern_extensions_safe (recursive : bool) (first : string)
        (rest : list string) (pattern : string) :
  filePattern recursive (Some (first :: rest)) = Return pattern ->
  exists safe,
    safe <> []
    /\ Forall (fun ext => truthy ext = true /\ forall_chars alphanumeric ext = true) safe
    /\ pattern = (if recursive then "**/*.{" else "*.{") ++ join "," safe ++ "}".
Proof.
  unfold filePattern. fold (safe_extensions (first :: rest)).
  destruct (List.length (safe_extensions (first :: rest)) =? 0)%nat eqn:E;
    [discriminate|].
  intros H. exists (safe_extensions (first :: rest)). split; [|split].
  - intros N. rewrite N in E. discriminate E.
  - apply safe_extensions_safe.
  - destruct recursive; injection H as <-; reflexivity.
Qed.

Lemma filePattern_extensions_safe_witness :
  exists safe,
    safe <> []
    /\ Forall (fun ext => truthy ext = true /\ forall_chars alphanumeric ext = true) safe
    /\ "**/*.{md,txt}" = (if true then "**/*.{" else "*.{") ++ join "," safe ++ "}".
Proof.
  apply (filePattern_extensions_safe true "m*d" ["{,}"; ".txt"] "**/*.{md,txt}").
  reflexivity.
Defined.

(** The walk is refused exactly when extensions are given and none of
    them holds a letter or a digit. *)
Theorem unstructured_filePattern_throws_iff (recursive : bool) (extensions : option (list string)) :
  (exists e, filePattern recursive extensions = Throw e)
  <-> exists first rest,
        extensions = Some (first :: rest)
        /\ Forall (fun ext => forall_chars not_alphanumeric ext = true) (first :: rest).
Proof.
  assert (K : forall l,
             (List.length (safe_extensions l) =? 0)%nat = true
             <-> Forall (fun ext => forall_chars not_alphanumeric ext = true) l).
  { unfold safe_extensions. induction l as [|e r IH]; [split; [constructor | reflexivity]|].
    cbn [map filter].
    assert (Z : (0 <? String.length (sanitizeExtension e))%nat = false
                <-> forall_chars not_alphanumeric e = true).
    { rewrite sanitizeExtension_keeps. unfold not_alphanumeric.
      fold alphanumeric. rewrite <- (keep_chars_empty alphanumeric).
      destruct (keep_chars alphanumeric e); split; (reflexivity || discriminate). }
    destruct (0 <? String.length (sanitizeExtension e))%nat eqn:E.
    - split; [discriminate|]. intros H. inversion H as [|? ? H1 H2].
      apply Z in H1. discriminate H1.
    - rewrite IH. split; [intros H; constructor; [now apply Z | exact H]|].
      intros H. now inversion H. }
  unfold filePattern. destruct extensions as [[|first rest]|].
  - split; [intros (e & H); destruct recursive; discriminate H|].
    intros (f & r & H & _). discriminate H.
  - fold (safe_extensions (first :: rest)).
    destruct (List.length (safe_extensions (first :: rest)) =? 0)%nat eqn:E.
    + split; [|intros _; eexists; reflexivity].
      intros _. exists first, rest. split; [reflexivity | now apply K].
    + split; [intros (e & H); destruct recursive; discriminate H|].
      intros (f & r & H & A). injection H as <- <-. apply K in A. congruence.
  - split; [intros (e & H); destruct recursive; discriminate H|].
    intros (f & r & H & _). discriminate H.
Qed.

End UnstructuredFacts.
(* ------------------------------------------------------------------ *)
(** ** The files and the count of a finished walk *)
(* ------------------------------------------------------------------ *)

Section FinishedWalk.

Import Storage.

Variable glob : string -> string -> list string.
Variable path_join : string -> string -> string.
Context {State Pending : Type}.
Variable call : string -> State -> State * Pending.
Variable settle : Pending -> State -> State.
Variable directory : string.
Variable options : Options.

(** The files a finished walk has handed to the callback:
    [files.slice(0, limit)], in that order. *)
Lemma finished_walk_considered (schedule : list nat) (s : State) :
  all_finished (pool_after glob path_join call settle directory options schedule s)
  = true ->
  forallb truthy (files_of glob directory options) = true ->
  considered (pool_after glob path_join call settle directory options schedule s)
  = firstn (limit_of glob directory options) (files_of glob directory options).
Proof.
  intros Hfin Ht. unfold pool_after in *.
  pose proof (pool_invariant_run path_join call settle directory _ _ schedule _
                (pool_invariant_start glob directory options s))
    as Hinv.
  apply (finished_pool_considered_all directory _ _ _ Hinv).
  - rewrite length_firstn. lia.
  - intros E. apply (f_equal (@List.length _)) in E.
    rewrite workers_length_run in E. cbn [start workers] in E.
    rewrite repeat_length in E. simpl in E.
    destruct (concurrency options) as [[|c]|]; simpl in E; discriminate.
  - exact Hfin.
  - now apply forallb_firstn.
Qed.

(** Counting the workers that satisfy [q], when one worker changes. *)
Lemma count_set_worker (q : @Worker Pending -> bool) (i : nat)
      (w w' : @Worker Pending) (ws : list (@Worker Pending)) :
  nth_error ws i = Some w ->
  (List.length (filter q (set_worker i w' ws)) + (if q w then 1 else 0)
   = List.length (filter q ws) + (if q w' then 1 else 0))%nat.
Proof.
  revert i. induction ws as [|x r IH]; intros i H.
  - destruct i; discriminate.
  - destruct i as [|i]; simpl in H.
    + injection H as ->. simpl. destruct (q w), (q w'); simpl; lia.
    + specialize (IH i H). simpl. destruct (q x); simpl; lia.
Qed.

Lemma count_finished (q : @Worker Pending -> bool) (ws : list (@Worker Pending)) :
  q Finished = false -> forallb is_finished ws = true ->
  List.length (filter q ws) = O.
Proof.
  intros Hq. induction ws as [|x r IH]; simpl; [reflexivity|].
  intros H. apply andb_true_iff in H. destruct H as [Hx Hr].
  destruct x; try discriminate. rewrite Hq. now apply IH.
Qed.

End FinishedWalk.

Section UnstructuredWalk.

Import Storage Unstructured.

Variable glob : string -> string -> list string.
Variable path_join : string -> string -> string.
Variable inputDirectory : string.
Variable callback : Callback.

(** A worker that awaits a callback that returns. *)
Definition awaits_return (w : @Worker (Result unit)) : bool :=
  match w with
  | Awaiting outcome => returned outcome
  | _ => false
  end.

(** The calls of the callback that return. *)
Definition calls_that_return (calls : list string) : nat :=
  List.length (filter (fun file => returned (callback file)) calls).

Record unstructured_invariant (pool : @Pool Walk (Result unit)) : Prop := {
  walk_files : callbackCalls (state pool)
               = map (path_join inputDirectory) (considered pool);
  walk_returns : (fileCount (state pool)
                  + List.length (filter awaits_return (workers pool))
                  = calls_that_return (callbackCalls (state pool)))%nat
}.

Lemma unstructured_invariant_step (lim : nat) (pool : @Pool Walk (Result unit))
      (i : nat) :
  unstructured_invariant pool ->
  unstructured_invariant
    (step path_join (per_file_call callback) per_file_settle inputDirectory lim pool i).
Proof.
  intros [Hfiles Hcount]. unfold step.
  destruct (nth_error (workers pool) i) as [[|p|]|] eqn:Hw.
  - pose proof (count_set_worker awaits_return i AtLoop Finished _ Hw) as F.
    simpl in F.
    destruct (fileQueue pool) as [|file rest].
    + constructor; cbn [state workers considered]; [assumption | lia].
    + destruct (filesProcessed pool <? lim)%nat;
        [|constructor; cbn [state workers considered]; [assumption | lia]].
      destruct (truthy file);
        [|constructor; cbn [state workers considered]; [assumption | lia]].
      unfold per_file_call.
      pose proof (count_set_worker awaits_return i AtLoop
                    (Awaiting (callback (path_join inputDirectory file))) _ Hw) as A.
      cbn [awaits_return] in A.
      constructor; cbn [state workers considered fileCount callbackCalls].
      * rewrite map_app, Hfiles. reflexivity.
      * unfold calls_that_return in *. rewrite filter_app, length_app.
        cbn [filter].
        destruct (returned (callback (path_join inputDirectory file)));
          cbn [List.length] in *; lia.
  - pose proof (count_set_worker awaits_return i (Awaiting p)
                  (if (lim <=? S (filesProcessed pool))%nat then Finished else AtLoop)
                  _ Hw) as A.
    assert (B : awaits_return
                  (if (lim <=? S (filesProcessed pool))%nat then Finished else AtLoop)
                = false) by (destruct (lim <=? _)%nat; reflexivity).
    rewrite B in A. cbn [awaits_return] in A.
    unfold per_file_settle.
    destruct p as [[]|e]; cbn [returned] in A;
      constructor; cbn [state workers considered fileCount callbackCalls];
      try assumption; lia.
  - constructor; assumption.
  - constructor; assumption.
Qed.

Lemma unstructured_invariant_run (lim : nat) (schedule : list nat)
      (pool : @Pool Walk (Result unit)) :
  unstructured_invariant pool ->
  unstructured_invariant
    (run path_join (per_file_call callback) per_file_settle inputDirectory lim
         schedule pool).
Proof.
  unfold run. revert pool. induction schedule as [|i r IH]; intros pool H; simpl.
  - exact H.
  - apply IH. now apply unstructured_invariant_step.
Qed.

(** The number an unstructured walk returns does not depend on the order
    in which the workers move: it is the number of files, among the first
    [limit] files of the enumeration (all of them without a limit), whose
    callback returns; a callback that throws leaves its file out of the
    count and stops nothing. *)
Theorem unstructured_process_count (recursive : bool)
        (extensions : option (list string)) (limit : option nat)
        (concurrency : option nat) (schedule : list nat) (n : nat) :
  process glob path_join inputDirectory recursive extensions limit callback
          concurrency schedule = Return (Some n) ->
  exists pattern,
    filePattern recursive extensions = Return pattern
    /\ (forallb truthy (glob pattern inputDirectory) = true ->
        n = List.length
              (filter (fun file => returned (callback (path_join inputDirectory file)))
                      (firstn (or_default limit
                                          (List.length (glob pattern inputDirectory)))
                              (glob pattern inputDirectory)))).
Proof.
  unfold process, process_walk.
  destruct (filePattern recursive extensions) as [pattern|e]; [|discriminate].
  cbn [bind]. unfold forEachFileIn.
  set (options := mkOptions pattern limit concurrency).
  fold (pool_after glob path_join (per_file_call callback) per_file_settle
                   inputDirectory options schedule
                   {| fileCount := O; callbackCalls := [] |}).
  set (pool := pool_after _ _ _ _ _ _ _ _).
  destruct (all_finished pool) eqn:F; [|discriminate].
  cbn [option_map]. intros H. injection H as <-.
  exists pattern. split; [reflexivity|]. intros Ht.
  assert (Hinv : unstructured_invariant pool).
  { apply unstructured_invariant_run.
    constructor; cbn [start state workers considered fileCount callbackCalls];
      [reflexivity|].
    unfold calls_that_return.
    induction (or_default (Storage.concurrency options) 1) as [|k IH];
      simpl; [reflexivity | exact IH]. }
  destruct Hinv as [Hfiles Hcount].
  rewrite (count_finished awaits_return) in Hcount by (reflexivity || exact F).
  rewrite Nat.add_0_r in Hcount. rewrite Hcount. unfold calls_that_return.
  rewrite Hfiles. subst pool.
  rewrite (finished_walk_considered glob path_join _ _ inputDirectory options
             schedule _ F Ht).
  clear. unfold limit_of, files_of. cbn [Storage.pattern Storage.limit].
  induction (firstn _ _) as [|f r IH]; [reflexivity|].
  cbn [map filter]. destruct (returned (callback (path_join inputDirectory f)));
    cbn [List.length]; now rewrite IH.
Qed.

End UnstructuredWalk.

(** Three files, the limit 2, two workers, and a callback that throws
    for the first file: the count is 1. *)
Lemma unstructured_process_count_witness :
  exists pattern,
    Unstructured.filePattern true (Some ["txt"]) = Return pattern
    /\ (forallb truthy ["a.txt"; "b.txt"; "c.txt"] = true ->
        1%nat
        = List.length
            (filter (fun file =>
                       returned (if String.eqb (plain_join "/in" file) "/in/a.txt"
                                 then Throw (GenericError "no")
                                 else Return tt))
                    (firstn (Storage.or_default (Some 2%nat)
                               (List.length ["a.txt"; "b.txt"; "c.txt"]))
                            ["a.txt"; "b.txt"; "c.txt"]))).
Proof.
  apply (unstructured_process_count
           (fun _ _ => ["a.txt"; "b.txt"; "c.txt"]) plain_join "/in"
           (fun f => if String.eqb f "/in/a.txt"
                     then Throw (GenericError "no") else Return tt)
           true (Some ["txt"]) (Some 2%nat) (Some 2%nat) [0; 1; 1; 0; 0; 1]%nat 1%nat).
  vm_compute. reflexivity.
Defined.

Section StructuredWalk.

Import Storage Structured.

Variable glob : string -> string -> list string.
Variable path_join path_relative : string -> string -> string.
Variable inputDirectory structure : string.
Variable shouldParseTime : bool.
Variable callback : Callback.
Variable filePattern : string.
Variable dateRange : DateRange.

(** What [processStructuredFile] resolves to for a file of the
    enumeration. *)
Definition file_processed (file : string) : bool :=
  processStructuredFile_result
    (processStructuredFile_call path_relative (path_join inputDirectory file)
       inputDirectory structure shouldParseTime callback filePattern dateRange).

Definition structured_invariant (pool : @Pool Walk Started) : Prop :=
  (fileCount (state pool) + List.length (filter pending_result (workers pool))
   = List.length (filter file_processed (considered pool)))%nat.

Lemma structured_invariant_step (lim : nat) (pool : @Pool Walk Started) (i : nat) :
  structured_invariant pool ->
  structured_invariant
    (step path_join
          (per_file_call path_relative inputDirectory structure shouldParseTime
                         callback filePattern dateRange)
          per_file_settle inputDirectory lim pool i).
Proof.
  unfold structured_invariant. intros Hcount. unfold step.
  destruct (nth_error (workers pool) i) as [[|p|]|] eqn:Hw.
  - pose proof (count_set_worker pending_result i AtLoop Finished _ Hw) as F.
    simpl in F.
    destruct (fileQueue pool) as [|file rest].
    + cbn [state workers considered]. lia.
    + destruct (filesProcessed pool <? lim)%nat; [|cbn [state workers considered]; lia].
      destruct (truthy file); [|cbn [state workers considered]; lia].
      unfold per_file_call.
      pose proof (count_set_worker pending_result i AtLoop
                    (Awaiting (processStructuredFile_call path_relative
                                 (path_join inputDirectory file) inputDirectory structure
                                 shouldParseTime callback filePattern dateRange))
                    _ Hw) as A.
      cbn [pending_result] in A. fold (file_processed file) in A.
      destruct (processStructuredFile_call _ _ _ _ _ _ _ _) as [|date outcome] eqn:C;
        cbn [state workers considered fileCount];
        rewrite filter_app, length_app; cbn [filter];
        destruct (file_processed file); cbn [List.length] in *; lia.
  - pose proof (count_set_worker pending_result i (Awaiting p)
                  (if (lim <=? S (filesProcessed pool))%nat then Finished else AtLoop)
                  _ Hw) as A.
    assert (B : pending_result
                  (if (lim <=? S (filesProcessed pool))%nat then Finished else AtLoop)
                = false) by (destruct (lim <=? _)%nat; reflexivity).
    rewrite B in A. cbn [pending_result] in A.
    unfold per_file_settle.
    destruct (processStructuredFile_result p);
      cbn [state workers considered fileCount]; lia.
  - exact Hcount.
  - exact Hcount.
Qed.

Lemma structured_invariant_run (lim : nat) (schedule : list nat)
      (pool : @Pool Walk Started) :
  structured_invariant pool ->
  structured_invariant
    (run path_join
         (per_file_call path_relative inputDirectory structure shouldParseTime
                        callback filePattern dateRange)
         per_file_settle inputDirectory lim schedule pool).
Proof.
  unfold run. revert pool. induction schedule as [|i r IH]; intros pool H; simpl.
  - exact H.
  - apply IH. now apply structured_invariant_step.
Qed.

(** The count of a finished structured walk over the files of the
    enumeration. *)
Lemma structured_walk_count (options : Options) (schedule : list nat) (w : Walk) :
  forEachFileIn glob path_join
    (per_file_call path_relative inputDirectory structure shouldParseTime
                   callback filePattern dateRange)
    per_file_settle inputDirectory options schedule
    {| fileCount := O; callbackCalls := [] |} = Some w ->
  forallb truthy (files_of glob inputDirectory options) = true ->
  fileCount w
  = List.length
      (filter file_processed
              (firstn (limit_of glob inputDirectory options)
                      (files_of glob inputDirectory options))).
Proof.
  unfold forEachFileIn.
  fold (pool_after glob path_join
          (per_file_call path_relative inputDirectory structure shouldParseTime
                         callback filePattern dateRange)
          per_file_settle inputDirectory options schedule
          {| fileCount := O; callbackCalls := [] |}).
  destruct (all_finished (pool_after _ _ _ _ _ _ _ _)) eqn:F; [|discriminate].
  intros H Ht. injection H as <-.
  assert (Hstart : structured_invariant
                     (start glob inputDirectory options
                            {| fileCount := O; callbackCalls := [] |})).
  { unfold structured_invariant. cbn [start state workers considered fileCount].
    induction (or_default (concurrency options) 1) as [|k IH];
      simpl; [reflexivity | exact IH]. }
  pose proof (structured_invariant_run (limit_of glob inputDirectory options) schedule
                _ Hstart) as Hinv.
  fold (pool_after glob path_join
          (per_file_call path_relative inputDirectory structure shouldParseTime
                         callback filePattern dateRange)
          per_file_settle inputDirectory options schedule
          {| fileCount := O; callbackCalls := [] |}) in Hinv.
  unfold structured_invariant in Hinv.
  rewrite (count_finished pending_result) in Hinv by (reflexivity || exact F).
  rewrite (finished_walk_considered glob path_join _ _ inputDirectory options
             schedule _ F Ht) in Hinv.
  rewrite Nat.add_0_r in Hinv. exact Hinv.
Qed.

End StructuredWalk.

Section CountOfStructuredProcess.

Import Storage Structured.

Variable glob : string -> string -> list string.
Variable path_join path_relative : string -> string -> string.

(** The number a structured walk returns does not depend on the order in
    which the workers move: it is the number of files, among the first
    [limit] files of the enumeration (all of them without a limit), for
    which [processStructuredFile] resolves to true.  So the count is never
    above the limit. *)
Theorem structured_process_count (inputStructure : option FilesystemStructure)
        (inputFilenameOptions extensions : option (list string))
        (timezone : Dayjs.Timezone) (clock : Z)
        (start end_ : option JSDate.Date) (limit : option nat)
        (features : list string) (inputDirectory : string)
        (callback : Callback) (concurrency : option nat) (schedule : list nat)
        (n : nat) :
  process glob path_join path_relative inputStructure inputFilenameOptions
    extensions timezone clock start end_ limit features inputDirectory
    callback concurrency schedule = Return (Some n) ->
  exists dateRange pattern,
    calculateDateRange timezone clock start end_ = Return dateRange
    /\ getFilePattern features (match extensions with Some l => l | None => [] end)
       = Return pattern
    /\ (forallb truthy (glob pattern inputDirectory) = true ->
        n = List.length
              (filter (file_processed path_join path_relative inputDirectory
                         (match inputStructure with
                          | Some s => structure_name s
                          | None => "none"
                          end)
                         (match inputFilenameOptions with
                          | Some options => includes options "time"
                          | None => false
                          end)
                         callback pattern dateRange)
                      (firstn (or_default limit
                                 (List.length (glob pattern inputDirectory)))
                              (glob pattern inputDirectory)))
        /\ (forall l, limit = Some (S l) -> (n <= S l)%nat)).
Proof.
  unfold process, process_walk.
  destruct (calculateDateRange timezone clock start end_) as [dateRange|e];
    [|discriminate].
  cbn [bind].
  destruct (getFilePattern features _) as [pattern|e]; [|discriminate].
  cbn [bind].
  destruct (forEachFileIn _ _ _ _ _ _ _ _) as [w|] eqn:W; [|discriminate].
  cbn [option_map]. intros H. injection H as <-.
  exists dateRange, pattern. split; [reflexivity|]. split; [reflexivity|].
  intros Ht.
  pose proof (structured_walk_count glob path_join path_relative inputDirectory
                _ _ callback pattern dateRange _ schedule w W Ht) as C.
  unfold limit_of, files_of in C. cbn [Storage.pattern Storage.limit] in C.
  split; [exact C|].
  intros l ->. rewrite C. cbn [or_default].
  pose proof (filter_length_le
                (file_processed path_join path_relative inputDirectory
                   (match inputStructure with
                    | Some s => structure_name s
                    | None => "none"
                    end)
                   (match inputFilenameOptions with
                    | Some options => includes options "time"
                    | None => false
                    end)
                   callback pattern dateRange)
                (firstn (S l) (glob pattern inputDirectory))) as L.
  rewrite length_firstn in L. lia.
Qed.

End CountOfStructuredProcess.

(** Two files dated in the range and one that does not decode, the limit
    2: the walk looks at the first two files, and the count is 1. *)
Lemma structured_process_count_witness :
  exists dateRange pattern,
    Structured.calculateDateRange Dayjs.UTC 1672531200000
      (Some (Some 1640995200000)) (Some (Some 1672531200000)) = Return dateRange
    /\ Structured.getFilePattern [] ["txt"] = Return pattern
    /\ (forallb truthy ["notes/readme.txt"; "2022/01/15/0830-a.txt";
                        "2022/01/16/0900-b.txt"] = true ->
        1%nat
        = List.length
            (filter (file_processed plain_join plain_relative "/input" "day" true
                       (fun _ _ => Return tt) pattern dateRange)
                    (firstn (Storage.or_default (Some 2%nat)
                               (List.length ["notes/readme.txt"; "2022/01/15/0830-a.txt";
                                             "2022/01/16/0900-b.txt"]))
                            ["notes/readme.txt"; "2022/01/15/0830-a.txt";
                             "2022/01/16/0900-b.txt"]))
        /\ (forall l, Some 2%nat = Some (S l) -> (1 <= S l)%nat)).
Proof.
  apply (structured_process_count
           (fun _ _ => ["notes/readme.txt"; "2022/01/15/0830-a.txt";
                        "2022/01/16/0900-b.txt"])
           plain_join plain_relative
           (Some StructureDay) (Some ["time"]) (Some ["txt"]) Dayjs.UTC 1672531200000
           (Some (Some 1640995200000)) (Some (Some 1672531200000)) (Some 2%nat) []
           "/input" (fun _ _ => Return tt) None [0; 0; 0; 0; 0]%nat 1%nat).
  vm_compute. reflexivity.
Defined.

(* ------------------------------------------------------------------ *)
(** ** The checks on a path *)
(* ------------------------------------------------------------------ *)

Section StorageCheckFacts.

Import StorageChecks.

Variable world : World.

(** The promise of a check, started after [n] calls of [fs.promises],
    is rejected. *)
Definition rejects {A : Type} (check : Async A) (n : nat) : Prop :=
  exists e m, check n = (Throw e, m).

(** The path is there for the first [stat] of a check and gone for the
    second. *)
Definition lost_between_stats (path : string) (n : nat) : Prop :=
  (exists stats, stat (world n) path = Return stats)
  /\ (exists e, stat (world (S n)) path = Throw e).

Lemma and_await_rejects (a b : Async bool) (n : nat) :
  rejects (and_await a b) n
  <-> rejects a n \/ (exists m, a n = (Return true, m) /\ rejects b m).
Proof.
  unfold rejects, and_await. destruct (a n) as [[[|]|e] m].
  - split.
    + intros H. right. exists m. split; [reflexivity | exact H].
    + intros [(e & k & H) | (k & H & R)]; [discriminate H|].
      injection H as <-. exact R.
  - split.
    + intros (e & k & H). discriminate H.
    + intros [(e & k & H) | (k & H & _)]; discriminate H.
  - split.
    + intros _. left. do 2 eexists. reflexivity.
    + intros _. do 2 eexists. reflexivity.
Qed.

Lemma exists_never_rejects (path : string) (n : nat) :
  ~ rejects (exists_ world path) n.
Proof.
  unfold rejects, exists_. intros (e & m & H).
  destruct (stat (world n) path); discriminate H.
Qed.

Lemma isReadable_never_rejects (path : string) (n : nat) :
  ~ rejects (isReadable world path) n.
Proof.
  unfold rejects, isReadable. intros (e & m & H).
  destruct (access (world n) path R_OK); discriminate H.
Qed.

Lemma isWritable_never_rejects (path : string) (n : nat) :
  ~ rejects (isWritable world path) n.
Proof.
  unfold rejects, isWritable. intros (e & m & H).
  destruct (access (world n) path W_OK); discriminate H.
Qed.

Lemma exists_true (path : string) (n m : nat) :
  exists_ world path n = (Return true, m)
  <-> (exists stats, stat (world n) path = Return stats) /\ m = S n.
Proof.
  unfold exists_. destruct (stat (world n) path) as [s|e]; split.
  - intros H. injection H as <-. split; [eexists; reflexivity | reflexivity].
  - intros (_ & ->). reflexivity.
  - intros H. discriminate H.
  - intros ((s & H) & _). discriminate H.
Qed.

Lemma isDirectory_rejects (path : string) (n : nat) :
  rejects (isDirectory world path) n <-> exists e, stat (world n) path = Throw e.
Proof.
  unfold rejects, isDirectory. destruct (stat (world n) path) as [s|e]; split.
  - intros (e & m & H). destruct (negb _); discriminate H.
  - intros (e & H). discriminate H.
  - intros _. eexists. reflexivity.
  - intros _. do 2 eexists. reflexivity.
Qed.

Lemma isFile_rejects (path : string) (n : nat) :
  rejects (isFile world path) n <-> exists e, stat (world n) path = Throw e.
Proof.
  unfold rejects, isFile. destruct (stat (world n) path) as [s|e]; split.
  - intros (e & m & H). destruct (negb _); discriminate H.
  - intros (e & H). discriminate H.
  - intros _. eexists. reflexivity.
  - intros _. do 2 eexists. reflexivity.
Qed.

(** [await exists(path) && await second(path) && await last(path)],
    where [second] rejects when [stat] does and [last] never rejects. *)
Lemma two_stats_reject (second last : string -> Async bool) (path : string) (n : nat) :
  (forall k, rejects (second path) k <-> exists e, stat (world k) path = Throw e) ->
  (forall k, ~ rejects (last path) k) ->
  rejects (and_await (and_await (exists_ world path) (second path)) (last path)) n
  <-> lost_between_stats path n.
Proof.
  intros Hsecond Hlast. unfold lost_between_stats.
  rewrite and_await_rejects, and_await_rejects. split.
  - intros [[R | (m & E & R)] | (m & _ & R)].
    + now apply exists_never_rejects in R.
    + apply exists_true in E. destruct E as [E ->]. apply Hsecond in R. auto.
    + now apply Hlast in R.
  - intros (E & R). left. right. exists (S n). split.
    + apply exists_true. auto.
    + apply Hsecond. exact R.
Qed.

(** The three combined checks reject in one case only: the path is
    there when [exists] looks, and [stat] rejects when [isFile] or
    [isDirectory] looks next.  [exists] turns a rejected [stat] into
    false, [isReadable] and [isWritable] turn a rejected [access] into
    false; [isFile] and [isDirectory] catch nothing. *)
Theorem combined_checks_reject_iff (path : string) (n : nat) :
  (rejects (isFileReadable world path) n <-> lost_between_stats path n)
  /\ (rejects (isDirectoryWritable world path) n <-> lost_between_stats path n)
  /\ (rejects (isDirectoryReadable world path) n <-> lost_between_stats path n).
Proof.
  unfold isFileReadable, isDirectoryWritable, isDirectoryReadable.
  split; [|split].
  - apply (two_stats_reject (isFile world) (isReadable world));
      [intros k; apply isFile_rejects | intros k; apply isReadable_never_rejects].
  - apply (two_stats_reject (isDirectory world) (isWritable world));
      [intros k; apply isDirectory_rejects | intros k; apply isWritable_never_rejects].
  - apply (two_stats_reject (isDirectory world) (isReadable world));
      [intros k; apply isDirectory_rejects | intros k; apply isReadable_never_rejects].
Qed.

(** So on a path whose [stat] answers the second time as it did the
    first, no combined check rejects. *)
Lemma combined_checks_on_a_stable_path (path : string) (n : nat) :
  stat (world (S n)) path = stat (world n) path ->
  ~ rejects (isFileReadable world path) n
  /\ ~ rejects (isDirectoryWritable world path) n
  /\ ~ rejects (isDirectoryReadable world path) n.
Proof.
  intros Hsame.
  assert (L : ~ lost_between_stats path n).
  { intros ((s & H1) & (e & H2)). rewrite Hsame, H1 in H2. discriminate H2. }
  unfold isFileReadable, isDirectoryWritable, isDirectoryReadable.
  repeat split; intros R; apply L.
  - apply (two_stats_reject (isFile world) (isReadable world)) in R;
      [exact R | intros k; apply isFile_rejects
       | intros k; apply isReadable_never_rejects].
  - apply (two_stats_reject (isDirectory world) (isWritable world)) in R;
      [exact R | intros k; apply isDirectory_rejects
       | intros k; apply isWritable_never_rejects].
  - apply (two_stats_reject (isDirectory world) (isReadable world)) in R;
      [exact R | intros k; apply isDirectory_rejects
       | intros k; apply isReadable_never_rejects].
Qed.

(** A directory is writable exactly when [stat] resolves for [exists],
    resolves to a directory for [isDirectory], and [access] with [W_OK]
    resolves after them. *)
Theorem isDirectoryWritable_true_iff (path : string) (n : nat) :
  (exists m, isDirectoryWritable world path n = (Return true, m))
  <-> (exists stats, stat (world n) path = Return stats)
      /\ (exists stats, stat (world (S n)) path = Return stats
                        /\ stats_isDirectory stats = true)
      /\ access (world (S (S n))) path W_OK = Return tt.
Proof.
  unfold isDirectoryWritable, and_await, exists_, isDirectory, isWritable.
  destruct (stat (world n) path) as [s0|e0].
  - destruct (stat (world (S n)) path) as [[d f]|e1]; cbn.
    + destruct d; cbn.
      * destruct (access (world (S (S n))) path W_OK) as [[]|e2]; split.
        -- intros _. split; [eexists; reflexivity|].
           split; [eexists; split; reflexivity | reflexivity].
        -- intros _. eexists. reflexivity.
        -- intros (m & H). discriminate H.
        -- intros (_ & _ & H). discriminate H.
      * split; [intros (m & H); discriminate H|].
        intros (_ & (stats & H & D) & _). injection H as <-. discriminate D.
    + split; [intros (m & H); discriminate H|].
      intros (_ & (stats & H & _) & _). discriminate H.
  - split; [intros (m & H); discriminate H|].
    intros ((stats & H) & _). discriminate H.
Qed.

(** Alone, [isDirectory] and [isFile] reject for a path [stat] rejects. *)
Theorem isDirectory_rejects_missing_path (path : string) (e : Error) (n : nat) :
  stat (world n) path = Throw e ->
  isDirectory world path n = (Throw e, S n) /\ isFile world path n = (Throw e, S n).
Proof. intros H. unfold isDirectory, isFile. now rewrite H. Qed.

End StorageCheckFacts.

(** A directory that is removed after [exists] has seen it: the check
    rejects with the error of the second [stat]. *)
Definition removed_after_first_call : StorageChecks.World :=
  fun n =>
    match n with
    | O => StorageChecks.mkFileSystem
             (fun _ => Return (StorageChecks.mkStats true false))
             (fun _ _ => Return tt)
    | S _ => StorageChecks.mkFileSystem
               (fun _ => Throw (GenericError "ENOENT"))
               (fun _ _ => Throw (GenericError "ENOENT"))
    end.

Example isDirectoryWritable_rejects_in_a_race :
  StorageChecks.isDirectoryWritable removed_after_first_call "/out" 0%nat
  = (Throw (GenericError "ENOENT"), 2%nat).
Proof. reflexivity. Qed.

Lemma isDirectory_rejects_missing_path_witness :
  StorageChecks.isDirectory
    (fun _ => StorageChecks.mkFileSystem (fun _ => Throw (GenericError "ENOENT"))
                                         (fun _ _ => Throw (GenericError "ENOENT")))
    "/missing" 0%nat = (Throw (GenericError "ENOENT"), 1%nat)
  /\ StorageChecks.isFile
       (fun _ => StorageChecks.mkFileSystem (fun _ => Throw (GenericError "ENOENT"))
                                            (fun _ _ => Throw (GenericError "ENOENT")))
       "/missing" 0%nat = (Throw (GenericError "ENOENT"), 1%nat).
Proof.
  apply (isDirectory_rejects_missing_path
           (fun _ => StorageChecks.mkFileSystem (fun _ => Throw (GenericError "ENOENT"))
                                                (fun _ _ => Throw (GenericError "ENOENT")))
           "/missing" (GenericError "ENOENT") 0%nat).
  reflexivity.
Defined.

(* ------------------------------------------------------------------ *)
(** ** Reading the arguments and applying the defaults *)
(* ------------------------------------------------------------------ *)

Section DefaultsFacts.

Import Defaults.

Variable DEFAULT_TIMEZONE : string.
Variable DEFAULT_RECURSIVE : bool.
Variable DEFAULT_INPUT_DIRECTORY : string.
Variable DEFAULT_CONCURRENCY : Number.
Variable DEFAULT_OUTPUT_DIRECTORY : string.
Variable DEFAULT_OUTPUT_STRUCTURE : string.
Variable DEFAULT_OUTPUT_FILENAME_OPTIONS : list string.
Variable DEFAULT_EXTENSIONS : list string.
Variable DEFAULT_INPUT_STRUCTURE : string.
Variable DEFAULT_INPUT_FILENAME_OPTIONS : list string.

(** [applyDefaults] with the constants above. *)
Definition with_defaults (config : PartialConfig) (features : list string)
           (defaults : option PartialConfig) : PartialConfig :=
  applyDefaults DEFAULT_TIMEZONE DEFAULT_RECURSIVE DEFAULT_INPUT_DIRECTORY
                DEFAULT_CONCURRENCY DEFAULT_OUTPUT_DIRECTORY DEFAULT_OUTPUT_STRUCTURE
                DEFAULT_OUTPUT_FILENAME_OPTIONS DEFAULT_EXTENSIONS
                DEFAULT_INPUT_STRUCTURE DEFAULT_INPUT_FILENAME_OPTIONS
                config features defaults.

Lemma or_string_idempotent (x : option string) (y : string) :
  or_string (Some (or_string x y)) y = or_string x y.
Proof.
  unfold or_string. destruct x as [s|].
  - destruct (truthy s) eqn:T; [now rewrite T | destruct (truthy y); reflexivity].
  - destruct (truthy y); reflexivity.
Qed.

Lemma or_number_idempotent (x : option Number) (y : Number) :
  or_number (Some (or_number x y)) y = or_number x y.
Proof.
  unfold or_number. destruct x as [n|].
  - destruct (number_truthy n) eqn:T; [now rewrite T | destruct (number_truthy y); reflexivity].
  - destruct (number_truthy y); reflexivity.
Qed.

(** Applying the defaults a second time changes nothing. *)
Theorem applyDefaults_idempotent (config : PartialConfig) (features : list string)
        (defaults : option PartialConfig) :
  with_defaults (with_defaults config features defaults) features defaults
  = with_defaults config features defaults.
Proof.
  unfold with_defaults, applyDefaults.
  cbn [timezone inputDirectory recursive limit concurrency inputStructure
       inputFilenameOptions outputDirectory outputStructure outputFilenameOptions
       extensions].
  f_equal.
  - now rewrite or_string_idempotent.
  - destruct (includes features "input"); [now rewrite or_string_idempotent | reflexivity].
  - destruct (includes features "input"); [|reflexivity].
    destruct (recursive config); reflexivity.
  - destruct (includes features "input"); [|reflexivity].
    set (fallback := or_number (default_of defaults concurrency) DEFAULT_CONCURRENCY).
    assert (F : (if negb (Number_isInteger fallback) || below_one fallback
                 then Some fallback else Some fallback) = Some fallback)
      by (destruct (_ || _); reflexivity).
    destruct (concurrency config) as [c|]; [|exact F].
    destruct (negb (Number_isInteger c) || below_one c) eqn:E; [exact F|].
    now rewrite E.
  - destruct (includes features "structured-input");
      [now rewrite or_string_idempotent | reflexivity].
  - destruct (includes features "structured-input"); reflexivity.
  - destruct (includes features "output"); [now rewrite or_string_idempotent | reflexivity].
  - destruct (includes features "structured-output");
      [now rewrite or_string_idempotent | reflexivity].
  - destruct (includes features "structured-output"); reflexivity.
  - destruct (includes features "extensions"); reflexivity.
Qed.


(** A setting of a feature that is not enabled does not reach the
    configuration: [read] leaves it out, and [applyDefaults] gives such a
    field no default. *)
Theorem disabled_feature_settings_dropped (args : PartialConfig)
        (features : list string) (defaults : option PartialConfig) :
  let config := with_defaults (read args features) features defaults in
  (includes features "input" = false ->
   inputDirectory config = None /\ recursive config = None
   /\ limit config = None /\ concurrency config = None)
  /\ (includes features "structured-input" = false ->
      inputStructure config = None /\ inputFilenameOptions config = None)
  /\ (includes features "output" = false -> outputDirectory config = None)
  /\ (includes features "structured-output" = false ->
      outputStructure config = None /\ outputFilenameOptions config = None)
  /\ (includes features "extensions" = false -> extensions config = None).
Proof.
  cbv zeta. unfold with_defaults, applyDefaults, read.
  cbn [timezone inputDirectory recursive limit concurrency inputStructure
       inputFilenameOptions outputDirectory outputStructure outputFilenameOptions
       extensions].
  repeat match goal with
         | |- _ /\ _ => split
         | |- _ = false -> _ => let H := fresh "H" in intros H; rewrite H
         end; reflexivity.
Qed.

End DefaultsFacts.

(* ------------------------------------------------------------------ *)
(** ** The output directory *)
(* ------------------------------------------------------------------ *)

Section OutputDirectoryFacts.

Import Output.

Variable config : Config.
Variable clock : Z.
Variable path_join : list string -> string.

(** How many directories a structure puts below the output directory. *)
Definition depth (s : FilesystemStructure) : nat :=
  match s with
  | StructureNone => 0
  | StructureYear => 1
  | StructureMonth => 2
  | StructureDay => 3
  end.

(** [constructOutputDirectory] throws exactly when the output directory
    is not set or empty, when the structure is not set, or when
    [dates.date] throws: the date is an Invalid Date, or dayjs makes no
    valid date of it. *)
Theorem constructOutputDirectory_throws_iff (creationTime : JSDate.Date) :
  (exists e, constructOutputDirectory config clock path_join creationTime = Throw e)
  <-> match outputDirectory config with
      | Some dir => truthy dir = false
      | None => True
      end
      \/ outputStructure config = None
      \/ Dates.to_date (timezone config) creationTime = None.
Proof.
  unfold constructOutputDirectory.
  destruct (outputDirectory config) as [dir|].
  - destruct (truthy dir) eqn:T; cbn [negb].
    + destruct (outputStructure config) as [s|].
      * cbn [dates Dates.create Dates.date].
        destruct (Dates.to_date (timezone config) creationTime) as [v|]; cbn [bind].
        -- split; [intros (e & H); discriminate H|].
           intros [H | [H | H]]; discriminate H.
        -- split; [intros _; right; right; reflexivity | intros _; eexists; reflexivity].
      * split; [intros _; right; left; reflexivity | intros _; eexists; reflexivity].
    + split; [intros _; left; reflexivity | intros _; eexists; reflexivity].
  - split; [intros _; left; exact I | intros _; eexists; reflexivity].
Qed.


End OutputDirectoryFacts.


(** Without nesting the configured directory comes back unchanged,
    whatever [path.join] would make of it. *)
Example constructOutputDirectory_none_keeps_the_directory :
  forall path_join : list string -> string,
    Output.constructOutputDirectory
      {| Output.timezone := Dayjs.UTC; Output.outputDirectory := Some "./organized";
         Output.outputStructure := Some StructureNone;
         Output.outputFilenameOptions := None |}
      0 path_join (Some 1642235400000)
    = Return "./organized".
Proof. reflexivity. Qed.


(* ------------------------------------------------------------------ *)
(** ** The errors of [validate] *)
(* ------------------------------------------------------------------ *)

Section ValidationErrors.

Import Validation.

Variable ALLOWED_EXTENSIONS : list string.
Variable ALLOWED_INPUT_FILENAME_OPTIONS : list string.
Variable ALLOWED_INPUT_STRUCTURES : list string.
Variable ALLOWED_OUTPUT_STRUCTURES : list string.
Variable validTimezones : list string.
Variable isDirectoryReadable : string -> Promise bool.
Variable isDirectoryWritable : string -> bool.
Variable options : Options.

(** What an outcome of a check may be: no error, or an [ArgumentError]
    on one of the given flags. *)
Definition argument_error_on (flags : list string) (r : Result unit) : Prop :=
  match r with
  | Return _ => True
  | Throw (ArgumentError flag _) => In flag flags
  | Throw _ => False
  end.

Lemma validateOutputFilenameOptions_error (allowed outputFilenameOptions : option (list string))
      (outputStructure : option FilesystemStructure) :
  argument_error_on ["--output-filename-options"]
    (Validate.validateOutputFilenameOptions allowed outputFilenameOptions outputStructure).
Proof.
  unfold Validate.validateOutputFilenameOptions.
  destruct outputFilenameOptions as [[|first rest]|]; try exact I.
  destruct (includes_char first ","); [left; reflexivity|].
  destruct (_ && _); [left; reflexivity|].
  destruct (0 <? _)%nat; [left; reflexivity|].
  destruct (includes (first :: rest) "date"); [|exact I].
  destruct outputStructure as [[| | |]|]; try exact I. left. reflexivity.
Qed.

Lemma validateInputFilenameOptions_error (inputFilenameOptions : option (list string))
      (inputStructure : option FilesystemStructure) :
  argument_error_on ["--input-filename-options"]
    (validateInputFilenameOptions ALLOWED_INPUT_FILENAME_OPTIONS options
       inputFilenameOptions inputStructure).
Proof.
  unfold validateInputFilenameOptions.
  destruct inputFilenameOptions as [[|first rest]|]; try exact I.
  destruct (includes_char first ","); [left; reflexivity|].
  destruct (_ && _); [left; reflexivity|].
  destruct (0 <? _)%nat; [left; reflexivity|].
  destruct (includes (first :: rest) "date"); [|exact I].
  destruct inputStructure as [[| | |]|]; try exact I. left. reflexivity.
Qed.


End ValidationErrors.
